(** * formular: the field registry of a form-state engine

    A shallow embedding of the engine behind [createForm], in its three
    drafts:
      - [src/index.tsx], whose form is created over [initialValues]
        (module [Index] holds what is its own);
      - the draft whose [isFormDirty] compares the store with the whole
        snapshot (module [Legacy]);
      - the draft whose [isFieldDirty] compares each field with its entry
        of the snapshot (module [Snapshot]).
    What the drafts share ([analyzeNamePath], [createObjectFromPath],
    [validate], [clearErrors], [touch], [setField], ...) is defined once,
    as is the validator [required].

    JavaScript values are a tree type [Value]; an object keeps its own keys
    in the order JavaScript enumerates them; numbers are IEEE binary64
    floats.  The store of Solid is the plain object it wraps; the arrays
    and objects it hands out of a field take no write, which the projection
    of the form meets where one name runs through another (module [Tree]).
    A memo is the function it caches, run where the code reads it and, for
    the memos of the form, at the end of a registration.  A name that is
    not registered and that every object inherits ([inherited]) is where
    the drafts part and where writes go to built-in functions: [addField],
    [addError], [validate] and [clearErrors] are not modelled there.
    Stateful code runs in a state-and-exception monad [M] over the store
    [data] and a log of the effects pushed onto bound elements; a validator
    is the answer its promise resolves to.

    Around the registry stand what a component holds of it: the controller
    of a field and of an array field (modules [Controller] and
    [ArrayController]), the handlers of a registered input (module
    [FieldRegister]) and [handleSubmit]; and the last draft's [setValues],
    [setInitialValues] and [reset] (module [Seed]), which read a nested
    object through [createKeyValueFromObject]. *)

From Stdlib Require Import Bool Ascii String DecimalString List ZArith NArith
     PrimFloat Lia.
Import ListNotations.

Local Open Scope string_scope.
Local Open Scope list_scope.

Set Implicit Arguments.

(* ================================================================== *)
(** * Strings as JavaScript sees them *)

(** A string is a sequence of code units; each [ascii] stands for the code
    unit of the same number (so only code units below 256 occur). *)

Module JsString.

Definition code (c : ascii) : N := N_of_ascii c.

(** [StrWhiteSpaceChar]: TAB, LF, VT, FF, CR, SP and NBSP (the others lie
    above code unit 255). *)
Definition isStrWhiteSpaceChar (c : ascii) : bool :=
  let n := code c in
  ((9 <=? n) && (n <=? 13) || (n =? 32) || (n =? 160))%N.

Fixpoint dropWhiteSpace (l : list ascii) : list ascii :=
  match l with
  | c :: r => if isStrWhiteSpaceChar c then dropWhiteSpace r else l
  | [] => []
  end.

Definition trim (l : list ascii) : list ascii :=
  rev (dropWhiteSpace (rev (dropWhiteSpace l))).

(** The digit a code unit denotes in base [base] (at most 16). *)
Definition digitIn (base : Z) (c : ascii) : option Z :=
  let n := Z.of_N (code c) in
  let d := (if (48 <=? n) && (n <=? 57) then n - 48
            else if (97 <=? n) && (n <=? 102) then n - 87
            else if (65 <=? n) && (n <=? 70) then n - 55
            else 16)%Z in
  if (d <? base)%Z then Some d else None.

(** The longest prefix of digits, most significant first, and the rest. *)
Fixpoint spanDigits (base : Z) (l : list ascii) : list Z * list ascii :=
  match l with
  | c :: r =>
      match digitIn base c with
      | Some d => let (ds, rest) := spanDigits base r in (d :: ds, rest)
      | None => ([], l)
      end
  | [] => ([], [])
  end.

Definition digitsValue (base : Z) (ds : list Z) : Z :=
  fold_left (fun acc d => acc * base + d)%Z ds 0%Z.

(** What [Number(s)] is, as far as the engine looks at it. *)
Inductive NumberClass := IsNaN | IsZero | IsNonZero.

(** The Number value of the mathematical value [m * 10^e], [0 <= m]: it is
    zero when [m] is, and rounds to zero when it is at most half of the
    least subnormal, [2^-1075]. *)
Definition classifyDecimal (m e : Z) : NumberClass :=
  (if m =? 0 then IsZero
   else if 0 <=? e then IsNonZero
   else if m * 2 ^ 1075 <=? 10 ^ (- e) then IsZero
   else IsNonZero)%Z.

Definition isExponentIndicator (c : ascii) : bool :=
  ((code c =? 101) || (code c =? 69))%N.

(** [ExponentPart] if any, which must reach the end of the literal. *)
Definition parseExponent (l : list ascii) : option Z :=
  match l with
  | [] => Some 0%Z
  | c :: r =>
      if isExponentIndicator c then
        let (sign, r') :=
          match r with
          | "+"%char :: r' => (1%Z, r')
          | "-"%char :: r' => ((-1)%Z, r')
          | _ => (1%Z, r)
          end in
        match spanDigits 10 r' with
        | ((_ :: _) as ds, []) => Some (sign * digitsValue 10 ds)%Z
        | _ => None
        end
      else None
  end.

(** [StrUnsignedDecimalLiteral]. *)
Definition parseUnsignedDecimal (l : list ascii) : NumberClass :=
  if list_eq_dec ascii_dec l (list_ascii_of_string "Infinity") then IsNonZero
  else
    let (ip, r1) := spanDigits 10 l in
    let '(fp, r2) :=
      match r1 with
      | "."%char :: r => spanDigits 10 r
      | _ => ([], r1)
      end in
    match ip ++ fp with
    | [] => IsNaN
    | ds =>
        match parseExponent r2 with
        | Some e => classifyDecimal (digitsValue 10 ds) (e - Z.of_nat (length fp))%Z
        | None => IsNaN
        end
    end.

(** [NonDecimalIntegerLiteral] after its two-unit prefix. *)
Definition parseNonDecimal (base : Z) (l : list ascii) : NumberClass :=
  match spanDigits base l with
  | ((_ :: _) as ds, []) => if (digitsValue base ds =? 0)%Z then IsZero else IsNonZero
  | _ => IsNaN
  end.

Definition radixOfPrefix (c : ascii) : option Z :=
  let n := code c in
  if ((n =? 120) || (n =? 88))%N then Some 16%Z
  else if ((n =? 111) || (n =? 79))%N then Some 8%Z
  else if ((n =? 98) || (n =? 66))%N then Some 2%Z
  else None.

(** [StringToNumber]: white space is trimmed, the empty literal is [+0], a
    radix prefix takes no sign. *)
Definition StringToNumber (s : string) : NumberClass :=
  match trim (list_ascii_of_string s) with
  | [] => IsZero
  | ("0"%char :: p :: r) as l =>
      match radixOfPrefix p with
      | Some base => parseNonDecimal base r
      | None => parseUnsignedDecimal l
      end
  | "+"%char :: r => parseUnsignedDecimal r
  | "-"%char :: r => parseUnsignedDecimal r
  | l => parseUnsignedDecimal l
  end.

(** [isNaN(Number(s))] *)
Definition isNaN_Number (s : string) : bool :=
  match StringToNumber s with IsNaN => true | _ => false end.

(** [s.split(".")] *)
Fixpoint split_dot (s : string) : list string :=
  match s with
  | EmptyString => [""]
  | String c r =>
      if Ascii.eqb c "."%char then "" :: split_dot r
      else match split_dot r with
           | h :: t => String c h :: t
           | [] => [String c ""]
           end
  end.

(** An array index: the canonical decimal numeral of an integer below
    [2^32 - 1]. *)
Definition asArrayIndex (s : string) : option N :=
  match spanDigits 10 (list_ascii_of_string s) with
  | (d :: ds, []) =>
      let n := digitsValue 10 (d :: ds) in
      if ((d =? 0)%Z && negb (length ds =? 0)%nat) then None
      else if (n <? 2 ^ 32 - 1)%Z then Some (Z.to_N n) else None
  | _ => None
  end.

End JsString.
Import JsString.

(* ================================================================== *)
(** * Values *)

(** JavaScript data.  An array keeps its elements ([None] is a hole) and the
    properties it was given under keys that are not array indices.  Objects
    and arrays are tables of their own data properties; functions, accessors
    and the prototype chain are not part of a value, and conversions of an
    object use the built-in [toString] and [join]. *)
#[warnings="-register-all"]
Inductive Value : Type :=
| VUndefined
| VNull
| VBool (b : bool)
| VNum (n : float)
| VStr (s : string)
| VArr (elems : list (option Value)) (named : list (string * Value))
| VObj (props : list (string * Value)).

Definition emptyArray : Value := VArr [] [].
Definition emptyObject : Value := VObj [].

(** An array literal without holes. *)
Definition arrayOf (l : list Value) : Value := VArr (map Some l) [].

Fixpoint float_of_nat (n : nat) : float :=
  match n with
  | O => 0%float
  | S n' => (float_of_nat n' + 1)%float
  end.

(** How a computation ends when it does not return. *)
Inductive Exn := TypeError.

Inductive Halt :=
| Thrown (e : Exn)      (* an exception reaches the caller *)
| OutOfFuel             (* the recursion budget of the model is spent *)
| NotModelled.          (* the step leaves this model of values *)

Inductive result (A : Type) : Type :=
| Ok (a : A)
| Stop (h : Halt).
Arguments Stop {A} h.

Definition rbind {A B} (r : result A) (k : A -> result B) : result B :=
  match r with
  | Ok a => k a
  | Stop h => Stop h
  end.

(* ================================================================== *)
(** * Own properties, in enumeration order *)

(** The own string keys of an object come out with the array indices first,
    ascending, then the other keys in the order they were created. *)
Module Props.
Section Table.
Variable V : Type.

Fixpoint get (k : string) (l : list (string * V)) : option V :=
  match l with
  | [] => None
  | (k', v) :: r => if k' =? k then Some v else get k r
  end.

Definition has (k : string) (l : list (string * V)) : bool :=
  match get k l with Some _ => true | None => false end.

Fixpoint replace (k : string) (v : V) (l : list (string * V)) : list (string * V) :=
  match l with
  | [] => []
  | (k', v') :: r => if k' =? k then (k', v) :: r else (k', v') :: replace k v r
  end.

(** The key [k'] is an array index below [n]. *)
Definition indexBelow (n : N) (k' : string) : bool :=
  match asArrayIndex k' with
  | Some m => (m <? n)%N
  | None => false
  end.

Fixpoint insertIndex (n : N) (k : string) (v : V) (l : list (string * V))
  : list (string * V) :=
  match l with
  | [] => [(k, v)]
  | (k', v') :: r =>
      if indexBelow n k' then (k', v') :: insertIndex n k v r
      else (k, v) :: l
  end.

(** [o[k] = v] on the table of an ordinary object. *)
Definition set (k : string) (v : V) (l : list (string * V)) : list (string * V) :=
  if has k l then replace k v l
  else match asArrayIndex k with
       | Some n => insertIndex n k v l
       | None => l ++ [(k, v)]
       end.

(** [delete o[k]]: no entry for [k] is left. *)
Fixpoint delete (k : string) (l : list (string * V)) : list (string * V) :=
  match l with
  | [] => []
  | (k', v) :: r => if k' =? k then delete k r else (k', v) :: delete k r
  end.

(** [Object.keys(o)], and the order of [for (const key in o)]. *)
Definition keys (l : list (string * V)) : list string := map fst l.

End Table.
End Props.

(** [l[n] = x] on the elements of an array: the array grows by holes. *)
Fixpoint setNth {A} (n : nat) (x : A) (hole : A) (l : list A) : list A :=
  match n, l with
  | O, [] => [x]
  | O, _ :: r => x :: r
  | S n', [] => hole :: setNth n' x hole []
  | S n', y :: r => y :: setNth n' x hole r
  end.

(** [o.hasOwnProperty(k)].  The method is found through [o]: on [null] and
    [undefined] the lookup throws, and an own property of that name, which is
    data, is called in its place and throws. *)
Definition hasOwnProperty (o : Value) (k : string) : result bool :=
  match o with
  | VUndefined | VNull => Stop (Thrown TypeError)
  | VBool _ | VNum _ => Ok false
  | VStr s =>
      Ok match asArrayIndex k with
         | Some n => (n <? N.of_nat (String.length s))%N
         | None => k =? "length"
         end
  | VArr elems named =>
      if Props.has "hasOwnProperty" named then Stop (Thrown TypeError)
      else Ok match asArrayIndex k with
              | Some n =>
                  match nth_error elems (N.to_nat n) with
                  | Some (Some _) => true
                  | _ => false
                  end
              | None => (k =? "length") || Props.has k named
              end
  | VObj props =>
      if Props.has "hasOwnProperty" props then Stop (Thrown TypeError)
      else Ok (Props.has k props)
  end.

(** The key [__proto__] where the object has no property of its own under
    it: reading and writing then go to the accessor of [Object.prototype],
    which is not modelled. *)
Definition reachesProto (k : string) (own : list (string * Value)) : bool :=
  (k =? "__proto__") && negb (Props.has k own).

(** The names every object inherits from [Object.prototype]: [o[k]] is not
    [undefined] under them where [o] has no property of its own. *)
Definition inherited (k : string) : bool :=
  existsb (String.eqb k)
    ["constructor"; "hasOwnProperty"; "isPrototypeOf"; "propertyIsEnumerable";
     "toLocaleString"; "toString"; "valueOf"; "__defineGetter__";
     "__defineSetter__"; "__lookupGetter__"; "__lookupSetter__"; "__proto__"].

(** [o[k]], for the own properties of [o]. *)
Definition getProp (o : Value) (k : string) : result Value :=
  match o with
  | VUndefined | VNull => Stop (Thrown TypeError)
  | VBool _ | VNum _ => Ok VUndefined
  | VStr s =>
      Ok match asArrayIndex k with
         | Some n =>
             match String.get (N.to_nat n) s with
             | Some c => VStr (String c "")
             | None => VUndefined
             end
         | None =>
             if k =? "length" then VNum (float_of_nat (String.length s))
             else VUndefined
         end
  | VArr elems named =>
      if reachesProto k named then Stop NotModelled
      else Ok match asArrayIndex k with
              | Some n =>
                  match nth_error elems (N.to_nat n) with
                  | Some (Some v) => v
                  | _ => VUndefined
                  end
              | None =>
                  if k =? "length" then VNum (float_of_nat (length elems))
                  else match Props.get k named with
                       | Some v => v
                       | None => VUndefined
                       end
              end
  | VObj props =>
      if reachesProto k props then Stop NotModelled
      else Ok match Props.get k props with
              | Some v => v
              | None => VUndefined
              end
  end.

(** [o[k] = v] in strict code (modules are strict): a primitive takes no
    property.  Writing an array's [length] resizes it or throws a
    [RangeError], by the number the value converts to: that is not
    modelled either. *)
Definition setProp (o : Value) (k : string) (v : Value) : result Value :=
  match o with
  | VUndefined | VNull | VBool _ | VNum _ | VStr _ => Stop (Thrown TypeError)
  | VArr elems named =>
      if reachesProto k named then Stop NotModelled
      else match asArrayIndex k with
           | Some n => Ok (VArr (setNth (N.to_nat n) (Some v) None elems) named)
           | None =>
               if k =? "length" then Stop NotModelled
               else Ok (VArr elems (Props.set k v named))
           end
  | VObj props =>
      if reachesProto k props then Stop NotModelled
      else Ok (VObj (Props.set k v props))
  end.

(* ================================================================== *)
(** * Conversions *)

(** [typeof v == "number"] *)
Definition isNumber (v : Value) : bool :=
  match v with VNum _ => true | _ => false end.

(** [ToBoolean]: what [!v] negates. *)
Definition truthy (v : Value) : bool :=
  match v with
  | VUndefined | VNull => false
  | VBool b => b
  | VNum n => negb (PrimFloat.is_zero n || PrimFloat.is_nan n)
  | VStr s => negb (s =? "")
  | VArr _ _ | VObj _ => true
  end.

Definition isZeroClass (c : NumberClass) : bool :=
  match c with IsZero => true | _ => false end.

(** [String(v) === ""]: only the empty string, and an array that joins to
    it, convert to the empty string ([join] writes a hole, [null] and
    [undefined] as nothing and puts a comma between two elements). *)
Fixpoint stringIsEmpty (v : Value) : bool :=
  match v with
  | VStr s => s =? ""
  | VArr [] _ => true
  | VArr [e] _ =>
      match e with
      | None | Some VUndefined | Some VNull => true
      | Some x => stringIsEmpty x
      end
  | _ => false
  end.

(** [Number(String(v))] is [0] or [-0]. *)
Fixpoint stringIsZero (v : Value) : bool :=
  match v with
  | VNum n => PrimFloat.is_zero n
  | VStr s => isZeroClass (StringToNumber s)
  | VArr [] _ => true
  | VArr [e] _ =>
      match e with
      | None | Some VUndefined | Some VNull => true
      | Some x => stringIsZero x
      end
  | _ => false
  end.

(** [v == ""]: [null] and [undefined] equal only each other, a boolean and
    a number are compared with [Number("")], which is [0], and an object
    with its string. *)
Definition looseEqEmptyString (v : Value) : bool :=
  match v with
  | VUndefined | VNull => false
  | VBool b => negb b
  | VNum n => PrimFloat.is_zero n
  | VStr s => s =? ""
  | VArr _ _ | VObj _ => stringIsEmpty v
  end.

(** [v == 0] *)
Definition looseEqZero (v : Value) : bool :=
  match v with
  | VUndefined | VNull => false
  | VBool b => negb b
  | VNum n => PrimFloat.is_zero n
  | VStr s => isZeroClass (StringToNumber s)
  | VArr _ _ | VObj _ => stringIsZero v
  end.

(** [v?.length == 0]: a string and an array have their length, an object
    the property it was given, a number and a boolean none. *)
Definition lengthLooseEqZero (v : Value) : bool :=
  match v with
  | VUndefined | VNull => false
  | VBool _ | VNum _ => false
  | VStr s => s =? ""
  | VArr elems _ => match elems with [] => true | _ => false end
  | VObj props =>
      match Props.get "length" props with
      | Some x => looseEqZero x
      | None => false
      end
  end.

(* ================================================================== *)
(** * Validators *)

(** What the promise of a validator resolves to: an error message or
    nothing.  The arguments are the field's value and the values of the
    whole form. *)
Definition FieldValidator : Type := Value -> Value -> option string.

(** [required(message)], the same in [src/validators.ts] and in every draft. *)
Definition required (message : string) : FieldValidator :=
  fun value _ =>
    if negb (isNumber value) && negb (truthy value) then Some message
    else if lengthLooseEqZero value then Some message
    else None.

(* ================================================================== *)
(** * Paths and the nested-object projection *)

Module NamePathPart.
Record t := { value : string; arrayIndex : bool }.
End NamePathPart.

(** [analyzeNamePath]: the three drafts build the same list. *)
Definition analyzeNamePath (name : string) : list NamePathPart.t :=
  map (fun part =>
         {| NamePathPart.value := part;
            NamePathPart.arrayIndex := negb (isNaN_Number part) |})
      (split_dot name).

(** What an absent slot is filled with: [path[i + 1]?.arrayIndex] chooses. *)
Definition freshSlot (rest : list NamePathPart.t) : Value :=
  match rest with
  | next :: _ => if NamePathPart.arrayIndex next then emptyArray else emptyObject
  | [] => emptyObject
  end.

(** [createObjectFromPath(object, path, value)] on plain objects and arrays.
    The loop keeps a reference [last] into [object] and mutates what it
    points at; here the walk returns the updated [last], and the child it
    descended into is put back in its slot. *)
Fixpoint createObjectFromPath (last : Value) (path : list NamePathPart.t)
         (value : Value) : result Value :=
  match path with
  | [] => Ok last
  | part :: rest =>
      let k := NamePathPart.value part in
      rbind (hasOwnProperty last k) (fun own =>
      rbind (if own then Ok last else setProp last k (freshSlot rest)) (fun last1 =>
      match rest with
      | [] => setProp last1 k value
      | _ :: _ =>
          rbind (getProp last1 k) (fun child =>
          rbind (createObjectFromPath child rest value) (fun child' =>
          setProp last1 k child'))
      end))
  end.

(** ** The walk inside the form

    Where [extractFieldsMember] calls [createObjectFromPath], the object it
    fills holds two kinds of things: the objects and arrays the walk has made
    itself, which are plain, and the members of fields it has written.  A
    member that is an array or an object is handed out by the store of Solid
    behind a proxy that takes no write: an assignment to it returns and
    changes nothing. *)
Module Tree.

#[warnings="-register-all"]
Inductive t : Type :=
| Member (v : Value)                          (* [data[key][memberKey]] *)
| Obj (props : list (string * t))             (* an object the walk made *)
| Arr (elems : list (option t)) (named : list (string * t)).
                                              (* an array the walk made *)

(** What the caller of the projection holds. *)
Fixpoint toValue (o : t) : Value :=
  match o with
  | Member v => v
  | Obj props => VObj (map (fun kv => (fst kv, toValue (snd kv))) props)
  | Arr elems named =>
      VArr (map (fun e => match e with
                          | Some c => Some (toValue c)
                          | None => None
                          end) elems)
           (map (fun kv => (fst kv, toValue (snd kv))) named)
  end.

(** The member is behind a proxy of the store. *)
Definition readOnly (v : Value) : bool :=
  match v with VArr _ _ | VObj _ => true | _ => false end.

(** The own property of a value under [k], if it has one. *)
Definition ownValue (v : Value) (k : string) : option Value :=
  match v with
  | VStr s =>
      match asArrayIndex k with
      | Some n =>
          match String.get (N.to_nat n) s with
          | Some c => Some (VStr (String c ""))
          | None => None
          end
      | None =>
          if k =? "length" then Some (VNum (float_of_nat (String.length s)))
          else None
      end
  | VArr elems named =>
      match asArrayIndex k with
      | Some n =>
          match nth_error elems (N.to_nat n) with
          | Some (Some c) => Some c
          | _ => None
          end
      | None =>
          if k =? "length" then Some (VNum (float_of_nat (length elems)))
          else Props.get k named
      end
  | VObj props => Props.get k props
  | _ => None
  end.

Definition own (o : t) (k : string) : option t :=
  match o with
  | Member v =>
      match ownValue v k with Some c => Some (Member c) | None => None end
  | Obj props => Props.get k props
  | Arr elems named =>
      match asArrayIndex k with
      | Some n =>
          match nth_error elems (N.to_nat n) with
          | Some (Some c) => Some c
          | _ => None
          end
      | None =>
          if k =? "length" then Some (Member (VNum (float_of_nat (length elems))))
          else Props.get k named
      end
  end.

(** [o.hasOwnProperty] is not the built-in method: [o] is [null] or
    [undefined], or has a property of that name of its own, which is data. *)
Definition noMethod (o : t) : bool :=
  match o with
  | Member (VUndefined | VNull) => true
  | Member (VArr _ named) => Props.has "hasOwnProperty" named
  | Member (VObj props) => Props.has "hasOwnProperty" props
  | Member _ => false
  | Obj props => Props.has "hasOwnProperty" props
  | Arr _ named => Props.has "hasOwnProperty" named
  end.

(** [o.hasOwnProperty(k)] *)
Definition hasOwn (o : t) (k : string) : result bool :=
  if noMethod o then Stop (Thrown TypeError)
  else Ok match own o k with Some _ => true | None => false end.

(** [o] is an object that is not an array. *)
Definition plain (o : t) : bool :=
  match o with
  | Obj _ | Member (VObj _) => true
  | _ => false
  end.

(** [o[k]].  Where [o] has no property of its own under [k] the answer is
    [undefined] for an array index, and for any name that a plain object
    does not inherit; what the prototypes hold is not modelled. *)
Definition get (o : t) (k : string) : result t :=
  match o with
  | Member (VUndefined | VNull) => Stop (Thrown TypeError)
  | _ =>
      match own o k with
      | Some c => Ok c
      | None =>
          match asArrayIndex k with
          | Some _ => Ok (Member VUndefined)
          | None =>
              if plain o && negb (inherited k) then Ok (Member VUndefined)
              else Stop NotModelled
          end
      end
  end.

(** [o[k] = x] in strict code.  A primitive takes no property; the proxy of
    the store takes the assignment and drops it; what the walk has made is
    written as [setProp] writes. *)
Definition set (o : t) (k : string) (x : t) : result t :=
  match o with
  | Member v => if readOnly v then Ok o else Stop (Thrown TypeError)
  | Arr elems named =>
      if (k =? "__proto__") && negb (Props.has k named) then Stop NotModelled
      else match asArrayIndex k with
           | Some n => Ok (Arr (setNth (N.to_nat n) (Some x) None elems) named)
           | None =>
               if k =? "length" then Stop NotModelled
               else Ok (Arr elems (Props.set k x named))
           end
  | Obj props =>
      if (k =? "__proto__") && negb (Props.has k props) then Stop NotModelled
      else Ok (Obj (Props.set k x props))
  end.

Definition freshSlot (rest : list NamePathPart.t) : t :=
  match rest with
  | next :: _ => if NamePathPart.arrayIndex next then Arr [] [] else Obj []
  | [] => Obj []
  end.

(** [createObjectFromPath(object, path, value)] on what the projection has
    built so far. *)
Fixpoint createObjectFromPath (last : t) (path : list NamePathPart.t)
         (value : Value) : result t :=
  match path with
  | [] => Ok last
  | part :: rest =>
      let k := NamePathPart.value part in
      rbind (hasOwn last k) (fun isOwn =>
      rbind (if isOwn then Ok last else set last k (freshSlot rest)) (fun last1 =>
      match rest with
      | [] => set last1 k (Member value)
      | _ :: _ =>
          rbind (get last1 k) (fun child =>
          rbind (createObjectFromPath child rest value) (fun child' =>
          set last1 k child'))
      end))
  end.

(** [object[p0][p1]...] *)
Fixpoint readPath (object : t) (path : list NamePathPart.t) : result t :=
  match path with
  | [] => Ok object
  | part :: rest =>
      rbind (get object (NamePathPart.value part)) (fun child =>
      readPath child rest)
  end.

End Tree.

(* ================================================================== *)
(** * The store *)

(** A bound element: the handle and what [addField] reads from it. *)
Module Element.
Record t := { id : nat; type : string; value : string; checked : bool }.
End Element.

Record Field := {
  path : list NamePathPart.t;
  ref : option Element.t;
  value : Value;
  touched : bool;
  errors : list string;
  validators : list FieldValidator
}.

Definition Data : Type := list (string * Field).

(** What the engine does to bound elements. *)
Inductive Effect :=
| Focus (el : nat)                    (* el.focus() *)
| WriteValue (el : nat) (v : Value).  (* el.value = v *)

Record World := { data : Data; effects : list Effect }.

(** State and exceptions. *)
Definition M (A : Type) : Type := World -> result (A * World).

Definition ret {A} (a : A) : M A := fun w => Ok (a, w).

Definition bind {A B} (m : M A) (k : A -> M B) : M B :=
  fun w => match m w with
           | Ok (a, w') => k a w'
           | Stop h => Stop h
           end.

Definition halt {A} (h : Halt) : M A := fun _ => Stop h.

Definition lift {A} (r : result A) : M A :=
  fun w => match r with Ok a => Ok (a, w) | Stop h => Stop h end.

Declare Scope form_scope.
Delimit Scope form_scope with form.
Notation "x <- m ;; k" := (bind m (fun x => k))
  (at level 61, m at next level, right associativity) : form_scope.
Notation "m ;; k" := (bind m (fun _ => k))
  (at level 61, right associativity) : form_scope.
Local Open Scope form_scope.

Definition getData : M Data := fun w => Ok (data w, w).

Definition setData (d : Data) : M unit :=
  fun w => Ok (tt, {| data := d; effects := effects w |}).

Definition emit (e : Effect) : M unit :=
  fun w => Ok (tt, {| data := data w; effects := effects w ++ [e] |}).

(** [data[name]] where a member of it is read or written next: a
    [TypeError] when there is nothing under the name.  Under a name of
    [Object.prototype] that is not registered the store answers with what
    every object inherits, a function or the prototype itself; what becomes
    of its members is not modelled. *)
Definition fieldOrThrow (name : string) : M Field :=
  d <- getData ;;
  match Props.get name d with
  | Some field => ret field
  | None => if inherited name then halt NotModelled else halt (Thrown TypeError)
  end.

(** [data[name].member = ...] *)
Definition assignField (name : string) (f : Field -> Field) : M unit :=
  field <- fieldOrThrow name ;;
  d <- getData ;;
  setData (Props.replace name (f field) d).

Definition withValue (v : Value) (f : Field) : Field :=
  {| path := path f; ref := ref f; value := v; touched := touched f;
     errors := errors f; validators := validators f |}.

Definition withTouched (b : bool) (f : Field) : Field :=
  {| path := path f; ref := ref f; value := value f; touched := b;
     errors := errors f; validators := validators f |}.

Definition withErrors (l : list string) (f : Field) : Field :=
  {| path := path f; ref := ref f; value := value f; touched := touched f;
     errors := l; validators := validators f |}.

Definition withRef (r : option Element.t) (f : Field) : Field :=
  {| path := path f; ref := r; value := value f; touched := touched f;
     errors := errors f; validators := validators f |}.

(** The argument [name?: string | string[]] of [validate] and [clearErrors]. *)
Inductive NameArg :=
| NoName
| One (name : string)
| Many (names : list string).

(** [!name || name.length == 0] *)
Definition nameIsEmpty (name : NameArg) : bool :=
  match name with
  | NoName => true
  | One s => s =? ""
  | Many l => match l with [] => true | _ => false end
  end.

(** [isFormValid] *)
Definition fieldInvalid (field : Field) : bool :=
  (0 <? length (errors field))%nat
  || (0 <? length (validators field))%nat && negb (touched field).

Fixpoint isFormValid (d : Data) : bool :=
  match d with
  | [] => true
  | (_, field) :: rest => if fieldInvalid field then false else isFormValid rest
  end.

(** [extractFieldsMember(memberKey)] *)
Inductive MemberKey := MValue | MTouched | MErrors.

Definition member (memberKey : MemberKey) (field : Field) : Value :=
  match memberKey with
  | MValue => value field
  | MTouched => VBool (touched field)
  | MErrors => arrayOf (map VStr (errors field))
  end.

Fixpoint projectInto (object : Tree.t) (memberKey : MemberKey) (d : Data)
  : result Tree.t :=
  match d with
  | [] => Ok object
  | (_, field) :: rest =>
      rbind (Tree.createObjectFromPath object (path field)
                                       (member memberKey field))
            (fun object' => projectInto object' memberKey rest)
  end.

Definition extractFieldsMember (memberKey : MemberKey) (d : Data) : result Value :=
  rbind (projectInto (Tree.Obj []) memberKey d) (fun object =>
  Ok (Tree.toValue object)).

(** The memos [values], [touched] and [errors], in the order [createForm]
    makes them.  Solid runs a memo anew inside the call that has changed
    what the memo reads, and what the memo throws then reaches the caller
    of that call. *)
Definition memosRun (d : Data) : result unit :=
  rbind (extractFieldsMember MValue d) (fun _ =>
  rbind (extractFieldsMember MTouched d) (fun _ =>
  rbind (extractFieldsMember MErrors d) (fun _ => Ok tt))).

(** [values()].  The memo is Solid's; here it is recomputed where it is
    read, so that it throws when the projection does. *)
Definition values : M Value :=
  d <- getData ;; lift (extractFieldsMember MValue d).

(** [touch].  Without a record under the name the store and the elements
    stay as they are, in every draft. *)
Definition touch (name : string) : M unit :=
  d <- getData ;;
  match Props.get name d with
  | None => ret tt
  | Some _ => assignField name (withTouched true)
  end.

(** [setFieldRef] *)
Definition setFieldRef (name : string) (el : Element.t) : M unit :=
  d <- getData ;;
  match Props.get name d with
  | None => ret tt
  | Some _ => assignField name (withRef (Some el))
  end.

(** [addError].  The guard [data[name] === undefined] of two of the drafts
    lets a name of [Object.prototype] through where the third holds it back:
    the call is not modelled under such a name. *)
Definition addError (name : string) (error : string) (focus : bool) : M unit :=
  d <- getData ;;
  match Props.get name d with
  | None => if inherited name then halt NotModelled else ret tt
  | Some _ =>
      assignField name (fun f => withErrors (errors f ++ [error]) f) ;;
      field <- fieldOrThrow name ;;
      match ref field with
      | Some el => if focus then emit (Focus (Element.id el)) else ret tt
      | None => ret tt
      end
  end.

(** [setField], as the drafts that assign the value inside [produce] have
    it. *)
Definition setField (name : string) (v : Value) (updateElementValue : bool)
  : M unit :=
  d <- getData ;;
  match Props.get name d with
  | None => ret tt
  | Some _ =>
      assignField name (fun f => withTouched true (withValue v f)) ;;
      if updateElementValue then
        field <- fieldOrThrow name ;;
        match ref field with
        | Some el => emit (WriteValue (Element.id el) v)
        | None => ret tt
        end
      else ret tt
  end.

(** [removeField], as the drafts that delete the record inside [produce]
    have it. *)
Definition removeField (name : string) : M unit :=
  d <- getData ;; setData (Props.delete name d).

(** [clearErrors]: the guard of the first branch lets the empty string
    through as it does a missing name. *)
Fixpoint clearErrorsOf (names : list string) : M unit :=
  match names with
  | [] => ret tt
  | key :: rest => assignField key (withErrors []) ;; clearErrorsOf rest
  end.

Definition clearErrors (name : NameArg) : M unit :=
  match name with
  | Many ((_ :: _) as names) => clearErrorsOf names
  | One s =>
      if s =? "" then d <- getData ;; clearErrorsOf (Props.keys d)
      else assignField s (withErrors [])
  | NoName | Many [] => d <- getData ;; clearErrorsOf (Props.keys d)
  end.

(* ================================================================== *)
(** * The validation pipeline *)

(** The loop over the validators of [validate].  Nothing else runs between
    its steps: every promise is taken to resolve before any other task
    touches the store. *)
Fixpoint runValidators (name : string) (vs : list FieldValidator)
         (errs : list string) : M (list string) :=
  match vs with
  | [] => ret errs
  | validator :: rest =>
      field <- fieldOrThrow name ;;
      vals <- values ;;
      match validator (value field) vals with
      | None => runValidators name rest errs
      | Some error => runValidators name rest (errs ++ [error])
      end
  end.

(** [data[name].ref?.focus()] *)
Definition focusRef (name : string) : M unit :=
  field <- fieldOrThrow name ;;
  match ref field with
  | Some el => emit (Focus (Element.id el))
  | None => ret tt
  end.

(** What [validate] does with a single name once the validators are done. *)
Definition finishValidation (name : string) (focusOnError : bool)
           (errs : list string) : M bool :=
  (if (0 <? length errs)%nat && focusOnError then focusRef name else ret tt) ;;
  assignField name (withErrors errs) ;;
  ret (length errs =? 0)%nat.

(** The inner function [multiple] of [validate]; [validateOne key] stands
    for its call [validate(key, false)]. *)
Fixpoint multipleLoop (validateOne : string -> M bool) (focusOnError : bool)
         (names : list string) (isValid alreadyFocusField : bool) : M bool :=
  match names with
  | [] => ret isValid
  | key :: rest =>
      result <- validateOne key ;;
      if negb result && isValid then
        if negb alreadyFocusField then
          field <- fieldOrThrow key ;;
          match ref field with
          | Some el =>
              if focusOnError then
                emit (Focus (Element.id el)) ;;
                multipleLoop validateOne focusOnError rest false true
              else multipleLoop validateOne focusOnError rest false alreadyFocusField
          | None => multipleLoop validateOne focusOnError rest false alreadyFocusField
          end
        else multipleLoop validateOne focusOnError rest false alreadyFocusField
      else multipleLoop validateOne focusOnError rest isValid alreadyFocusField
  end.

Definition multiple (validateOne : string -> M bool) (names : list string)
           (focusOnError : bool) : M bool :=
  multipleLoop validateOne focusOnError names true false.

(** [validate(name, focusOnError)].  It and [multiple] call each other
    without bound, so the model takes a budget of nested calls.  The guard
    of the single name is [data[name] == undefined] in two of the drafts and
    [hasOwnProperty] in the third: they part under a name of
    [Object.prototype] that is not registered, where the call is not
    modelled. *)
Fixpoint validate (fuel : nat) (name : NameArg) (focusOnError : bool)
         {struct fuel} : M bool :=
  match fuel with
  | O => halt OutOfFuel
  | S fuel' =>
      let multiple := multiple (fun key => validate fuel' (One key) false) in
      if nameIsEmpty name then
        d <- getData ;; multiple (Props.keys d) focusOnError
      else
        match name with
        | Many names => multiple names focusOnError
        | One name =>
            d <- getData ;;
            match Props.get name d with
            | None => if inherited name then halt NotModelled else ret false
            | Some field =>
                errs <- runValidators name (validators field) [] ;;
                finishValidation name focusOnError errs
            end
        | NoName => ret false
        end
  end.

(** The same single-name run when other tasks get to run while a validator
    is awaited: [others] lists what happens to the store during the first,
    the second, ... suspension. *)
Fixpoint runValidatorsAmid (others : list (World -> World)) (name : string)
         (vs : list FieldValidator) (errs : list string) : M (list string) :=
  match vs with
  | [] => ret errs
  | validator :: rest =>
      field <- fieldOrThrow name ;;
      vals <- values ;;
      let answer := validator (value field) vals in
      (fun w => Ok (tt, hd (fun w => w) others w)) ;;
      match answer with
      | None => runValidatorsAmid (tl others) name rest errs
      | Some error => runValidatorsAmid (tl others) name rest (errs ++ [error])
      end
  end.

Definition validateAmid (others : list (World -> World)) (name : string)
           (focusOnError : bool) : M bool :=
  d <- getData ;;
  match Props.get name d with
  | None => if inherited name then halt NotModelled else ret false
  | Some field =>
      errs <- runValidatorsAmid others name (validators field) [] ;;
      finishValidation name focusOnError errs
  end.

(** What a task of its own leaves in the store. *)
Definition after (m : M unit) (w : World) : World :=
  match m w with
  | Ok (_, w') => w'
  | Stop _ => w
  end.

(* ================================================================== *)
(** * Registration *)

Definition newField (name : string) (el : option Element.t) (v : Value)
           (vs : list FieldValidator) : Field :=
  {| path := analyzeNamePath name; ref := el; value := v; touched := false;
     errors := []; validators := vs |}.

(** The memos run anew once a registration has changed the store. *)
Definition memos : M unit :=
  d <- getData ;; lift (memosRun d).

(** [addField] of the two later drafts: the value of a record that is
    already there is kept and pushed onto the element.  The test is
    [typeof data[name] != "undefined"], which a name of [Object.prototype]
    passes without a record: the call is not modelled under such a name. *)
Definition addField (name : string) (vs : list FieldValidator)
           (defaultValue : Value) (element : option Element.t) : M unit :=
  d <- getData ;;
  match Props.get name d with
  | Some old =>
      match element with
      | Some el => emit (WriteValue (Element.id el) (value old))
      | None => ret tt
      end ;;
      setData (Props.set name (newField name element (value old) vs) d) ;;
      memos
  | None =>
      if inherited name then halt NotModelled
      else
        setData (Props.set name (newField name element defaultValue vs) d) ;;
        memos
  end.

(** The draft of [src/index.tsx], whose form is created over
    [initialValues]. *)
Module Index.
Section CreateForm.
Variable initialValues : option (list (string * Value)).

(** [initialValues?.[name]], [undefined] when there is none.  What
    [initialValues] inherits under a name of [Object.prototype] is not
    modelled. *)
Definition initialValue (name : string) : result Value :=
  match initialValues with
  | Some o =>
      match Props.get name o with
      | Some v => Ok v
      | None => if inherited name then Stop NotModelled else Ok VUndefined
      end
  | None => Ok VUndefined
  end.

Definition isUndefined (v : Value) : bool :=
  match v with VUndefined => true | _ => false end.

(** [element?.value ?? defaultValue], then the checkbox rule. *)
Definition elementValue (defaultValue : Value) (element : option Element.t)
  : Value :=
  match element with
  | Some el =>
      if Element.type el =? "checkbox" then VBool (Element.checked el)
      else VStr (Element.value el)
  | None => defaultValue
  end.

Definition addField (name : string) (vs : list FieldValidator)
           (defaultValue : Value) (element : option Element.t) : M unit :=
  initial <- lift (initialValue name) ;;
  v <- (if isUndefined initial then
          ret (elementValue defaultValue element)
        else
          match element with
          | Some el => emit (WriteValue (Element.id el) initial)
          | None => ret tt
          end ;;
          ret initial) ;;
  d <- getData ;;
  setData (Props.set name (newField name element v vs) d) ;;
  memos.

End CreateForm.
End Index.

(* ================================================================== *)
(** * Dirtiness *)

(** The draft that compares each field with the snapshot made by
    [setInitialValues].  [stableHash] is the function of the [stable-hash]
    package, which is not part of the repository: it is a parameter here. *)
Module Snapshot.
Section CreateForm.
Variable stableHash : Value -> string.

(** [isFieldDirty(name)] over the store and [initialData]. *)
Definition isFieldDirty (d : Data) (initialData : list (string * Value))
           (name : string) : bool :=
  match Props.get name d with
  | None => false
  | Some field =>
      match Props.get name initialData with
      | None => negb (looseEqEmptyString (value field))
      | Some initial => negb (stableHash initial =? stableHash (value field))
      end
  end.

(** The memo [dirty]: one entry per key of the store. *)
Definition dirty (d : Data) (initialData : list (string * Value))
  : list (string * bool) :=
  fold_left (fun dirtyFields key =>
               Props.set key (isFieldDirty d initialData key) dirtyFields)
            (Props.keys d) [].

(** The memo [isDirty]: some entry of [dirty()] is true. *)
Definition isDirty (d : Data) (initialData : list (string * Value)) : bool :=
  existsb (fun entry => snd entry) (dirty d initialData).

End CreateForm.
End Snapshot.

(** The draft that compares the store with the whole snapshot.  Its
    comparison [a != b] of a value with an entry of the snapshot is a
    parameter: it converts strings to numbers. *)
Module Legacy.
Section CreateForm.
Variable looseNotEqual : Value -> Value -> bool.

(** [setValuesFromObject(object, path, previousData)]: the entries of the
    nested [object], keyed by their dotted paths.  [for (const key in
    object)] goes through the elements of an array, the holes left out,
    before the other properties. *)
Fixpoint setValuesFromObject (object : Value) (path : string)
         (previousData : list (string * Value)) {struct object}
  : list (string * Value) :=
  let goProps :=
    fix goProps (l : list (string * Value)) (acc : list (string * Value))
      : list (string * Value) :=
      match l with
      | [] => acc
      | (key, v) :: r =>
          goProps r
            match v with
            | VUndefined | VNull => acc
            | VArr _ _ | VObj _ => setValuesFromObject v (path ++ key ++ ".") acc
            | _ => Props.set (path ++ key) v acc
            end
      end in
  match object with
  | VObj props => goProps props previousData
  | VArr elems named =>
      goProps named
        ((fix goElems (l : list (option Value)) (i : nat)
              (acc : list (string * Value)) : list (string * Value) :=
            match l with
            | [] => acc
            | None :: r => goElems r (S i) acc
            | Some v :: r =>
                let key := NilEmpty.string_of_uint (Nat.to_uint i) in
                goElems r (S i)
                  match v with
                  | VUndefined | VNull => acc
                  | VArr _ _ | VObj _ =>
                      setValuesFromObject v (path ++ key ++ ".") acc
                  | _ => Props.set (path ++ key) v acc
                  end
            end) elems 0 previousData)
  | _ => previousData
  end.

(** The loop over [comparableData]. *)
Fixpoint differsFromSnapshot (d : Data) (comparableData : list (string * Value))
  : bool :=
  match comparableData with
  | [] => false
  | (key, initial) :: rest =>
      match Props.get key d with
      | None => true
      | Some field =>
          if looseNotEqual (value field) initial then true
          else differsFromSnapshot d rest
      end
  end.

(** The loop over [data], taken when the snapshot is empty. *)
Fixpoint someValueNotEmpty (d : Data) : bool :=
  match d with
  | [] => false
  | (_, field) :: rest =>
      if negb (looseEqEmptyString (value field)) then true
      else someValueNotEmpty rest
  end.

(** [isFormDirty()] over the store and [initialData]. *)
Definition isFormDirty (d : Data) (initialData : Value) : bool :=
  let comparableData := setValuesFromObject initialData "" [] in
  if (0 <? length (Props.keys comparableData))%nat
  then differsFromSnapshot d comparableData
  else someValueNotEmpty d.

End CreateForm.
End Legacy.

(* ================================================================== *)
(** * Controllers, registered inputs and submission *)

(** A call whose promise nobody awaits, as [change] makes of [validate].
    It is run to its end before the caller goes on (see [runValidators]).
    A rejection reaches no caller: the host is told of it and the writes
    made before it stay, which the model does not follow. *)
Definition unawaited {A} (m : M A) : M unit :=
  fun w => match m w with
           | Ok (_, w') => Ok (tt, w')
           | Stop (Thrown _) => Stop NotModelled
           | Stop h => Stop h
           end.

(** [createController(name, control, validators, defaultValue)]: what it
    returns, over the store of the form behind [control]. *)
Module Controller.
Section CreateController.
Variable name : string.

(** [change(newValue, validateOnChange, updateRefValue)]; the draft of
    [src/index.tsx] has no third argument and always updates the element. *)
Definition change (fuel : nat) (newValue : Value)
           (validateOnChange updateRefValue : bool) : M unit :=
  setField name newValue updateRefValue ;;
  if validateOnChange then unawaited (validate fuel (One name) false)
  else ret tt.

Definition focus : M unit := touch name.


Definition trigger (fuel : nat) : M unit :=
  unawaited (validate fuel (One name) false).

Definition clearErrorsLocal : M unit := clearErrors (One name).

Definition addErrorLocal (error : string) (focus : bool) : M unit :=
  addError name error focus.

(** The registration made by [onMount]. *)
Definition mount (vs : list FieldValidator) (defaultValue : Value) : M unit :=
  addField name vs defaultValue None.

(** The memos [errors], [touched], [invalid] and [value]:
    [data[name]?.errors ?? []] and the like. *)
Definition errors (d : Data) : list string :=
  match Props.get name d with
  | Some field => errors field
  | None => []
  end.

Definition touched (d : Data) : bool :=
  match Props.get name d with
  | Some field => touched field
  | None => false
  end.

Definition invalid (d : Data) : bool := (0 <? length (errors d))%nat.

Definition value (d : Data) : Value :=
  match Props.get name d with
  | Some field =>
      match value field with
      | VUndefined | VNull => VStr ""
      | v => v
      end
  | None => VStr ""
  end.

Definition ref (el : Element.t) : M unit := setFieldRef name el.

End CreateController.
End Controller.

(** [createArrayController(name, control, validators)].  An index is the
    position of an item, a natural number. *)
Module ArrayController.

(** [[...v]]: what the iterator of [v] yields; a hole comes out as
    [undefined], and what is no array and no string has no iterator. *)
Definition spread (v : Value) : result (list Value) :=
  match v with
  | VArr elems _ =>
      Ok (map (fun e => match e with Some x => x | None => VUndefined end) elems)
  | VStr s => Ok (map (fun c => VStr (String c "")) (list_ascii_of_string s))
  | _ => Stop (Thrown TypeError)
  end.

(** The elements on which [v.filter], [v.map] or [v.concat] works.  The
    method is found through [v]: only an array has it, and an own property
    of that name, which is data, is called in its place and throws. *)
Definition arrayMethod (method : string) (v : Value)
  : result (list (option Value)) :=
  match v with
  | VArr elems named =>
      if Props.has method named then Stop (Thrown TypeError) else Ok elems
  | _ => Stop (Thrown TypeError)
  end.

(** [elems.filter((_, i) => i != index)], from position [i] on: [filter]
    passes over the holes and returns an array without any. *)
Fixpoint filterNot (index i : nat) (elems : list (option Value))
  : list (option Value) :=
  match elems with
  | [] => []
  | None :: rest => filterNot index (S i) rest
  | Some item :: rest =>
      if (i =? index)%nat then filterNot index (S i) rest
      else Some item :: filterNot index (S i) rest
  end.

(** [elems.map((item, i) => i == index ? newItem : item)], from position
    [i] on: [map] leaves the holes where they are. *)
Fixpoint mapAt (index : nat) (newItem : Value) (i : nat)
         (elems : list (option Value)) : list (option Value) :=
  match elems with
  | [] => []
  | None :: rest => None :: mapAt index newItem (S i) rest
  | Some item :: rest =>
      Some (if (i =? index)%nat then newItem else item)
      :: mapAt index newItem (S i) rest
  end.

(** [elems[i]] *)
Definition elementAt (elems : list (option Value)) (i : nat) : Value :=
  match nth_error elems i with
  | Some (Some item) => item
  | _ => VUndefined
  end.

(** A number that is an array index; a greater one names a property of the
    array, which the model of [swap] does not follow. *)
Definition isIndex (i : nat) : bool := (N.of_nat i <? 2 ^ 32 - 1)%N.

(** The array [swap] hands to [change]: a copy made by [concat], in which
    the two elements are written from the array as it was. *)
Definition swapItems (a b : nat) (elems : list (option Value))
  : result Value :=
  if isIndex a && isIndex b then
    let newArray := setNth a (Some (elementAt elems b)) None elems in
    Ok (VArr (setNth b (Some (elementAt elems a)) None newArray) [])
  else Stop NotModelled.

Section CreateArrayController.
Variable name : string.

(** The memo [items], which is the [value] of the controller. *)
Definition items (d : Data) : Value := Controller.value name d.

Definition add (fuel : nat) (item : Value) : M unit :=
  d <- getData ;;
  l <- lift (spread (items d)) ;;
  Controller.change name fuel (arrayOf (l ++ [item])) true true.

Definition remove (fuel : nat) (index : nat) : M unit :=
  d <- getData ;;
  elems <- lift (arrayMethod "filter" (items d)) ;;
  Controller.change name fuel (VArr (filterNot index 0 elems) []) true true.

Definition set (fuel : nat) (index : nat) (newItem : Value) : M unit :=
  d <- getData ;;
  elems <- lift (arrayMethod "map" (items d)) ;;
  Controller.change name fuel (VArr (mapAt index newItem 0 elems) []) true true.

Definition swap (fuel : nat) (a b : nat) : M unit :=
  d <- getData ;;
  elems <- lift (arrayMethod "concat" (items d)) ;;
  newArray <- lift (swapItems a b elems) ;;
  Controller.change name fuel newArray true true.

(** The registration made by [onMount]: the default value is [[]]. *)
Definition mount (vs : list FieldValidator) : M unit :=
  Controller.mount name vs emptyArray.

End CreateArrayController.
End ArrayController.

(** [fieldRegister(name, validators)]: the handlers it returns.  An event
    is the element it comes from. *)
Module FieldRegister.
Section Register.
Variable name : string.
Variable validators : list FieldValidator.

(** [target.type == "checkbox" ? e.target.checked : e.target.value] *)
Definition targetValue (target : Element.t) : Value :=
  if Element.type target =? "checkbox" then VBool (Element.checked target)
  else VStr (Element.value target).

Definition onInput (fuel : nat) (target : Element.t) : M unit :=
  setField name (targetValue target) false ;;
  unawaited (validate fuel (One name) false).

Definition onFocus : M unit := touch name.

Definition onBlur (fuel : nat) : M unit :=
  unawaited (validate fuel (One name) false).

(** [ref(element)]; the removal it hands to [onCleanup] is [removeField]. *)
Definition ref (element : Element.t) : M unit :=
  addField name validators (VStr "") (Some element).

End Register.
End FieldRegister.

(** [handleSubmit(callback)]: the handler returns what it calls [callback]
    with, or nothing when it does not call it.  [event.preventDefault()]
    touches the event only. *)
Definition handleSubmit (fuel : nat) : M (option Value) :=
  ok <- validate fuel NoName true ;;
  if ok then
    d <- getData ;;
    vals <- lift (extractFieldsMember MValue d) ;;
    ret (Some vals)
  else ret None.

(* ================================================================== *)
(** * Values set from an object *)

(** The decimal numeral of an index, as [for (const key in array)] gives
    it. *)
Definition indexKey (i : nat) : string :=
  NilEmpty.string_of_uint (Nat.to_uint i).

(** [for (const key in object)]: the loop goes through the elements of an
    array, the holes left out, before the other properties, and through
    the code units of a string; [visit] is its body. *)
Section ForIn.
Variable St : Type.
Variable visit : string -> Value -> St -> St.

Fixpoint forInProps (l : list (string * Value)) (acc : St) : St :=
  match l with
  | [] => acc
  | (key, v) :: rest => forInProps rest (visit key v acc)
  end.

Fixpoint forInElems (l : list (option Value)) (i : nat) (acc : St) : St :=
  match l with
  | [] => acc
  | None :: rest => forInElems rest (S i) acc
  | Some v :: rest => forInElems rest (S i) (visit (indexKey i) v acc)
  end.

Fixpoint forInUnits (l : list ascii) (i : nat) (acc : St) : St :=
  match l with
  | [] => acc
  | c :: rest =>
      forInUnits rest (S i) (visit (indexKey i) (VStr (String c "")) acc)
  end.

End ForIn.

Section KeyValue.
Variable St : Type.
Variable setKey : string -> Value -> St -> St.

(** [createKeyValueFromObject(object, setKey, path)] of the last draft:
    [setKey] is called on every entry of the nested [object] that is
    neither [null] nor [undefined] nor an object, under its dotted path.
    What [setKey] does is passed along as a state. *)
Fixpoint createKeyValueFromObject (object : Value) (path : string) (s : St)
         {struct object} : St :=
  let visit := fun (key : string) (v : Value) (acc : St) =>
    match v with
    | VUndefined | VNull => acc
    | VArr _ _ | VObj _ => createKeyValueFromObject v (path ++ key ++ ".") acc
    | _ => setKey (path ++ key) v acc
    end in
  match object with
  | VObj props => forInProps visit props s
  | VArr elems named => forInProps visit named (forInElems visit elems 0 s)
  | VStr str =>
      forInUnits (fun key unit acc => setKey (path ++ key) unit acc)
                 (list_ascii_of_string str) 0 s
  | _ => s
  end.

End KeyValue.

(** The last draft's [setValues], [setInitialValues] and [reset], over the
    store and the snapshot [initialData]. *)
Module Seed.
Section CreateForm.
Variable stableHash : Value -> string.

(** The callback of [setValues]: the value of a record that is there is
    replaced (it is never an object here), another record is created with
    no element, no validator and no error. *)
Definition setValue (name : string) (v : Value) (d : Data) : Data :=
  match Props.get name d with
  | Some field => Props.replace name (withValue v field) d
  | None => Props.set name (newField name None v []) d
  end.

Definition setValues (values : Value) (d : Data) : Data :=
  createKeyValueFromObject setValue values "" d.


(** [setData(key, "value", initialData[key])] for every key of the
    snapshot.  Solid's path setter is followed where it replaces the value
    of a record that is there; where the record is missing, or an object
    is merged into an object, it is not. *)
Fixpoint restore (initialData : list (string * Value)) (keys : list string)
  : M unit :=
  match keys with
  | [] => ret tt
  | key :: rest =>
      d <- getData ;;
      match Props.get key d, Props.get key initialData with
      | Some field, Some initial =>
          match initial, value field with
          | VObj _, (VObj _ | VArr _ _) => halt NotModelled
          | _, _ =>
              setData (Props.replace key (withValue initial field) d) ;;
              restore initialData rest
          end
      | _, _ => halt NotModelled
      end
  end.

(** [setData(key, "value", "")] for every key of the store. *)
Fixpoint emptyValues (keys : list string) : M unit :=
  match keys with
  | [] => ret tt
  | key :: rest => assignField key (withValue (VStr "")) ;; emptyValues rest
  end.

Definition reset (fuel : nat) (initialData : list (string * Value)) : M unit :=
  if (0 <? length (Props.keys initialData))%nat then
    restore initialData (Props.keys initialData) ;;
    unawaited (validate fuel NoName false)
  else
    d <- getData ;;
    emptyValues (Props.keys d) ;;
    clearErrors NoName.

End CreateForm.
End Seed.

(* ================================================================== *)
(** * What the theorems speak of *)

Ltac run_step :=
  unfold bind, ret, getData, setData, emit, halt, lift; simpl.

(** The messages the validators return, in the order of the list. *)
Definition messages (vs : list FieldValidator) (v vals : Value) : list string :=
  flat_map (fun validator : FieldValidator =>
              match validator v vals with
              | Some error => [error]
              | None => []
              end) vs.

Definition noneOf (errs : list string) : bool :=
  match errs with [] => true | _ => false end.

(** The focus request of a failed validation. *)
Definition focusOf (field : Field) : list Effect :=
  match ref field with
  | Some el => [Focus (Element.id el)]
  | None => []
  end.

(** A run that no budget of nested calls lets return. *)
Definition neverReturns {A} (run : nat -> M A) (w : World) : Prop :=
  forall fuel, run fuel w = Stop OutOfFuel.

(** The names a batch call validates: every key of the store when the
    argument is missing or empty, the list itself otherwise. *)
Definition batchOf (d : Data) (name : NameArg) : option (list string) :=
  if nameIsEmpty name then Some (Props.keys d)
  else match name with
       | Many names => Some names
       | _ => None
       end.

(** The field passes: its validators return no message. *)
Definition passes (d : Data) (vals : Value) (key : string) : bool :=
  match Props.get key d with
  | Some field => noneOf (messages (validators field) (value field) vals)
  | None => false
  end.

(** The store after the validation of one field. *)
Definition validated (vals : Value) (d : Data) (key : string) : Data :=
  match Props.get key d with
  | Some field =>
      Props.replace key
        (withErrors (messages (validators field) (value field) vals) field) d
  | None => d
  end.

Definition firstFailing (d : Data) (vals : Value) (names : list string)
  : option string :=
  find (fun key => negb (passes d vals key)) names.

(** The focus request of a batch: for the first failing field, if an
    element is bound to it. *)
Definition batchFocus (d : Data) (vals : Value) (names : list string)
           (focusOnError : bool) : list Effect :=
  match firstFailing d vals names with
  | Some key =>
      match Props.get key d with
      | Some field => if focusOnError then focusOf field else []
      | None => []
      end
  | None => []
  end.

(** The name is not the empty string and is registered. *)
Definition known (d : Data) (key : string) : bool :=
  negb (key =? "") && Props.has key d.

Arguments validate : simpl never.

(** The memos of a store run to their end. *)
Definition projects (d : Data) : Prop := memosRun d = Ok tt.

(** The value the later drafts register: the one the record of the name
    had, the default for a name that is new. *)
Definition kept (d : Data) (name : string) (defaultValue : Value) : Value :=
  match Props.get name d with
  | Some old => value old
  | None => defaultValue
  end.

(** What a registration writes to the element it is passed: the value the
    record of the name had. *)
Definition pushed (old : option Field) (element : option Element.t)
  : list Effect :=
  match old, element with
  | Some f, Some el => [WriteValue (Element.id el) (value f)]
  | _, _ => []
  end.

(** [initialValues] holds nothing for the name. *)
Definition unseeded (initialValues : option (list (string * Value)))
           (name : string) : Prop :=
  match initialValues with
  | None => True
  | Some o =>
      Props.get name o = Some VUndefined
      \/ (Props.get name o = None /\ inherited name = false)
  end.

(** The value [src/index.tsx] registers, rule by rule: the initial value of
    the name when there is one; else the state of a checkbox, or the text
    of another element; else the default. *)
Inductive resolved (initialValues : option (list (string * Value)))
          (name : string) (defaultValue : Value)
  : option Element.t -> Value -> Prop :=
| FromInitial o v element :
    initialValues = Some o -> Props.get name o = Some v -> v <> VUndefined ->
    resolved initialValues name defaultValue element v
| FromCheckbox el :
    unseeded initialValues name -> Element.type el = "checkbox" ->
    resolved initialValues name defaultValue (Some el)
             (VBool (Element.checked el))
| FromElement el :
    unseeded initialValues name -> Element.type el <> "checkbox" ->
    resolved initialValues name defaultValue (Some el)
             (VStr (Element.value el))
| FromDefault :
    unseeded initialValues name ->
    resolved initialValues name defaultValue None defaultValue.

(** The member of a field that the walk along [path] from [o] comes to
    while a piece of the path is still to go, if it comes to one. *)
Fixpoint metMember (o : Tree.t) (path : list NamePathPart.t) : option Value :=
  match path with
  | [] => None
  | part :: rest =>
      match o with
      | Tree.Member v => Some v
      | _ =>
          match Tree.own o (NamePathPart.value part) with
          | Some c => metMember c rest
          | None => None
          end
      end
  end.

(** What the walk has made itself. *)
Definition madeArray (o : Tree.t) : bool :=
  match o with Tree.Arr _ _ => true | _ => false end.

Definition madeObject (o : Tree.t) : bool :=
  match o with Tree.Obj _ => true | _ => false end.

Definition isObject (v : Value) : bool :=
  match v with VObj _ => true | _ => false end.

(** The part of a path that [analyzeNamePath] makes of a piece of a name. *)
Definition partOf (s : string) : NamePathPart.t :=
  {| NamePathPart.value := s;
     NamePathPart.arrayIndex := negb (isNaN_Number s) |}.

(* ================================================================== *)
(** * Sample stores *)

(** A store in which the user has typed into the field ["n"], leaving an
    error behind. *)
Definition typedField : Field :=
  {| path := analyzeNamePath "n"; ref := None; value := VStr "typed";
     touched := true; errors := ["too short"]; validators := [] |}.

Definition typedStore : World :=
  {| data := [("n", typedField)]; effects := [] |}.

Definition emptyStore : World := {| data := []; effects := [] |}.

(** The form of P7: one field with a [required] validator and a value that
    passes it. *)
Definition emailForm : M unit :=
  addField "email" [required "Required"] (VStr "a@x.com") None.

(** The field of P3: two validators that always fail. *)
Definition alwaysA : FieldValidator := fun _ _ => Some "A".
Definition alwaysB : FieldValidator := fun _ _ => Some "B".

Definition fieldAB : Field := newField "n" None (VStr "") [alwaysA; alwaysB].

Definition storeAB : World := {| data := [("n", fieldAB)]; effects := [] |}.

(** A store whose one field is registered under the empty name. *)
Definition emptyNameStore : World :=
  {| data := [("", newField "" None (VStr "") [alwaysA])]; effects := [] |}.

(** A store with one field that has an error and no validator. *)
Definition fieldWithError : Field :=
  {| path := analyzeNamePath "x"; ref := None; value := VStr "v";
     touched := true; errors := ["taken"]; validators := [] |}.

Definition storeWithError : World :=
  {| data := [("x", fieldWithError)]; effects := [] |}.

Definition fieldX : Field := newField "x" None (VStr "v") [alwaysA].

Definition storeX : World := {| data := [("x", fieldX)]; effects := [] |}.

(** The form of P4: two failing fields, each with an element bound. *)
Definition inputX : Element.t := Element.Build_t 1 "text" "" false.
Definition inputY : Element.t := Element.Build_t 2 "text" "" false.

Definition storeXY : World :=
  {| data := [("x", newField "x" (Some inputX) (VStr "") [alwaysA]);
              ("y", newField "y" (Some inputY) (VStr "") [alwaysB])];
     effects := [] |}.

(** The stores of P5, and a store in which one name runs through another. *)
Definition dataAB : Data :=
  [("a.b", newField "a.b" None (VNum 1) []);
   ("a.c", newField "a.c" None (VNum 2) [])].

Definition dataItems : Data :=
  [("items.0", newField "items.0" None (VStr "x") []);
   ("items.1", newField "items.1" None (VStr "y") [])].

Definition dataNested : Data :=
  [("a", newField "a" None (VNum 1) []);
   ("a.b", newField "a.b" None (VNum 2) [])].

(** A store in which a name runs through a field that holds an array. *)
Definition dataTags : Data :=
  [("tags", newField "tags" None (arrayOf [VStr "a"; VStr "b"]) []);
   ("tags.0", newField "tags.0" None (VStr "z") [])].

(** A stand-in for [stableHash] in the examples: it tells strings apart,
    as the package does. *)
Definition sampleHash (v : Value) : string :=
  match v with VStr s => s | _ => "" end.

(** The stores of P6, and an unticked checkbox outside the snapshot. *)
Definition emailSnapshot : list (string * Value) := [("email", VStr "a@x.com")].

Definition dataEmail (v : Value) : Data := [("email", newField "email" None v [])].

Definition dataCheckbox : Data :=
  [("agree", newField "agree" None (VBool false) [])].

Definition dataEmailAndName : Data :=
  [("email", newField "email" None (VStr "a@x.com") []);
   ("name", newField "name" None (VStr "Ada") [])].

(* ================================================================== *)
(** * What the further theorems speak of *)

(** The number of dots in a name. *)
Fixpoint dots (s : string) : nat :=
  match s with
  | EmptyString => 0
  | String c r => if Ascii.eqb c "."%char then S (dots r) else dots r
  end.

(** The code units ["0"] to ["9"]. *)
Definition isDecimalDigit (c : ascii) : bool :=
  ((48 <=? code c) && (code c <=? 57))%N.

(** A code unit with which no numeric literal begins: neither white space
    nor a digit, a sign, the dot or the [I] of [Infinity]. *)
Definition leadsNoNumber (c : ascii) : bool :=
  negb (isStrWhiteSpaceChar c || isDecimalDigit c
        || Ascii.eqb c "+" || Ascii.eqb c "-" || Ascii.eqb c "."
        || Ascii.eqb c "I").

(** A name without a dot that is neither [__proto__] nor
    [hasOwnProperty]. *)
Definition flatName (k : string) : bool :=
  (dots k =? 0)%nat && negb (k =? "__proto__") && negb (k =? "hasOwnProperty").

(** The member of a record that may be missing. *)
Definition memberOf (memberKey : MemberKey) (field : option Field)
  : option Value :=
  match field with
  | Some f => Some (member memberKey f)
  | None => None
  end.

(** The write of a value to the element bound to a field. *)
Definition writeOf (field : Field) (v : Value) : list Effect :=
  match ref field with
  | Some el => [WriteValue (Element.id el) v]
  | None => []
  end.

(** The store after the record of [key], if there is one, is changed by
    [F]. *)
Definition updated (F : Field -> Field) (d : Data) (key : string) : Data :=
  match Props.get key d with
  | Some field => Props.replace key (F field) d
  | None => d
  end.

(** The name is in the list. *)
Definition isIn (k : string) (names : list string) : bool :=
  existsb (String.eqb k) names.

(** The record of a field after its validation. *)
Definition revalidate (vals : Value) (field : Field) : Field :=
  withErrors (messages (validators field) (value field) vals) field.

(** [v ?? ""] *)
Definition orEmptyString (v : Value) : Value :=
  match v with
  | VUndefined | VNull => VStr ""
  | _ => v
  end.

(** The array that [remove(index)] leaves of the items [l], and the one
    that [set(index, newItem)] leaves. *)
Definition without (index : nat) (l : list Value) : list Value :=
  firstn index l ++ skipn (S index) l.

Definition withItem (index : nat) (newItem : Value) (l : list Value) : list Value :=
  if (index <? length l)%nat
  then firstn index l ++ newItem :: skipn (S index) l
  else l.

(** The items that [[...array]] yields: a hole reads [undefined]. *)
Definition dense (elems : list (option Value)) : list Value :=
  map (fun e => match e with Some x => x | None => VUndefined end) elems.

(** The elements [swap(a, b)] leaves of the items [l] when [a] lies past
    the end and [y] was at [b]. *)
Definition grown (a b : nat) (y : Value) (l : list Value) : list (option Value) :=
  setNth b (Some VUndefined) None (setNth a (Some y) None (map Some l)).





(** The table of the entries of a nested object, keyed by their dotted
    paths: what [setInitialValues] makes of an empty snapshot. *)
Definition flatten (values : Value) : list (string * Value) :=
  createKeyValueFromObject (fun name v table => Props.set name v table) values "" [].




(** The store after the value of one key of the snapshot, and of all its
    keys, is brought back. *)
Definition restoreOne (initialData : list (string * Value)) (d : Data)
           (key : string) : Data :=
  match Props.get key initialData with
  | Some initial => updated (withValue initial) d key
  | None => d
  end.

Definition restored (initialData : list (string * Value)) (d : Data) : Data :=
  fold_left (restoreOne initialData) (Props.keys initialData) d.

(** The value a record has once the snapshot is brought back. *)
Definition restoredField (initialData : list (string * Value)) (key : string)
           (field : Field) : Field :=
  match Props.get key initialData with
  | Some initial => withValue initial field
  | None => field
  end.

(* ================================================================== *)
(** * Further sample stores *)

(** A form with one array field, the tags [a], [b] and [c]. *)
Definition fieldTags : Field :=
  newField "tags" None (arrayOf [VStr "a"; VStr "b"; VStr "c"])
           [required "Required"].

Definition storeTags : World :=
  {| data := [("tags", fieldTags)]; effects := [] |}.

(** A nested object, and a store that has one of its names. *)
Definition profile : Value :=
  VObj [("user", VObj [("name", VStr "Ada");
                       ("tags", arrayOf [VStr "x"; VNull; VStr "z"])]);
        ("age", VNum 36); ("gone", VUndefined)].

Definition dataAge : Data :=
  [("age", {| path := analyzeNamePath "age"; ref := Some inputX; value := VNum 1;
              touched := true; errors := ["too young"];
              validators := [required "Required"] |})].

(* ================================================================== *)
(** * Checks of the string functions *)

Example StringToNumber_samples :
  map StringToNumber
      ["0"; "1"; "12"; ""; " "; "a"; "b"; "items"; "1.5"; "-1"; "1e3"; "0x10";
       "0x"; "."; "1."; ".0"; "Infinity"; "-Infinity"; "1 2"; "+"; "1e"; "0e7";
       "length"; "1e-400"; "-0x1"; "00"]
  = [IsZero; IsNonZero; IsNonZero; IsZero; IsZero; IsNaN; IsNaN; IsNaN;
     IsNonZero; IsNonZero; IsNonZero; IsNonZero;
     IsNaN; IsNaN; IsNonZero; IsZero; IsNonZero; IsNonZero; IsNaN; IsNaN; IsNaN;
     IsZero; IsNaN; IsZero; IsNaN; IsZero].
Proof. vm_compute. reflexivity. Qed.

Example split_dot_samples :
  map split_dot ["a.b"; "items.0"; "x"; ""; "a."; "a..b"]
  = [["a"; "b"]; ["items"; "0"]; ["x"]; [""]; ["a"; ""]; ["a"; ""; "b"]].
Proof. reflexivity. Qed.

Example asArrayIndex_samples :
  map asArrayIndex ["0"; "7"; "10"; "01"; ""; "-1"; "1.5"; "4294967294"; "4294967295"]
  = [Some 0%N; Some 7%N; Some 10%N; None; None; None; None; Some 4294967294%N; None].
Proof. vm_compute. reflexivity. Qed.

(* ================================================================== *)
(** * Facts about property tables *)

Module PropsFacts.
Section Table.
Variable V : Type.
Implicit Types (k : string) (v : V) (l : list (string * V)).

Lemma get_replace_same k v l :
  Props.get k (Props.replace k v l)
  = match Props.get k l with Some _ => Some v | None => None end.
Proof.
  induction l as [|[k' v'] r IH]; simpl; [reflexivity|].
  destruct (k' =? k) eqn:E; simpl; rewrite E; [reflexivity | exact IH].
Qed.

Lemma get_replace_other k k' v l :
  k <> k' -> Props.get k' (Props.replace k v l) = Props.get k' l.
Proof.
  intros Hne. induction l as [|[k0 v0] r IH]; simpl; [reflexivity|].
  destruct (k0 =? k) eqn:E; simpl.
  - apply String.eqb_eq in E. subst k0.
    destruct (k =? k') eqn:E'; [apply String.eqb_eq in E'; contradiction | reflexivity].
  - destruct (k0 =? k'); [reflexivity | exact IH].
Qed.

Lemma keys_replace k v l : Props.keys (Props.replace k v l) = Props.keys l.
Proof.
  induction l as [|[k' v'] r IH]; simpl; [reflexivity|].
  destruct (k' =? k); simpl; [reflexivity | f_equal; exact IH].
Qed.

Lemma get_app_last k v l :
  Props.get k l = None -> Props.get k (l ++ [(k, v)]) = Some v.
Proof.
  induction l as [|[k' v'] r IH]; simpl; intros H.
  - now rewrite String.eqb_refl.
  - destruct (k' =? k); [discriminate | auto].
Qed.

Lemma get_app_other k k' v l :
  k <> k' -> Props.get k' (l ++ [(k, v)]) = Props.get k' l.
Proof.
  intros Hne. induction l as [|[k0 v0] r IH]; simpl.
  - destruct (k =? k') eqn:E; [apply String.eqb_eq in E; contradiction | reflexivity].
  - destruct (k0 =? k'); [reflexivity | exact IH].
Qed.

Lemma get_insertIndex_same n k v l :
  asArrayIndex k = Some n -> Props.get k (Props.insertIndex n k v l) = Some v.
Proof.
  intros Hk. induction l as [|[k' v'] r IH]; simpl.
  - now rewrite String.eqb_refl.
  - destruct (Props.indexBelow n k') eqn:B; simpl.
    + destruct (k' =? k) eqn:E; [|exact IH].
      apply String.eqb_eq in E. subst k'.
      unfold Props.indexBelow in B. rewrite Hk in B.
      rewrite N.ltb_irrefl in B. discriminate.
    + now rewrite String.eqb_refl.
Qed.

Lemma get_insertIndex_other n k k' v l :
  k <> k' -> Props.get k' (Props.insertIndex n k v l) = Props.get k' l.
Proof.
  intros Hne. induction l as [|[k0 v0] r IH]; simpl.
  - destruct (k =? k') eqn:E; [apply String.eqb_eq in E; contradiction | reflexivity].
  - destruct (Props.indexBelow n k0); simpl.
    + destruct (k0 =? k'); [reflexivity | exact IH].
    + destruct (k =? k') eqn:E; [apply String.eqb_eq in E; contradiction | reflexivity].
Qed.

Lemma get_set_same k v l : Props.get k (Props.set k v l) = Some v.
Proof.
  unfold Props.set, Props.has. destruct (Props.get k l) eqn:G.
  - rewrite get_replace_same, G. reflexivity.
  - destruct (asArrayIndex k) eqn:I.
    + now apply get_insertIndex_same.
    + now apply get_app_last.
Qed.

Lemma get_set_other k k' v l :
  k <> k' -> Props.get k' (Props.set k v l) = Props.get k' l.
Proof.
  intros Hne. unfold Props.set. destruct (Props.has k l).
  - now apply get_replace_other.
  - destruct (asArrayIndex k).
    + now apply get_insertIndex_other.
    + now apply get_app_other.
Qed.

Lemma keys_set_present k v l :
  Props.has k l = true -> Props.keys (Props.set k v l) = Props.keys l.
Proof.
  intros H. unfold Props.set. rewrite H. apply keys_replace.
Qed.

Lemma get_delete_same k l : Props.get k (Props.delete k l) = None.
Proof.
  induction l as [|[k' v'] r IH]; simpl; [reflexivity|].
  destruct (k' =? k) eqn:E; simpl; [exact IH | rewrite E; exact IH].
Qed.

Lemma get_delete_other k k' l :
  k <> k' -> Props.get k' (Props.delete k l) = Props.get k' l.
Proof.
  intros Hne. induction l as [|[k0 v0] r IH]; simpl; [reflexivity|].
  destruct (k0 =? k) eqn:E; simpl.
  - apply String.eqb_eq in E. subst k0.
    destruct (k =? k') eqn:E'; [apply String.eqb_eq in E'; contradiction | exact IH].
  - destruct (k0 =? k'); [reflexivity | exact IH].
Qed.

Lemma delete_absent k l : Props.get k l = None -> Props.delete k l = l.
Proof.
  induction l as [|[k' v'] r IH]; simpl; intros H; [reflexivity|].
  destruct (k' =? k); [discriminate | f_equal; auto].
Qed.

Lemma get_in_keys k l : In k (Props.keys l) <-> Props.get k l <> None.
Proof.
  induction l as [|[k' v'] r IH]; simpl.
  - split; [contradiction | congruence].
  - destruct (k' =? k) eqn:E.
    + apply String.eqb_eq in E. split; [discriminate | auto].
    + apply String.eqb_neq in E. rewrite <- IH. split; [intros [?|?]|]; tauto.
Qed.

Lemma get_in k v l : Props.get k l = Some v -> In (k, v) l.
Proof.
  induction l as [|[k' v'] r IH]; simpl; [discriminate|].
  destruct (k' =? k) eqn:E.
  - apply String.eqb_eq in E. intros [= ->]. subst. now left.
  - right. auto.
Qed.

End Table.
End PropsFacts.

(* ================================================================== *)
(** * Registration: what [addField] keeps and what it resets *)

Lemma memos_run w : projects (data w) -> memos w = Ok (tt, w).
Proof. intros H. unfold memos, bind, getData, lift. now rewrite H. Qed.

Lemma memos_stop w h : memosRun (data w) = Stop h -> memos w = Stop h.
Proof. intros H. unfold memos, bind, getData, lift. now rewrite H. Qed.

Lemma addField_eq w name vs d2 element :
  (Props.get name (data w) = None -> inherited name = false) ->
  addField name vs d2 element w
  = memos {| data := Props.set name
                       (newField name element (kept (data w) name d2) vs) (data w);
             effects := effects w ++ pushed (Props.get name (data w)) element |}.
Proof.
  intros Hname. unfold addField, kept, pushed, bind at 1, getData at 1.
  destruct (Props.get name (data w)) as [old|].
  - destruct element as [el|]; unfold bind, emit, ret, setData; simpl;
      [reflexivity | now rewrite app_nil_r].
  - rewrite (Hname eq_refl). unfold bind, setData. simpl.
    destruct element; now rewrite app_nil_r.
Qed.

Lemma addField_result w name vs d2 element :
  (Props.get name (data w) = None -> inherited name = false) ->
  projects (Props.set name (newField name element (kept (data w) name d2) vs)
                      (data w)) ->
  addField name vs d2 element w
  = Ok (tt, {| data := Props.set name
                         (newField name element (kept (data w) name d2) vs)
                         (data w);
               effects := effects w ++ pushed (Props.get name (data w)) element |}).
Proof.
  intros Hname Hp. rewrite (@addField_eq w name vs d2 element Hname).
  now apply memos_run.
Qed.

Lemma addField_stops w name vs d2 element h :
  (Props.get name (data w) = None -> inherited name = false) ->
  memosRun (Props.set name (newField name element (kept (data w) name d2) vs)
                      (data w)) = Stop h ->
  addField name vs d2 element w = Stop h.
Proof.
  intros Hname Hp. rewrite (@addField_eq w name vs d2 element Hname).
  now apply memos_stop.
Qed.

Lemma initialValue_unseeded iv name :
  unseeded iv name -> Index.initialValue iv name = Ok VUndefined.
Proof.
  unfold unseeded, Index.initialValue. destruct iv as [o|]; [|reflexivity].
  intros [-> | [-> ->]]; reflexivity.
Qed.

Lemma index_addField_result iv w name vs d2 element v :
  resolved iv name d2 element v ->
  projects (Props.set name (newField name element v vs) (data w)) ->
  exists w',
    Index.addField iv name vs d2 element w = Ok (tt, w')
    /\ data w' = Props.set name (newField name element v vs) (data w).
Proof.
  intros Hv Hp. unfold Index.addField.
  assert (Hm : forall e,
             memos {| data := Props.set name (newField name element v vs) (data w);
                      effects := e |}
             = Ok (tt, {| data := Props.set name (newField name element v vs) (data w);
                          effects := e |}))
    by (intros e; now apply memos_run).
  destruct Hv as [o v element Hiv Hget Hdef | el Hun Hty | el Hun Hty | Hun].
  - unfold bind at 1, lift, Index.initialValue. rewrite Hiv, Hget.
    replace (Index.isUndefined v) with false by (now destruct v).
    destruct element as [el|]; unfold bind, emit, ret, getData, setData; simpl;
      rewrite Hm; eauto.
  - unfold bind at 1, lift. rewrite (@initialValue_unseeded iv name Hun).
    unfold Index.isUndefined, Index.elementValue, bind, ret, getData, setData.
    simpl. apply String.eqb_eq in Hty. rewrite Hty, Hm. eauto.
  - unfold bind at 1, lift. rewrite (@initialValue_unseeded iv name Hun).
    unfold Index.isUndefined, Index.elementValue, bind, ret, getData, setData.
    simpl. apply String.eqb_neq in Hty. rewrite Hty, Hm. eauto.
  - unfold bind at 1, lift. rewrite (@initialValue_unseeded iv name Hun).
    unfold Index.isUndefined, Index.elementValue, bind, ret, getData, setData.
    simpl. rewrite Hm. eauto.
Qed.

(** C1, as amended.  In the two later drafts a name that is registered
    again keeps the value its record had (not the new default), and a name
    that is new takes the default; in [src/index.tsx] the value is resolved
    anew, from [initialValues], the element or the default, whatever the
    record held.  The call returns, and the record of the name is there
    after it, when the memos of the new store run; when one of them throws,
    the call throws: the field ["a.b"] cannot be registered after ["a"]. *)
Theorem addField_keeps_value :
  forall iv w name vs d2 element,
    (forall old,
        Props.get name (data w) = Some old ->
        projects (Props.set name (newField name element (value old) vs) (data w)) ->
        exists w' f,
          addField name vs d2 element w = Ok (tt, w')
          /\ Props.get name (data w') = Some f
          /\ value f = value old)
    /\ (Props.get name (data w) = None ->
        inherited name = false ->
        projects (Props.set name (newField name element d2 vs) (data w)) ->
        exists w' f,
          addField name vs d2 element w = Ok (tt, w')
          /\ Props.get name (data w') = Some f
          /\ value f = d2)
    /\ (forall h,
          (Props.get name (data w) = None -> inherited name = false) ->
          memosRun (Props.set name
                      (newField name element (kept (data w) name d2) vs) (data w))
          = Stop h ->
          addField name vs d2 element w = Stop h)
    /\ (forall v,
          resolved iv name d2 element v ->
          projects (Props.set name (newField name element v vs) (data w)) ->
          exists w' f,
            Index.addField iv name vs d2 element w = Ok (tt, w')
            /\ Props.get name (data w') = Some f
            /\ value f = v)
    /\ addField "a.b" [] (VNum 2) None
         {| data := [("a", newField "a" None (VNum 1) [])]; effects := [] |}
       = Stop (Thrown TypeError).
Proof.
  intros iv w name vs d2 element. split; [|split; [|split; [|split]]].
  - intros old Hold Hp.
    assert (Hname : Props.get name (data w) = None -> inherited name = false)
      by (rewrite Hold; discriminate).
    assert (Hk : kept (data w) name d2 = value old)
      by (unfold kept; now rewrite Hold).
    pose proof (@addField_result w name vs d2 element Hname) as R.
    rewrite Hk in R. rewrite (R Hp).
    eexists. eexists. split; [reflexivity|]. simpl.
    split; [apply PropsFacts.get_set_same | reflexivity].
  - intros Hnone Hin Hp.
    assert (Hk : kept (data w) name d2 = d2)
      by (unfold kept; now rewrite Hnone).
    pose proof (@addField_result w name vs d2 element (fun _ => Hin)) as R.
    rewrite Hk in R. rewrite (R Hp).
    eexists. eexists. split; [reflexivity|]. simpl.
    split; [apply PropsFacts.get_set_same | reflexivity].
  - intros h Hname Hp. now apply addField_stops.
  - intros v Hv Hp.
    destruct (@index_addField_result iv w name vs d2 element v Hv Hp)
      as (w' & Hrun & Hdata).
    exists w'. eexists. split; [exact Hrun|]. rewrite Hdata.
    split; [apply PropsFacts.get_set_same | reflexivity].
  - reflexivity.
Qed.

Lemma addField_keeps_value_witness :
  exists w' f,
    addField "n" [] (VStr "d2") None typedStore = Ok (tt, w')
    /\ Props.get "n" (data w') = Some f
    /\ value f = VStr "typed".
Proof.
  exact (proj1 (addField_keeps_value None typedStore "n" [] (VStr "d2") None)
               typedField eq_refl eq_refl).
Defined.

(** C1 as stated fails on [src/index.tsx]: registering ["n"] again with the
    default ["d2"] replaces the value ["typed"] by ["d2"]. *)
Lemma index_addField_resets_value :
  exists old w' f,
    Props.get "n" (data typedStore) = Some old
    /\ Index.addField None "n" [] (VStr "d2") None typedStore = Ok (tt, w')
    /\ Props.get "n" (data w') = Some f
    /\ value old = VStr "typed"
    /\ value f = VStr "d2"
    /\ value f <> value old.
Proof.
  exists typedField. eexists. eexists.
  repeat split; try reflexivity. simpl. discriminate.
Qed.

(** C2, as amended.  In every draft [addField] writes a whole new record:
    when the call returns, as it does when the memos of the new store run,
    [touched] is false and [errors] is empty, whether or not the name was
    registered before, and the record holds the validators, the element and
    the path of the name. *)
Theorem addField_resets_touched_and_errors :
  forall iv w name vs d2 element,
    ((Props.get name (data w) = None -> inherited name = false) ->
     projects (Props.set name
                 (newField name element (kept (data w) name d2) vs) (data w)) ->
     exists w' f,
       addField name vs d2 element w = Ok (tt, w')
       /\ Props.get name (data w') = Some f
       /\ touched f = false /\ errors f = []
       /\ validators f = vs /\ ref f = element
       /\ path f = analyzeNamePath name)
    /\ (forall v,
          resolved iv name d2 element v ->
          projects (Props.set name (newField name element v vs) (data w)) ->
          exists w' f,
            Index.addField iv name vs d2 element w = Ok (tt, w')
            /\ Props.get name (data w') = Some f
            /\ touched f = false /\ errors f = []
            /\ validators f = vs /\ ref f = element
            /\ path f = analyzeNamePath name).
Proof.
  intros iv w name vs d2 element. split.
  - intros Hname Hp. rewrite (@addField_result w name vs d2 element Hname Hp).
    eexists. eexists. split; [reflexivity|]. simpl.
    split; [apply PropsFacts.get_set_same|]. repeat split.
  - intros v Hv Hp.
    destruct (@index_addField_result iv w name vs d2 element v Hv Hp)
      as (w' & Hrun & Hdata).
    exists w'. eexists. split; [exact Hrun|]. rewrite Hdata.
    split; [apply PropsFacts.get_set_same|]. repeat split.
Qed.

Lemma addField_resets_touched_and_errors_witness :
  exists w' f,
    addField "n" [] (VStr "d2") None typedStore = Ok (tt, w')
    /\ Props.get "n" (data w') = Some f
    /\ touched f = false /\ errors f = []
    /\ validators f = [] /\ ref f = None
    /\ path f = analyzeNamePath "n".
Proof.
  exact (proj1 (addField_resets_touched_and_errors
                  None typedStore "n" [] (VStr "d2") None)
               ltac:(discriminate) eq_refl).
Defined.

(** C2 as stated fails in every draft: the record of ["n"] was touched and
    held an error, and registering the name again clears both. *)
Lemma addField_clears_touched_and_errors :
  exists old w' f,
    Props.get "n" (data typedStore) = Some old
    /\ touched old = true /\ errors old = ["too short"]
    /\ addField "n" [] (VStr "d2") None typedStore = Ok (tt, w')
    /\ Props.get "n" (data w') = Some f
    /\ touched f = false /\ errors f = []
    /\ touched f <> touched old /\ errors f <> errors old.
Proof.
  exists typedField. eexists. eexists.
  repeat split; try reflexivity; simpl; discriminate.
Qed.

(* ================================================================== *)
(** * The validator [required] *)

(** C10.  [required(message)] resolves to nothing for every number (zero
    and NaN among them), every non-empty string and every non-empty array,
    and to [message] for the empty string, an empty array, [false], [null]
    and [undefined]. *)
Theorem required_cases :
  forall message vals,
    (forall n, required message (VNum n) vals = None)
    /\ required message (VNum 0) vals = None
    /\ required message (VNum nan) vals = None
    /\ (forall c s, required message (VStr (String c s)) vals = None)
    /\ (forall e elems named,
          required message (VArr (e :: elems) named) vals = None)
    /\ required message (VStr "") vals = Some message
    /\ (forall named, required message (VArr [] named) vals = Some message)
    /\ required message (VBool false) vals = Some message
    /\ required message VNull vals = Some message
    /\ required message VUndefined vals = Some message.
Proof.
  intros message vals. repeat split; intros; reflexivity.
Qed.

(* ================================================================== *)
(** * Validity of the form *)

Lemma fieldInvalid_iff field :
  fieldInvalid field = true
  <-> errors field <> [] \/ (validators field <> [] /\ touched field = false).
Proof.
  unfold fieldInvalid.
  destruct (errors field) as [|e es], (validators field) as [|v vs],
    (touched field); simpl; split; intros H;
    try discriminate; try reflexivity;
    try (left; discriminate); try (right; split; [discriminate | reflexivity]);
    destruct H as [H | [H1 H2]]; congruence.
Qed.

Lemma isFormValid_forall d :
  isFormValid d = true
  <-> forall key field, In (key, field) d -> fieldInvalid field = false.
Proof.
  induction d as [|[k f] r IH]; simpl.
  - split; [intros _ ? ? [] | reflexivity].
  - destruct (fieldInvalid f) eqn:E.
    + split; [discriminate|]. intros H.
      specialize (H k f (or_introl eq_refl)). congruence.
    + rewrite IH. split.
      * intros H key field [[= <- <-] | Hin]; [exact E | eauto].
      * intros H key field Hin. eauto.
Qed.

(** C4.  A field is invalid exactly when it has an error, or has a
    validator and was never touched; the form is valid exactly when no field
    is invalid.  A form whose one field has a [required] validator, was
    never touched and has no error is not valid, and becomes valid by
    [touch] and a validation that passes. *)
Theorem isFormValid_spec :
  (forall field,
      fieldInvalid field = true
      <-> errors field <> [] \/ (validators field <> [] /\ touched field = false))
  /\ (forall d,
        isFormValid d = true
        <-> forall key field, In (key, field) d -> fieldInvalid field = false)
  /\ (exists w1 w2 w3 f1,
        emailForm emptyStore = Ok (tt, w1)
        /\ Props.get "email" (data w1) = Some f1
        /\ touched f1 = false /\ errors f1 = []
        /\ isFormValid (data w1) = false
        /\ touch "email" w1 = Ok (tt, w2)
        /\ validate 1 (One "email") false w2 = Ok (true, w3)
        /\ isFormValid (data w3) = true).
Proof.
  split; [exact fieldInvalid_iff | split; [exact isFormValid_forall |]].
  do 4 eexists. repeat split; reflexivity.
Qed.

(* ================================================================== *)
(** * Validation of one field *)

Lemma world_eta w : {| data := data w; effects := effects w |} = w.
Proof. destruct w; reflexivity. Qed.

Lemma fieldOrThrow_found name w field :
  Props.get name (data w) = Some field -> fieldOrThrow name w = Ok (field, w).
Proof. intros H. unfold fieldOrThrow. run_step. now rewrite H. Qed.

Lemma fieldOrThrow_missing name w :
  Props.get name (data w) = None -> inherited name = false ->
  fieldOrThrow name w = Stop (Thrown TypeError).
Proof. intros H I. unfold fieldOrThrow. run_step. now rewrite H, I. Qed.

Lemma values_found w vals :
  extractFieldsMember MValue (data w) = Ok vals -> values w = Ok (vals, w).
Proof. intros H. unfold values. run_step. now rewrite H. Qed.

Lemma assignField_found name f w field :
  Props.get name (data w) = Some field ->
  assignField name f w
  = Ok (tt, {| data := Props.replace name (f field) (data w);
               effects := effects w |}).
Proof.
  intros H. unfold assignField, bind.
  rewrite (fieldOrThrow_found _ _ H). reflexivity.
Qed.

Lemma assignField_missing name f w :
  Props.get name (data w) = None -> inherited name = false ->
  assignField name f w = Stop (Thrown TypeError).
Proof.
  intros H I. unfold assignField, bind.
  now rewrite (fieldOrThrow_missing _ _ H I).
Qed.

Lemma messages_app vs1 vs2 v vals :
  messages (vs1 ++ vs2) v vals = messages vs1 v vals ++ messages vs2 v vals.
Proof. unfold messages. apply flat_map_app. Qed.

Lemma runValidators_run name w field vals vs errs :
  Props.get name (data w) = Some field ->
  extractFieldsMember MValue (data w) = Ok vals ->
  runValidators name vs errs w
  = Ok (errs ++ messages vs (value field) vals, w).
Proof.
  intros Hget Hvals. revert errs.
  induction vs as [|validator rest IH]; intros errs; simpl.
  - unfold ret. now rewrite app_nil_r.
  - unfold bind at 1. rewrite (fieldOrThrow_found _ _ Hget).
    unfold bind at 1. rewrite (values_found _ Hvals).
    destruct (validator (value field) vals) as [error|]; rewrite IH.
    + now rewrite <- app_assoc.
    + reflexivity.
Qed.

Lemma finishValidation_run name w field focusOnError errs :
  Props.get name (data w) = Some field ->
  finishValidation name focusOnError errs w
  = Ok (noneOf errs,
        {| data := Props.replace name (withErrors errs field) (data w);
           effects := effects w
                      ++ if negb (noneOf errs) && focusOnError
                         then focusOf field else [] |}).
Proof.
  intros Hget. unfold finishValidation, focusRef, focusOf.
  destruct errs as [|e es]; simpl.
  - unfold bind at 1. unfold ret at 1. unfold bind.
    rewrite (assignField_found _ _ _ Hget). simpl. now rewrite app_nil_r.
  - destruct focusOnError; simpl.
    + unfold bind at 1. unfold bind at 1.
      rewrite (fieldOrThrow_found _ _ Hget).
      destruct (ref field) as [el|]; run_step.
      * rewrite assignField_found with (field := field) by exact Hget.
        reflexivity.
      * rewrite (assignField_found _ _ _ Hget). simpl. now rewrite app_nil_r.
    + unfold bind at 1. unfold ret at 1. unfold bind.
      rewrite (assignField_found _ _ _ Hget). simpl. now rewrite app_nil_r.
Qed.

Lemma nameIsEmpty_One name : name <> "" -> nameIsEmpty (One name) = false.
Proof. intros H. simpl. now apply String.eqb_neq. Qed.

Lemma validate_S fuel name focusOnError :
  validate (S fuel) name focusOnError
  = let multiple := multiple (fun key => validate fuel (One key) false) in
    if nameIsEmpty name then
      d <- getData ;; multiple (Props.keys d) focusOnError
    else
      match name with
      | Many names => multiple names focusOnError
      | One name =>
          d <- getData ;;
          match Props.get name d with
          | None => if inherited name then halt NotModelled else ret false
          | Some field =>
              errs <- runValidators name (validators field) [] ;;
              finishValidation name focusOnError errs
          end
      | NoName => ret false
      end.
Proof. reflexivity. Qed.

Lemma validate_One_run fuel w name field vals focusOnError :
  name <> "" ->
  Props.get name (data w) = Some field ->
  extractFieldsMember MValue (data w) = Ok vals ->
  validate (S fuel) (One name) focusOnError w
  = Ok (noneOf (messages (validators field) (value field) vals),
        {| data := Props.replace name
                     (withErrors (messages (validators field) (value field) vals)
                                 field) (data w);
           effects := effects w
                      ++ if negb (noneOf (messages (validators field)
                                                   (value field) vals))
                            && focusOnError
                         then focusOf field else [] |}).
Proof.
  intros Hne Hget Hvals. rewrite validate_S. cbv zeta.
  rewrite (nameIsEmpty_One Hne).
  unfold bind at 1. unfold getData at 1. rewrite Hget.
  unfold bind at 1.
  rewrite (@runValidators_run name w field vals _ _ Hget Hvals). simpl.
  now apply finishValidation_run.
Qed.

Lemma validate_One_missing fuel w name focusOnError :
  name <> "" ->
  Props.get name (data w) = None ->
  inherited name = false ->
  validate (S fuel) (One name) focusOnError w = Ok (false, w).
Proof.
  intros Hne Hget Hin. rewrite validate_S. cbv zeta.
  rewrite (nameIsEmpty_One Hne).
  unfold bind, getData. now rewrite Hget, Hin.
Qed.

(** C3, as amended.  For a registered field whose name is not the empty
    string, in a store whose values project, [validate(name)] calls every
    validator of the field, in the order of the list, with the field's value
    and the projected values; it replaces the field's errors by the messages
    returned, in that order, asks for focus when there is a message and
    [focusOnError] is set, and returns whether there was no message. *)
Theorem validate_single :
  forall fuel w name field vals focusOnError,
    name <> "" ->
    Props.get name (data w) = Some field ->
    extractFieldsMember MValue (data w) = Ok vals ->
    validate (S fuel) (One name) focusOnError w
    = Ok (noneOf (messages (validators field) (value field) vals),
          {| data := Props.replace name
                       (withErrors (messages (validators field) (value field) vals)
                                   field) (data w);
             effects := effects w
                        ++ if negb (noneOf (messages (validators field)
                                                     (value field) vals))
                              && focusOnError
                           then focusOf field else [] |}).
Proof. intros. now apply validate_One_run. Qed.

(** P3: both messages are recorded, in the order of the validators. *)
Lemma validate_single_witness :
  validate 1 (One "n") false storeAB
  = Ok (false,
        {| data := [("n", withErrors ["A"; "B"] fieldAB)]; effects := [] |}).
Proof.
  exact (@validate_single 0 storeAB "n" fieldAB (VObj [("n", VStr "")]) false
           ltac:(discriminate) eq_refl eq_refl).
Defined.

Lemma validate_empty_name_diverges :
  neverReturns (fun fuel => validate fuel (One "") false) emptyNameStore.
Proof.
  intros fuel. induction fuel as [|fuel IH]; [reflexivity|].
  rewrite validate_S. cbv zeta.
  change (nameIsEmpty (One "")) with true. cbv iota.
  unfold bind at 1, getData at 1.
  change (Props.keys (data emptyNameStore)) with [""].
  unfold multiple. simpl multipleLoop. unfold bind at 1.
  now rewrite IH.
Qed.

(** C3 as stated fails for a field registered under the empty name:
    [validate("")] takes the empty string for a missing name, validates
    every field, and so calls itself again without end. *)
Lemma validate_empty_name_never_returns :
  Props.get "" (data emptyNameStore)
  = Some (newField "" None (VStr "") [alwaysA])
  /\ neverReturns (fun fuel => validate fuel (One "") false) emptyNameStore.
Proof.
  split; [reflexivity | exact validate_empty_name_diverges].
Qed.

(* ================================================================== *)
(** * Names that were never registered *)

(** [clearErrors] has no guard: on a name that is not registered, that is
    not the empty string and that no object inherits, it throws. *)
Lemma clearErrors_missing_name w name :
  name <> "" ->
  Props.get name (data w) = None ->
  inherited name = false ->
  clearErrors (One name) w = Stop (Thrown TypeError).
Proof.
  intros Hne Hget Hin. unfold clearErrors.
  apply String.eqb_neq in Hne. rewrite Hne.
  now apply assignField_missing.
Qed.

Lemma clearErrors_missing_names w name rest :
  Props.get name (data w) = None ->
  inherited name = false ->
  clearErrors (Many (name :: rest)) w = Stop (Thrown TypeError).
Proof.
  intros Hget Hin. unfold clearErrors. simpl. unfold bind.
  now rewrite (assignField_missing _ _ _ Hget Hin).
Qed.

(** C8, as amended.  On a name that is not registered, and that is not a
    name every object inherits ([toString], [constructor], ...), [touch],
    [setField], [addError], [setFieldRef] and [removeField] return without a
    change to the store or to any element, and [validate] on such a name,
    when it is not the empty string, returns false without a change. *)
Theorem unknown_name_is_ignored :
  forall fuel w name v updateElementValue error focus el focusOnError,
    Props.get name (data w) = None ->
    inherited name = false ->
    touch name w = Ok (tt, w)
    /\ setField name v updateElementValue w = Ok (tt, w)
    /\ addError name error focus w = Ok (tt, w)
    /\ setFieldRef name el w = Ok (tt, w)
    /\ removeField name w = Ok (tt, w)
    /\ (name <> "" ->
        validate (S fuel) (One name) focusOnError w = Ok (false, w)).
Proof.
  intros fuel w name v u error focus el focusOnError Hget Hin.
  repeat split;
    try (unfold touch, setField, addError, setFieldRef, bind, getData, ret;
         now rewrite Hget, ?Hin).
  - unfold removeField, bind, getData, setData.
    rewrite (PropsFacts.delete_absent _ _ Hget). now rewrite world_eta.
  - intros Hne. now apply validate_One_missing.
Qed.

Lemma unknown_name_is_ignored_witness :
  touch "ghost" storeWithError = Ok (tt, storeWithError)
  /\ setField "ghost" (VStr "v") true storeWithError = Ok (tt, storeWithError)
  /\ addError "ghost" "e" true storeWithError = Ok (tt, storeWithError)
  /\ setFieldRef "ghost" inputX storeWithError = Ok (tt, storeWithError)
  /\ removeField "ghost" storeWithError = Ok (tt, storeWithError)
  /\ validate 1 (One "ghost") true storeWithError = Ok (false, storeWithError).
Proof.
  destruct (@unknown_name_is_ignored 0 storeWithError "ghost" (VStr "v")
              true "e" true inputX true eq_refl eq_refl)
    as (Htouch & HsetField & HaddError & HsetFieldRef & HremoveField & Hvalidate).
  exact (conj Htouch (conj HsetField (conj HaddError (conj HsetFieldRef
           (conj HremoveField (Hvalidate ltac:(discriminate))))))).
Defined.

(** C8 as stated fails for the empty string, which was never registered
    here: [clearErrors("")] and [validate("")] take it for a missing name
    and act on every field, so the errors of ["x"] are cleared and the
    validation of the whole form returns true. *)
Lemma empty_name_reaches_every_field :
  Props.get "" (data storeWithError) = None
  /\ clearErrors (One "") storeWithError
     = Ok (tt, {| data := [("x", withErrors [] fieldWithError)]; effects := [] |})
  /\ withErrors [] fieldWithError <> fieldWithError
  /\ validate 2 (One "") false storeWithError
     = Ok (true, {| data := [("x", withErrors [] fieldWithError)]; effects := [] |}).
Proof.
  repeat split; try reflexivity. intros H.
  apply (f_equal errors) in H. discriminate.
Qed.

(* ================================================================== *)
(** * A validation that ends after its field was removed *)

Lemma finishValidation_missing name w focusOnError errs :
  Props.get name (data w) = None -> inherited name = false ->
  finishValidation name focusOnError errs w = Stop (Thrown TypeError).
Proof.
  intros Hget Hin. unfold finishValidation, focusRef.
  destruct ((0 <? length errs)%nat && focusOnError).
  - unfold bind. now rewrite (fieldOrThrow_missing _ _ Hget Hin).
  - unfold bind at 1. unfold ret at 1. unfold bind.
    now rewrite (assignField_missing _ _ _ Hget Hin).
Qed.

Lemma runValidatorsAmid_missing others name w vs errs focusOnError :
  Props.get name (data w) = None -> inherited name = false ->
  (errs' <- runValidatorsAmid others name vs errs ;;
   finishValidation name focusOnError errs') w
  = Stop (Thrown TypeError).
Proof.
  intros Hget Hin. destruct vs as [|validator rest]; simpl.
  - unfold bind at 1. unfold ret at 1.
    now apply finishValidation_missing.
  - unfold bind. now rewrite (fieldOrThrow_missing _ _ Hget Hin).
Qed.

Lemma removeField_removes name w :
  Props.get name (data (after (removeField name) w)) = None.
Proof.
  unfold after, removeField, bind, getData, setData. simpl.
  apply PropsFacts.get_delete_same.
Qed.

(** Whatever the field and its validators, a validation that is suspended
    at its first validator when the field is removed ends in a [TypeError]. *)
Lemma validateAmid_removed w name field validator rest vals focusOnError :
  Props.get name (data w) = Some field ->
  inherited name = false ->
  validators field = validator :: rest ->
  extractFieldsMember MValue (data w) = Ok vals ->
  validateAmid [after (removeField name)] name focusOnError w
  = Stop (Thrown TypeError).
Proof.
  intros Hget Hin Hvs Hvals. unfold validateAmid.
  unfold bind at 1, getData at 1. rewrite Hget, Hvs.
  pose proof (removeField_removes name w) as Hgone.
  pose proof (fun errs => @runValidatorsAmid_missing [] name
                 (after (removeField name) w) rest errs focusOnError Hgone Hin)
    as Hrest.
  unfold bind in Hrest |- *. simpl runValidatorsAmid. unfold bind.
  rewrite (fieldOrThrow_found _ _ Hget), (values_found _ Hvals). simpl hd. simpl tl.
  destruct (validator (value field) vals) as [error|]; apply Hrest.
Qed.

(** Left alone, the suspended run is the run of [validate] itself. *)
Lemma runValidatorsAmid_alone name vs errs w :
  runValidatorsAmid [] name vs errs w = runValidators name vs errs w.
Proof.
  revert errs w. induction vs as [|validator rest IH]; intros errs w;
    [reflexivity|].
  simpl. unfold bind.
  destruct (fieldOrThrow name w) as [[field w1]|h]; [|reflexivity].
  destruct (values w1) as [[vals w2]|h]; [|reflexivity].
  simpl. destruct (validator (value field) vals); apply IH.
Qed.

Lemma validateAmid_alone fuel name focusOnError w :
  name <> "" ->
  validateAmid [] name focusOnError w
  = validate (S fuel) (One name) focusOnError w.
Proof.
  intros Hne. rewrite validate_S. cbv zeta. rewrite (nameIsEmpty_One Hne).
  unfold validateAmid, bind, getData.
  destruct (Props.get name (data w)) as [field|]; [|reflexivity].
  now rewrite runValidatorsAmid_alone.
Qed.

(** C9, on the code.  The field ["x"] is registered and its validation,
    left alone, records the message and returns; when [removeField("x")]
    runs while the validator is awaited, the validation does not end in a
    write that does nothing: it throws a [TypeError].  With a second
    validator still to run, as for ["n"], it throws before it gets to the
    write, where it reads the value of the field. *)
Theorem late_validation_throws :
  Props.get "x" (data storeX) = Some fieldX
  /\ validateAmid [] "x" false storeX
     = Ok (false, {| data := [("x", withErrors ["A"] fieldX)]; effects := [] |})
  /\ validateAmid [after (removeField "x")] "x" false storeX
     = Stop (Thrown TypeError)
  /\ validateAmid [after (removeField "n")] "n" false storeAB
     = Stop (Thrown TypeError).
Proof. repeat split; reflexivity. Qed.

(* ================================================================== *)
(** * Validation of several fields *)

Lemma projectInto_replace object memberKey key field field' d :
  Props.get key d = Some field ->
  path field' = path field ->
  member memberKey field' = member memberKey field ->
  projectInto object memberKey (Props.replace key field' d)
  = projectInto object memberKey d.
Proof.
  intros Hget Hpath Hmember. revert object.
  induction d as [|[k f] r IH]; intros object; simpl in *; [reflexivity|].
  destruct (k =? key) eqn:E; simpl.
  - injection Hget as ->. now rewrite Hpath, Hmember.
  - destruct (Tree.createObjectFromPath object (path f) (member memberKey f));
      simpl; auto.
Qed.

Lemma get_validated_same vals d key field :
  Props.get key d = Some field ->
  Props.get key (validated vals d key)
  = Some (withErrors (messages (validators field) (value field) vals) field).
Proof.
  intros Hget. unfold validated. rewrite Hget.
  now rewrite PropsFacts.get_replace_same, Hget.
Qed.

Lemma get_validated_other vals d key k :
  key <> k -> Props.get k (validated vals d key) = Props.get k d.
Proof.
  intros Hne. unfold validated. destruct (Props.get key d); [|reflexivity].
  now apply PropsFacts.get_replace_other.
Qed.

Lemma get_validated vals d key k :
  Props.get k (validated vals d key)
  = match Props.get k d with
    | Some field =>
        Some (if key =? k
              then withErrors (messages (validators field) (value field) vals) field
              else field)
    | None => None
    end.
Proof.
  destruct (key =? k) eqn:E.
  - apply String.eqb_eq in E. subst k.
    destruct (Props.get key d) as [field|] eqn:G.
    + now apply get_validated_same.
    + unfold validated. now rewrite G.
  - apply String.eqb_neq in E. rewrite (get_validated_other _ _ E).
    now destruct (Props.get k d).
Qed.

Lemma passes_validated vals d key k :
  passes (validated vals d key) vals k = passes d vals k.
Proof.
  unfold passes. rewrite get_validated.
  destruct (Props.get k d) as [field|]; [|reflexivity].
  now destruct (key =? k).
Qed.

Lemma firstFailing_validated vals d key names :
  firstFailing (validated vals d key) vals names = firstFailing d vals names.
Proof.
  unfold firstFailing. induction names as [|k rest IH]; simpl; [reflexivity|].
  now rewrite passes_validated, IH.
Qed.

Lemma batchFocus_validated vals d key names focusOnError :
  batchFocus (validated vals d key) vals names focusOnError
  = batchFocus d vals names focusOnError.
Proof.
  unfold batchFocus. rewrite firstFailing_validated.
  destruct (firstFailing d vals names) as [k|]; [|reflexivity].
  rewrite get_validated. destruct (Props.get k d) as [field|]; [|reflexivity].
  now destruct (key =? k).
Qed.

Lemma forallb_passes_validated vals d key names :
  forallb (passes (validated vals d key) vals) names
  = forallb (passes d vals) names.
Proof.
  induction names as [|k rest IH]; simpl; [reflexivity|].
  now rewrite passes_validated, IH.
Qed.

Lemma extract_validated vals d key :
  extractFieldsMember MValue (validated vals d key)
  = extractFieldsMember MValue d.
Proof.
  unfold validated. destruct (Props.get key d) as [field|] eqn:G; [|reflexivity].
  unfold extractFieldsMember.
  now rewrite projectInto_replace with (field := field).
Qed.

Lemma known_spec d key :
  known d key = true <-> key <> "" /\ Props.get key d <> None.
Proof.
  unfold known, Props.has. rewrite andb_true_iff, negb_true_iff, String.eqb_neq.
  destruct (Props.get key d); intuition congruence.
Qed.

Lemma known_validated vals d key k :
  known (validated vals d key) k = known d k.
Proof.
  unfold known, Props.has. rewrite get_validated.
  now destruct (Props.get k d).
Qed.

Lemma forallb_known_validated vals d key names :
  forallb (known (validated vals d key)) names = forallb (known d) names.
Proof.
  induction names as [|k rest IH]; simpl; [reflexivity|].
  now rewrite known_validated, IH.
Qed.

Lemma validate_One_validated fuel w key vals :
  known (data w) key = true ->
  extractFieldsMember MValue (data w) = Ok vals ->
  validate (S fuel) (One key) false w
  = Ok (passes (data w) vals key,
        {| data := validated vals (data w) key; effects := effects w |}).
Proof.
  intros Hknown Hvals. apply known_spec in Hknown. destruct Hknown as [Hne Hget].
  destruct (Props.get key (data w)) as [field|] eqn:G; [|congruence].
  rewrite (validate_One_run fuel _ false Hne G Hvals).
  unfold passes, validated. rewrite G.
  now rewrite andb_false_r, app_nil_r.
Qed.

Lemma multipleLoop_run fuel vals focusOnError names :
  forall w isValid alreadyFocusField,
    forallb (known (data w)) names = true ->
    extractFieldsMember MValue (data w) = Ok vals ->
    (alreadyFocusField = true -> isValid = false) ->
    multipleLoop (fun key => validate (S fuel) (One key) false) focusOnError
                 names isValid alreadyFocusField w
    = Ok (isValid && forallb (passes (data w) vals) names,
          {| data := fold_left (validated vals) names (data w);
             effects := effects w
                        ++ if isValid
                           then batchFocus (data w) vals names focusOnError
                           else [] |}).
Proof.
  induction names as [|key rest IH]; intros w isValid already Hknown Hvals Hinv.
  - simpl. unfold ret, batchFocus. simpl.
    rewrite andb_true_r. destruct isValid; now rewrite app_nil_r, world_eta.
  - simpl in Hknown. apply andb_true_iff in Hknown. destruct Hknown as [Hkey Hrest].
    simpl multipleLoop. unfold bind at 1.
    rewrite (@validate_One_validated fuel w key vals Hkey Hvals).
    set (w1 := {| data := validated vals (data w) key; effects := effects w |}).
    assert (Hknown1 : forallb (known (data w1)) rest = true)
      by (simpl; now rewrite forallb_known_validated).
    assert (Hvals1 : extractFieldsMember MValue (data w1) = Ok vals)
      by (simpl; now rewrite extract_validated).
    destruct (passes (data w) vals key) eqn:P; cbn [negb andb].
    + (* the field passes *)
      rewrite (IH w1 isValid already Hknown1 Hvals1 Hinv). simpl.
      rewrite forallb_passes_validated, batchFocus_validated.
      unfold batchFocus at 2, firstFailing. simpl find. rewrite P. simpl.
      reflexivity.
    + (* the field fails *)
      destruct isValid.
      * (* it is the first failure *)
        assert (already = false) as ->
            by (destruct already; [specialize (Hinv eq_refl); discriminate | reflexivity]).
        cbn [negb].
        apply known_spec in Hkey. destruct Hkey as [Hne Hget].
        destruct (Props.get key (data w)) as [field|] eqn:G; [|congruence].
        unfold bind at 1.
        rewrite (@fieldOrThrow_found key w1
                   (withErrors (messages (validators field) (value field) vals) field))
          by (subst w1; simpl; now apply get_validated_same).
        cbn [ref withErrors].
        unfold batchFocus, firstFailing. simpl find. rewrite P. simpl negb.
        cbv iota. rewrite G. unfold focusOf.
        destruct (ref field) as [el|].
        -- destruct focusOnError.
           ++ unfold bind at 1, emit at 1. cbv beta iota.
              rewrite IH; [|exact Hknown1|exact Hvals1|intros _; reflexivity].
              simpl. now rewrite P, app_nil_r.
           ++ rewrite IH; [|exact Hknown1|exact Hvals1|intros _; reflexivity].
              simpl. now rewrite P.
        -- rewrite IH; [|exact Hknown1|exact Hvals1|intros _; reflexivity].
           simpl. rewrite P. now destruct focusOnError.
      * (* an earlier field has failed *)
        rewrite (IH w1 false already Hknown1 Hvals1 (fun _ => eq_refl)).
        simpl. reflexivity.
Qed.

(** C7, as amended.  A batch is a call with no name, the empty string, the
    empty list (each stands for every key of the store) or a non-empty list
    of names.  When the names of the batch are registered and none is the
    empty string, in a store whose values project, the fields are validated
    in the order of the batch, each getting its messages as errors; focus is
    asked for once at most, for the element of the first field that fails,
    and only when [focusOnError] is set; the call returns whether every
    field of the batch passed. *)
Theorem validate_batch :
  forall fuel w name names vals focusOnError,
    batchOf (data w) name = Some names ->
    forallb (known (data w)) names = true ->
    extractFieldsMember MValue (data w) = Ok vals ->
    validate (S (S fuel)) name focusOnError w
    = Ok (forallb (passes (data w) vals) names,
          {| data := fold_left (validated vals) names (data w);
             effects := effects w
                        ++ batchFocus (data w) vals names focusOnError |}).
Proof.
  intros fuel w name names vals focusOnError Hbatch Hknown Hvals.
  rewrite validate_S. cbv zeta. unfold batchOf in Hbatch.
  destruct (nameIsEmpty name) eqn:E.
  - injection Hbatch as <-. unfold bind, getData, multiple.
    rewrite multipleLoop_run with (vals := vals);
      [reflexivity | exact Hknown | exact Hvals | discriminate].
  - destruct name as [|s|l]; try discriminate. injection Hbatch as <-.
    unfold multiple.
    rewrite multipleLoop_run with (vals := vals);
      [reflexivity | exact Hknown | exact Hvals | discriminate].
Qed.

(** P4: both fields fail, and only the element of ["x"] is focused. *)
Lemma validate_batch_witness :
  validate 2 (Many ["x"; "y"]) true storeXY
  = Ok (false,
        {| data := [("x", withErrors ["A"]
                            (newField "x" (Some inputX) (VStr "") [alwaysA]));
                    ("y", withErrors ["B"]
                            (newField "y" (Some inputY) (VStr "") [alwaysB]))];
           effects := [Focus 1] |}).
Proof.
  exact (@validate_batch 0 storeXY (Many ["x"; "y"]) ["x"; "y"]
           (VObj [("x", VStr ""); ("y", VStr "")]) true eq_refl eq_refl eq_refl).
Defined.

(** C7 as stated fails on the empty list: [validate([], true)] does not
    validate no field and return true, it validates every field of the
    store, focuses the first that fails and returns false.  Nor does every
    batch return: a list that names a field that is not registered throws,
    and a batch that meets a field registered under the empty name goes on
    without end. *)
Lemma validate_empty_list_reaches_every_field :
  validate 2 (Many []) true storeXY = validate 2 NoName true storeXY
  /\ validate 2 (Many []) true storeXY
     = Ok (false,
           {| data := [("x", withErrors ["A"]
                               (newField "x" (Some inputX) (VStr "") [alwaysA]));
                       ("y", withErrors ["B"]
                               (newField "y" (Some inputY) (VStr "") [alwaysB]))];
              effects := [Focus 1] |})
  /\ validate 2 (Many ["ghost"]) true storeXY = Stop (Thrown TypeError)
  /\ neverReturns (fun fuel => validate fuel NoName true) emptyNameStore.
Proof.
  repeat split; try reflexivity.
  intros fuel. destruct fuel as [|fuel]; [reflexivity|].
  rewrite validate_S. cbv zeta. change (nameIsEmpty NoName) with true. cbv iota.
  unfold bind at 1, getData at 1.
  change (Props.keys (data emptyNameStore)) with [""].
  unfold multiple. simpl multipleLoop. unfold bind at 1.
  now rewrite (validate_empty_name_diverges fuel).
Qed.

(* ================================================================== *)
(** * The projection *)

Lemma nth_error_setNth_same {A} n (x hole : A) l :
  nth_error (setNth n x hole l) n = Some x.
Proof.
  revert l. induction n as [|n IH]; intros [|y r]; simpl; auto.
Qed.

Lemma setNth_present {A} n (x hole : A) l :
  nth_error l n = Some x -> setNth n x hole l = l.
Proof.
  revert l. induction n as [|n IH]; intros [|y r]; simpl; try discriminate.
  - now intros [= ->].
  - intros H. now rewrite (IH r H).
Qed.

Lemma replace_present {V} k (v : V) l :
  Props.get k l = Some v -> Props.replace k v l = l.
Proof.
  induction l as [|[k' v'] r IH]; simpl; [reflexivity|].
  destruct (k' =? k); [now intros [= ->] | intros H; now rewrite (IH H)].
Qed.

Lemma set_present {V} k (v : V) l :
  Props.get k l = Some v -> Props.set k v l = l.
Proof.
  intros H. unfold Props.set, Props.has. rewrite H. now apply replace_present.
Qed.

Lemma createObjectFromPath_eq last part rest v :
  createObjectFromPath last (part :: rest) v
  = let k := NamePathPart.value part in
    rbind (hasOwnProperty last k) (fun own =>
    rbind (if own then Ok last else setProp last k (freshSlot rest)) (fun last1 =>
    match rest with
    | [] => setProp last1 k v
    | _ :: _ =>
        rbind (getProp last1 k) (fun child =>
        rbind (createObjectFromPath child rest v) (fun child' =>
        setProp last1 k child'))
    end)).
Proof. reflexivity. Qed.

Lemma createObjectFromPath_cons last part rest v last' :
  createObjectFromPath last (part :: rest) v = Ok last' ->
  exists own last1,
    hasOwnProperty last (NamePathPart.value part) = Ok own
    /\ (if own then Ok last
        else setProp last (NamePathPart.value part) (freshSlot rest)) = Ok last1
    /\ match rest with
       | [] => setProp last1 (NamePathPart.value part) v = Ok last'
       | _ :: _ =>
           exists child child',
             getProp last1 (NamePathPart.value part) = Ok child
             /\ createObjectFromPath child rest v = Ok child'
             /\ setProp last1 (NamePathPart.value part) child' = Ok last'
       end.
Proof.
  intros H. rewrite createObjectFromPath_eq in H. cbv zeta in H.
  set (k := NamePathPart.value part) in *.
  destruct (hasOwnProperty last k) as [own|h]; cbn [rbind] in H; [|discriminate].
  destruct (if own then Ok last else setProp last k (freshSlot rest))
    as [last1|h] eqn:E1; cbn [rbind] in H; [|discriminate].
  exists own, last1. split; [reflexivity|]. split; [exact E1|].
  destruct rest as [|next rest']; [exact H|].
  destruct (getProp last1 k) as [child|h]; cbn [rbind] in H; [|discriminate].
  destruct (createObjectFromPath child (next :: rest') v) as [child'|h] eqn:E2;
    cbn [rbind] in H; [|discriminate].
  exists child, child'. auto.
Qed.

Lemma numeric_not_length s : isNaN_Number s = false -> (s =? "length") = false.
Proof.
  intros H. destruct (s =? "length") eqn:E; [|reflexivity].
  apply String.eqb_eq in E. subst s. discriminate.
Qed.

(** ** One step of the walk inside the form *)

Lemma tree_set_member m k x o' :
  Tree.set (Tree.Member m) k x = Ok o' ->
  o' = Tree.Member m /\ Tree.readOnly m = true.
Proof.
  simpl. destruct (Tree.readOnly m); [|discriminate]. now intros [= <-].
Qed.

Lemma tree_set_kind o k x o' :
  Tree.set o k x = Ok o' ->
  madeArray o' = madeArray o /\ madeObject o' = madeObject o.
Proof.
  destruct o as [m|props|elems named]; simpl.
  - destruct (Tree.readOnly m); [|discriminate]. now intros [= <-].
  - destruct ((k =? "__proto__") && negb (Props.has k props)); [discriminate|].
    now intros [= <-].
  - destruct ((k =? "__proto__") && negb (Props.has k named)); [discriminate|].
    destruct (asArrayIndex k); [now intros [= <-]|].
    destruct (k =? "length"); [discriminate|]. now intros [= <-].
Qed.

Lemma tree_set_own o k x o' :
  madeArray o || madeObject o = true ->
  Tree.set o k x = Ok o' ->
  Tree.own o' k = Some x.
Proof.
  destruct o as [m|props|elems named]; simpl; [discriminate| |]; intros _.
  - destruct ((k =? "__proto__") && negb (Props.has k props)); [discriminate|].
    intros [= <-]. simpl. apply PropsFacts.get_set_same.
  - destruct ((k =? "__proto__") && negb (Props.has k named)); [discriminate|].
    destruct (asArrayIndex k) as [n|] eqn:I.
    + intros [= <-]. simpl. rewrite I. now rewrite nth_error_setNth_same.
    + destruct (k =? "length") eqn:L; [discriminate|].
      intros [= <-]. simpl. rewrite I, L. apply PropsFacts.get_set_same.
Qed.

Lemma tree_set_back o k c o' :
  Tree.own o k = Some c -> Tree.set o k c = Ok o' -> o' = o.
Proof.
  destruct o as [m|props|elems named]; simpl.
  - intros _. destruct (Tree.readOnly m); [|discriminate]. now intros [= <-].
  - intros Hc.
    destruct ((k =? "__proto__") && negb (Props.has k props)); [discriminate|].
    intros [= <-]. now rewrite (@set_present _ _ _ _ Hc).
  - destruct ((k =? "__proto__") && negb (Props.has k named)); [discriminate|].
    destruct (asArrayIndex k) as [n|].
    + destruct (nth_error elems (N.to_nat n)) as [[c0|]|] eqn:E; try discriminate.
      intros [= <-] [= <-]. now rewrite (@setNth_present _ _ _ _ _ E).
    + destruct (k =? "length"); [discriminate|].
      intros Hc [= <-]. now rewrite (@set_present _ _ _ _ Hc).
Qed.

Lemma tree_hasOwn o k b :
  Tree.hasOwn o k = Ok b ->
  b = match Tree.own o k with Some _ => true | None => false end.
Proof.
  unfold Tree.hasOwn. destruct (Tree.noMethod o); [discriminate|].
  now intros [= <-].
Qed.

Lemma tree_get_own o k c : Tree.own o k = Some c -> Tree.get o k = Ok c.
Proof.
  intros H. unfold Tree.get. rewrite H.
  destruct o as [[| | | | | |]| |]; try reflexivity; discriminate.
Qed.

Lemma walk_eq last part rest v :
  Tree.createObjectFromPath last (part :: rest) v
  = let k := NamePathPart.value part in
    rbind (Tree.hasOwn last k) (fun isOwn =>
    rbind (if isOwn then Ok last else Tree.set last k (Tree.freshSlot rest))
          (fun last1 =>
    match rest with
    | [] => Tree.set last1 k (Tree.Member v)
    | _ :: _ =>
        rbind (Tree.get last1 k) (fun child =>
        rbind (Tree.createObjectFromPath child rest v) (fun child' =>
        Tree.set last1 k child'))
    end)).
Proof. reflexivity. Qed.

Lemma walk_cons last part rest v last' :
  Tree.createObjectFromPath last (part :: rest) v = Ok last' ->
  exists isOwn last1,
    Tree.hasOwn last (NamePathPart.value part) = Ok isOwn
    /\ (if isOwn then Ok last
        else Tree.set last (NamePathPart.value part) (Tree.freshSlot rest))
       = Ok last1
    /\ match rest with
       | [] => Tree.set last1 (NamePathPart.value part) (Tree.Member v) = Ok last'
       | _ :: _ =>
           exists child child',
             Tree.get last1 (NamePathPart.value part) = Ok child
             /\ Tree.createObjectFromPath child rest v = Ok child'
             /\ Tree.set last1 (NamePathPart.value part) child' = Ok last'
       end.
Proof.
  intros H. rewrite walk_eq in H. cbv zeta in H.
  set (k := NamePathPart.value part) in *.
  destruct (Tree.hasOwn last k) as [isOwn|h]; cbn [rbind] in H; [|discriminate].
  destruct (if isOwn then Ok last else Tree.set last k (Tree.freshSlot rest))
    as [last1|h] eqn:E1; cbn [rbind] in H; [|discriminate].
  exists isOwn, last1. split; [reflexivity|]. split; [exact E1|].
  destruct rest as [|next rest']; [exact H|].
  destruct (Tree.get last1 k) as [child|h]; cbn [rbind] in H; [|discriminate].
  destruct (Tree.createObjectFromPath child (next :: rest') v) as [child'|h] eqn:E2;
    cbn [rbind] in H; [|discriminate].
  exists child, child'. auto.
Qed.

Lemma metMember_made o part rest :
  madeArray o || madeObject o = true ->
  metMember o (part :: rest)
  = match Tree.own o (NamePathPart.value part) with
    | Some c => metMember c rest
    | None => None
    end.
Proof. destruct o; [discriminate | reflexivity | reflexivity]. Qed.

Lemma metMember_fresh rest path m :
  metMember (Tree.freshSlot rest) path = Some m -> Tree.readOnly m = false.
Proof.
  destruct path as [|part path']; [discriminate|].
  assert (A : metMember (Tree.Arr [] []) (part :: path') = Some m ->
              Tree.readOnly m = false).
  { simpl. destruct (asArrayIndex (NamePathPart.value part)) as [n|].
    - now destruct (N.to_nat n).
    - destruct (NamePathPart.value part =? "length"); [|discriminate].
      destruct path'; [discriminate|]. now intros [= <-]. }
  destruct rest as [|next rest']; [discriminate|]. simpl Tree.freshSlot.
  destruct (NamePathPart.arrayIndex next); [exact A | discriminate].
Qed.

Lemma freshSlot_made rest :
  madeArray (Tree.freshSlot rest) || madeObject (Tree.freshSlot rest) = true.
Proof.
  destruct rest as [|next rest']; [reflexivity|]. simpl.
  now destruct (NamePathPart.arrayIndex next).
Qed.

(** The walk of a path that is not empty ends in an assignment to where it
    began. *)
Lemma walk_member m part rest v o' :
  Tree.createObjectFromPath (Tree.Member m) (part :: rest) v = Ok o' ->
  Tree.readOnly m = true /\ o' = Tree.Member m.
Proof.
  intros H. apply walk_cons in H. destruct H as (isOwn & o1 & _ & H1 & H).
  assert (E1 : o1 = Tree.Member m).
  { destruct isOwn; [now injection H1 as <-|].
    now apply tree_set_member in H1 as [-> _]. }
  subst o1. destruct rest as [|next rest'].
  - apply tree_set_member in H. tauto.
  - destruct H as (c & c' & _ & _ & H). apply tree_set_member in H. tauto.
Qed.

Lemma walk_result path :
  forall o v o',
    Tree.createObjectFromPath o path v = Ok o' ->
    match metMember o path with
    | Some m => Tree.readOnly m = true /\ o' = o
    | None => Tree.readPath o' path = Ok (Tree.Member v) \/ path = []
    end.
Proof.
  induction path as [|part rest IH]; intros o v o' H; [now right|].
  destruct (madeArray o || madeObject o) eqn:W.
  2: { destruct o as [m| |]; try discriminate.
       apply walk_member in H. exact H. }
  rewrite (@metMember_made o part rest W).
  apply walk_cons in H. destruct H as (isOwn & o1 & Hown & H1 & H).
  set (k := NamePathPart.value part) in *.
  apply tree_hasOwn in Hown.
  assert (Hread : forall c r,
             Tree.own o' k = Some c ->
             Tree.readPath o' (part :: r) = Tree.readPath c r).
  { intros c r Hc. simpl. fold k. now rewrite (@tree_get_own _ _ _ Hc). }
  destruct (Tree.own o k) as [c0|] eqn:Ho; subst isOwn.
  - injection H1 as <-. destruct rest as [|next r].
    + left. rewrite (Hread (Tree.Member v) []); [reflexivity|].
      now apply (@tree_set_own _ _ _ _ W H).
    + destruct H as (c & c' & Hget & Hwalk & Hset).
      rewrite (@tree_get_own _ _ _ Ho) in Hget. injection Hget as <-.
      specialize (IH _ _ _ Hwalk).
      destruct (metMember c0 (next :: r)) as [m|].
      * destruct IH as [R ->]. split; [exact R|].
        now apply (@tree_set_back _ _ _ _ Ho) in Hset.
      * destruct IH as [IH|IH]; [|discriminate]. left.
        rewrite (Hread c' (next :: r)); [exact IH|].
        now apply (@tree_set_own _ _ _ _ W Hset).
  - assert (W1 : madeArray o1 || madeObject o1 = true).
    { apply tree_set_kind in H1. destruct H1 as [-> ->]. exact W. }
    left. destruct rest as [|next r].
    + rewrite (Hread (Tree.Member v) []); [reflexivity|].
      now apply (@tree_set_own _ _ _ _ W1 H).
    + destruct H as (c & c' & Hget & Hwalk & Hset).
      rewrite (@tree_get_own _ _ _ (@tree_set_own _ _ _ _ W H1)) in Hget.
      injection Hget as <-.
      change (if NamePathPart.arrayIndex next then Tree.Arr [] [] else Tree.Obj [])
        with (Tree.freshSlot (next :: r)) in Hwalk.
      specialize (IH _ _ _ Hwalk).
      destruct (metMember (Tree.freshSlot (next :: r)) (next :: r)) as [m|] eqn:M.
      * destruct IH as [R _]. apply metMember_fresh in M. congruence.
      * destruct IH as [IH|IH]; [|discriminate].
        rewrite (Hread c' (next :: r)); [exact IH|].
        now apply (@tree_set_own _ _ _ _ W1 Hset).
Qed.

Lemma walk_kind path o v o' :
  Tree.createObjectFromPath o path v = Ok o' ->
  madeArray o' = madeArray o /\ madeObject o' = madeObject o.
Proof.
  destruct path as [|part rest]; [now intros [= <-]|].
  intros H. apply walk_cons in H.
  destruct H as (isOwn & o1 & _ & H1 & H).
  assert (K1 : madeArray o1 = madeArray o /\ madeObject o1 = madeObject o).
  { destruct isOwn; [now injection H1 as <- | now apply tree_set_kind in H1]. }
  assert (K : madeArray o' = madeArray o1 /\ madeObject o' = madeObject o1).
  { destruct rest; [now apply tree_set_kind in H|].
    destruct H as (child & child' & _ & _ & H). now apply tree_set_kind in H. }
  destruct K, K1. split; congruence.
Qed.

Lemma walk_fills o part next rest v o' :
  madeArray o || madeObject o = true ->
  Tree.hasOwn o (NamePathPart.value part) = Ok false ->
  Tree.createObjectFromPath o (part :: next :: rest) v = Ok o' ->
  exists child,
    Tree.get o' (NamePathPart.value part) = Ok child
    /\ madeArray child = NamePathPart.arrayIndex next
    /\ madeObject child = negb (NamePathPart.arrayIndex next).
Proof.
  intros W Hown H. apply walk_cons in H.
  destruct H as (isOwn & o1 & Hown' & H1 & child & child' & Hget & Hwalk & Hset).
  rewrite Hown in Hown'. injection Hown' as <-.
  assert (W1 : madeArray o1 || madeObject o1 = true).
  { pose proof (@tree_set_kind _ _ _ _ H1) as [-> ->]. exact W. }
  rewrite (@tree_get_own _ _ _ (@tree_set_own _ _ _ _ W H1)) in Hget.
  injection Hget as <-.
  exists child'. split; [exact (@tree_get_own _ _ _ (@tree_set_own _ _ _ _ W1 Hset))|].
  apply walk_kind in Hwalk. destruct Hwalk as [-> ->].
  simpl. now destruct (NamePathPart.arrayIndex next).
Qed.

Lemma ownValue_primitive m k c :
  Tree.readOnly m = false -> Tree.ownValue m k = Some c ->
  Tree.readOnly c = false.
Proof.
  destruct m as [| | | |s| |]; simpl; try discriminate. intros _.
  destruct (asArrayIndex k) as [n|].
  - destruct (String.get (N.to_nat n) s); [|discriminate]. now intros [= <-].
  - destruct (k =? "length"); [|discriminate]. now intros [= <-].
Qed.

Lemma walk_primitive path :
  forall m v,
    Tree.readOnly m = false -> path <> [] ->
    Tree.createObjectFromPath (Tree.Member m) path v = Stop (Thrown TypeError).
Proof.
  induction path as [|part rest IH]; intros m v R Hne; [congruence|].
  rewrite walk_eq. cbv zeta. unfold Tree.hasOwn.
  destruct (Tree.noMethod (Tree.Member m)) eqn:N; [reflexivity|].
  cbn [rbind]. cbn [Tree.own].
  destruct (Tree.ownValue m (NamePathPart.value part)) as [c|] eqn:O.
  - cbn [rbind]. destruct rest as [|next rest']; [simpl; now rewrite R|].
    assert (G : Tree.get (Tree.Member m) (NamePathPart.value part)
                = Ok (Tree.Member c)).
    { apply tree_get_own. simpl. now rewrite O. }
    rewrite G. cbn [rbind].
    rewrite IH; [reflexivity | | discriminate].
    exact (@ownValue_primitive _ _ _ R O).
  - simpl. now rewrite R.
Qed.

Lemma walk_meets_primitive path :
  forall o v m,
    metMember o path = Some m -> Tree.readOnly m = false ->
    Tree.createObjectFromPath o path v = Stop (Thrown TypeError).
Proof.
  induction path as [|part rest IH]; intros o v m M R; [discriminate|].
  destruct (madeArray o || madeObject o) eqn:W.
  2: { destruct o as [m0| |]; try discriminate. injection M as ->.
       apply walk_primitive; [exact R | discriminate]. }
  rewrite (@metMember_made o part rest W) in M.
  destruct (Tree.own o (NamePathPart.value part)) as [c|] eqn:Ho; [|discriminate].
  rewrite walk_eq. cbv zeta. unfold Tree.hasOwn.
  destruct (Tree.noMethod o); [reflexivity|]. rewrite Ho. cbn [rbind].
  destruct rest as [|next r]; [discriminate|].
  rewrite (@tree_get_own _ _ _ Ho). cbn [rbind].
  now rewrite (IH c v m M R).
Qed.

Lemma tree_set_total o k x :
  madeArray o || madeObject o = true ->
  (k =? "__proto__") = false ->
  (madeArray o = true -> (k =? "length") = false) ->
  exists o', Tree.set o k x = Ok o'.
Proof.
  intros W Hp Hl.
  destruct o as [m|props|elems named]; try discriminate; simpl; rewrite Hp; simpl.
  - eauto.
  - destruct (asArrayIndex k); [eauto|]. rewrite (Hl eq_refl). eauto.
Qed.

Lemma tree_hasOwn_fresh o s :
  o = Tree.Obj [] \/ (o = Tree.Arr [] [] /\ isNaN_Number s = false) ->
  Tree.hasOwn o s = Ok false.
Proof.
  intros [-> | [-> Hnum]]; unfold Tree.hasOwn; simpl; [reflexivity|].
  rewrite (numeric_not_length _ Hnum).
  destruct (asArrayIndex s) as [n|]; [|reflexivity].
  now destruct (N.to_nat n).
Qed.

Lemma tree_freshSlot_fresh rest :
  Tree.freshSlot (map partOf rest) = Tree.Obj []
  \/ (Tree.freshSlot (map partOf rest) = Tree.Arr [] []
      /\ match rest with s :: _ => isNaN_Number s = false | [] => True end).
Proof.
  destruct rest as [|q rest']; simpl; [now left|].
  destruct (isNaN_Number q); simpl; [now left | right; auto].
Qed.

Lemma walk_fresh segs v :
  ~ In "__proto__" segs ->
  forall o,
    o = Tree.Obj []
    \/ (o = Tree.Arr [] []
        /\ match segs with s :: _ => isNaN_Number s = false | [] => True end) ->
    exists o', Tree.createObjectFromPath o (map partOf segs) v = Ok o'.
Proof.
  induction segs as [|s rest IH]; intros Hnp o Ho; [now exists o|].
  assert (Hp : (s =? "__proto__") = false).
  { apply String.eqb_neq. intros ->. apply Hnp. now left. }
  assert (Hrest : ~ In "__proto__" rest) by (intros H; apply Hnp; now right).
  assert (Hl : madeArray o = true -> (s =? "length") = false).
  { destruct Ho as [-> | [-> Hnum]]; [discriminate|].
    intros _. now apply numeric_not_length. }
  assert (W : madeArray o || madeObject o = true)
    by (destruct Ho as [-> | [-> _]]; reflexivity).
  change (map partOf (s :: rest)) with (partOf s :: map partOf rest).
  rewrite walk_eq. cbv zeta.
  change (NamePathPart.value (partOf s)) with s.
  rewrite (@tree_hasOwn_fresh o s Ho). cbn [rbind].
  destruct (IH Hrest _ (tree_freshSlot_fresh rest)) as [child' Hw].
  destruct (@tree_set_total o s (Tree.freshSlot (map partOf rest)) W Hp Hl)
    as [o1 H1].
  rewrite H1. cbn [rbind].
  pose proof (@tree_set_kind _ _ _ _ H1) as [KA KO].
  assert (W1 : madeArray o1 || madeObject o1 = true) by (now rewrite KA, KO).
  assert (Hl1 : madeArray o1 = true -> (s =? "length") = false)
    by (rewrite KA; exact Hl).
  destruct (map partOf rest) as [|p path'].
  - now apply tree_set_total.
  - rewrite (@tree_get_own _ _ _ (@tree_set_own _ _ _ _ W H1)). cbn [rbind].
    rewrite Hw. cbn [rbind]. now apply tree_set_total.
Qed.

(** C5, as amended.  The projection walks the path of each field in turn,
    into the object built so far.  Where the walk goes through slots that
    are absent or hold what an earlier walk has made, it fills every absent
    slot with an array when the next segment is an index and with an object
    otherwise, and writes the member at the final segment, where the path
    reads it back; so a walk from the empty object returns for every name
    (one without a [__proto__] piece).  Where the walk comes to the member of
    an earlier field with a piece of the path to go, it throws when that
    member is not an object or an array, and writes nothing when it is: the
    store hands those out read-only.  The fields ["a.b"] = 1 and ["a.c"] = 2
    project to [{ a: { b: 1, c: 2 } }], ["items.0"] = "x" and
    ["items.1"] = "y" to [{ items: ["x", "y"] }], and ["tags"] = ["a", "b"]
    with ["tags.0"] = "z" to [{ tags: ["a", "b"] }]. *)
Theorem createObjectFromPath_spec :
  (forall o part rest v o',
      Tree.createObjectFromPath o (part :: rest) v = Ok o' ->
      match metMember o (part :: rest) with
      | Some m => Tree.readOnly m = true /\ o' = o
      | None => Tree.readPath o' (part :: rest) = Ok (Tree.Member v)
      end)
  /\ (forall o part next rest v o',
        madeArray o || madeObject o = true ->
        Tree.hasOwn o (NamePathPart.value part) = Ok false ->
        Tree.createObjectFromPath o (part :: next :: rest) v = Ok o' ->
        exists child,
          Tree.get o' (NamePathPart.value part) = Ok child
          /\ madeArray child = NamePathPart.arrayIndex next
          /\ madeObject child = negb (NamePathPart.arrayIndex next))
  /\ (forall name v,
        ~ In "__proto__" (split_dot name) ->
        exists o,
          Tree.createObjectFromPath (Tree.Obj []) (analyzeNamePath name) v = Ok o
          /\ Tree.readPath o (analyzeNamePath name) = Ok (Tree.Member v))
  /\ (forall o path v m,
        metMember o path = Some m ->
        Tree.readOnly m = false ->
        Tree.createObjectFromPath o path v = Stop (Thrown TypeError))
  /\ (forall memberKey key field rest object,
        projectInto object memberKey ((key, field) :: rest)
        = rbind (Tree.createObjectFromPath object (path field)
                                           (member memberKey field))
                (fun object' => projectInto object' memberKey rest))
  /\ (forall memberKey d,
        extractFieldsMember memberKey d
        = rbind (projectInto (Tree.Obj []) memberKey d) (fun object =>
          Ok (Tree.toValue object)))
  /\ extractFieldsMember MValue dataAB
     = Ok (VObj [("a", VObj [("b", VNum 1); ("c", VNum 2)])])
  /\ extractFieldsMember MValue dataItems
     = Ok (VObj [("items", arrayOf [VStr "x"; VStr "y"])])
  /\ extractFieldsMember MValue dataTags
     = Ok (VObj [("tags", arrayOf [VStr "a"; VStr "b"])]).
Proof.
  split.
  { intros o part rest v o' H. pose proof (@walk_result _ _ _ _ H) as R.
    destruct (metMember o (part :: rest)); [exact R|].
    destruct R as [R|R]; [exact R | discriminate]. }
  split; [exact walk_fills|].
  split.
  { intros name v Hnp.
    destruct (@walk_fresh (split_dot name) v Hnp (Tree.Obj []) (or_introl eq_refl))
      as [o Hw].
    exists o. split; [exact Hw|].
    pose proof (@walk_result _ _ _ _ Hw) as R.
    change (analyzeNamePath name) with (map partOf (split_dot name)).
    destruct (map partOf (split_dot name)) as [|part rest] eqn:E.
    - destruct name as [|c r]; simpl in E; [discriminate|].
      destruct (Ascii.eqb c "."); [discriminate|].
      destruct (split_dot r); discriminate.
    - simpl in R. destruct R as [R|R]; [exact R | discriminate]. }
  split; [intros o path v m; now apply walk_meets_primitive|].
  repeat split; reflexivity.
Qed.

(** The walk of ["a.b"] from the empty object, read back. *)
Lemma createObjectFromPath_spec_witness :
  Tree.createObjectFromPath (Tree.Obj []) (analyzeNamePath "a.b") (VNum 1)
  = Ok (Tree.Obj [("a", Tree.Obj [("b", Tree.Member (VNum 1))])])
  /\ Tree.readPath (Tree.Obj [("a", Tree.Obj [("b", Tree.Member (VNum 1))])])
                   (analyzeNamePath "a.b")
     = Ok (Tree.Member (VNum 1)).
Proof.
  split; [reflexivity|].
  exact (proj1 createObjectFromPath_spec (Tree.Obj []) (partOf "a") [partOf "b"]
               (VNum 1) (Tree.Obj [("a", Tree.Obj [("b", Tree.Member (VNum 1))])])
               eq_refl).
Defined.

(** C5 as stated fails for the store with the fields ["a"] = 1 and
    ["a.b"] = 2: each of them projects alone, but the walk of ["a.b"] finds
    the number 1 in the slot ["a"] and throws, so its member is not
    written. *)
Lemma nested_names_do_not_project :
  extractFieldsMember MValue [("a", newField "a" None (VNum 1) [])]
  = Ok (VObj [("a", VNum 1)])
  /\ extractFieldsMember MValue [("a.b", newField "a.b" None (VNum 2) [])]
     = Ok (VObj [("a", VObj [("b", VNum 2)])])
  /\ extractFieldsMember MValue dataNested = Stop (Thrown TypeError).
Proof. repeat split; reflexivity. Qed.

(* ================================================================== *)
(** * Dirtiness *)

Module SetFacts.
Section Table.
Variable V : Type.
Implicit Types (k : string) (v : V) (l : list (string * V)).

Lemma in_insertIndex n k v l x :
  In x (Props.insertIndex n k v l) <-> x = (k, v) \/ In x l.
Proof.
  induction l as [|[k' v'] r IH]; simpl.
  - intuition.
  - destruct (Props.indexBelow n k'); simpl; [rewrite IH|]; intuition.
Qed.

Lemma replace_same k v l :
  (forall v0, In (k, v0) l -> v0 = v) -> Props.replace k v l = l.
Proof.
  induction l as [|[k' v'] r IH]; simpl; intros H; [reflexivity|].
  destruct (k' =? k) eqn:E.
  - apply String.eqb_eq in E. subst k'.
    now rewrite (H v' (or_introl eq_refl)).
  - f_equal. apply IH. intros v0 Hin. apply H. now right.
Qed.

Lemma in_set k v l x :
  (forall v0, In (k, v0) l -> v0 = v) ->
  In x (Props.set k v l) <-> x = (k, v) \/ In x l.
Proof.
  intros H. unfold Props.set, Props.has.
  destruct (Props.get k l) as [v0|] eqn:G.
  - rewrite (replace_same _ _ H).
    apply PropsFacts.get_in in G. rewrite (H v0 G) in G.
    split; [auto | intros [-> | Hin]; auto].
  - destruct (asArrayIndex k).
    + apply in_insertIndex.
    + rewrite in_app_iff. simpl. intuition.
Qed.

End Table.
End SetFacts.

Lemma dirty_entries stableHash d initialData keys acc :
  (forall key b, In (key, b) acc ->
                 b = Snapshot.isFieldDirty stableHash d initialData key) ->
  forall key b,
    In (key, b)
       (fold_left (fun dirtyFields key =>
                     Props.set key
                       (Snapshot.isFieldDirty stableHash d initialData key)
                       dirtyFields) keys acc)
    <-> (In (key, b) acc
         \/ (In key keys
             /\ b = Snapshot.isFieldDirty stableHash d initialData key)).
Proof.
  revert acc. induction keys as [|k rest IH]; intros acc Hacc key b; simpl.
  - intuition.
  - rewrite IH.
    + rewrite SetFacts.in_set by (intros v0 Hin; now apply Hacc).
      split.
      * intros [[[= -> ->] | Hin] | [Hin ->]]; auto.
      * intros [Hin | [[-> | Hin] ->]]; auto.
    + intros key' b' Hin.
      apply SetFacts.in_set in Hin; [|intros v0 Hin0; now apply Hacc].
      destruct Hin as [[= -> ->] | Hin]; [reflexivity | now apply Hacc].
Qed.

Lemma isDirty_iff stableHash d initialData :
  Snapshot.isDirty stableHash d initialData = true
  <-> exists key,
      In key (Props.keys d)
      /\ Snapshot.isFieldDirty stableHash d initialData key = true.
Proof.
  unfold Snapshot.isDirty, Snapshot.dirty. rewrite existsb_exists. split.
  - intros [[key b] [Hin Hb]]. simpl in Hb. subst b.
    apply dirty_entries in Hin; [|intros ? ? []].
    destruct Hin as [[] | [Hin Hb]]. eauto.
  - intros [key [Hin Hb]]. exists (key, true). split; [|reflexivity].
    apply dirty_entries; [intros ? ? []|]. right. auto.
Qed.

(** C6, as amended.  In the draft with [isFieldDirty] a registered field
    with an entry in the snapshot is dirty exactly when [stableHash] tells
    its value from the entry (so, for a hash that separates the two values,
    exactly when they differ); a registered field without an entry is dirty
    exactly when its value is not loosely equal ([==]) to the empty string,
    which the empty string, zero, [false] and an empty array all are; a name
    that is not registered is not dirty; the form is dirty exactly when some
    field is. *)
Theorem isFieldDirty_spec :
  forall stableHash d initialData name field,
    Props.get name d = Some field ->
    (forall initial,
        Props.get name initialData = Some initial ->
        (Snapshot.isFieldDirty stableHash d initialData name = true
         <-> stableHash initial <> stableHash (value field))
        /\ ((stableHash initial = stableHash (value field)
             <-> initial = value field) ->
            (Snapshot.isFieldDirty stableHash d initialData name = true
             <-> initial <> value field)))
    /\ (Props.get name initialData = None ->
        (Snapshot.isFieldDirty stableHash d initialData name = true
         <-> looseEqEmptyString (value field) = false))
    /\ (forall s, looseEqEmptyString (VStr s) = true <-> s = "")
    /\ (forall n, looseEqEmptyString (VNum n) = PrimFloat.is_zero n)
    /\ (forall b, looseEqEmptyString (VBool b) = negb b)
    /\ looseEqEmptyString (arrayOf []) = true
    /\ looseEqEmptyString VNull = false
    /\ looseEqEmptyString VUndefined = false
    /\ (forall other,
          Props.get other d = None ->
          Snapshot.isFieldDirty stableHash d initialData other = false)
    /\ (Snapshot.isDirty stableHash d initialData = true
        <-> exists key,
            In key (Props.keys d)
            /\ Snapshot.isFieldDirty stableHash d initialData key = true).
Proof.
  intros stableHash d initialData name field Hget.
  assert (Hhash : forall initial,
             Props.get name initialData = Some initial ->
             Snapshot.isFieldDirty stableHash d initialData name = true
             <-> stableHash initial <> stableHash (value field)).
  { intros initial Hinit. unfold Snapshot.isFieldDirty. rewrite Hget, Hinit.
    rewrite negb_true_iff. apply String.eqb_neq. }
  split; [|split; [|split; [|split; [|split; [|split; [|split; [|split; [|split]]]]]]]].
  - intros initial Hinit. split; [now apply Hhash|].
    intros Hsep. rewrite (Hhash initial Hinit), Hsep. reflexivity.
  - intros Hinit. unfold Snapshot.isFieldDirty. rewrite Hget, Hinit.
    apply negb_true_iff.
  - intros s. simpl. apply String.eqb_eq.
  - reflexivity.
  - reflexivity.
  - reflexivity.
  - reflexivity.
  - reflexivity.
  - intros other Hother. unfold Snapshot.isFieldDirty. now rewrite Hother.
  - apply isDirty_iff.
Qed.

(** P6: with the snapshot [{ email: "a@x.com" }] the field is clean while
    its value is ["a@x.com"] and dirty once it is ["b@x.com"]. *)
Lemma isFieldDirty_spec_witness :
  Snapshot.isFieldDirty sampleHash (dataEmail (VStr "a@x.com")) emailSnapshot
                        "email" = false
  /\ (Snapshot.isFieldDirty sampleHash (dataEmail (VStr "b@x.com")) emailSnapshot
                            "email" = true
      <-> VStr "a@x.com" <> VStr "b@x.com").
Proof.
  split; [reflexivity|].
  refine (proj2 (proj1 (@isFieldDirty_spec sampleHash (dataEmail (VStr "b@x.com"))
                          emailSnapshot "email"
                          (newField "email" None (VStr "b@x.com") []) eq_refl)
                       (VStr "a@x.com") eq_refl) _).
  split; discriminate.
Defined.

(** C6 as stated fails for a value that is not the empty string but is
    loosely equal to it: an unticked checkbox outside the snapshot holds
    [false] and is not dirty, and neither is the form. *)
Lemma unticked_checkbox_is_not_dirty :
  Props.get "agree" dataCheckbox = Some (newField "agree" None (VBool false) [])
  /\ Props.get "agree" emailSnapshot = None
  /\ VBool false <> VStr ""
  /\ Snapshot.isFieldDirty sampleHash dataCheckbox emailSnapshot "agree" = false
  /\ Snapshot.isDirty sampleHash dataCheckbox emailSnapshot = false.
Proof. repeat split; try reflexivity. discriminate. Qed.

(* ================================================================== *)
(** * The earlier draft's [isFormDirty] *)

Example setValuesFromObject_sample :
  Legacy.setValuesFromObject
    (VObj [("user", VObj [("name", VStr "Ada"); ("tags", arrayOf [VStr "x"; VNull; VStr "z"])]);
           ("age", VNum 36); ("gone", VUndefined)]) "" []
  = [("user.name", VStr "Ada"); ("user.tags.0", VStr "x");
     ("user.tags.2", VStr "z"); ("age", VNum 36)].
Proof. reflexivity. Qed.

(** With a snapshot that is not empty the earlier draft looks at the names
    of the snapshot only: a field outside it does not make the form dirty,
    whatever its value. *)
Lemma isFormDirty_outside_snapshot looseNotEqual :
  looseNotEqual (VStr "a@x.com") (VStr "a@x.com") = false ->
  Legacy.isFormDirty looseNotEqual dataEmailAndName (VObj emailSnapshot) = false.
Proof.
  intros H. unfold Legacy.isFormDirty. simpl. now rewrite H.
Qed.

(* ================================================================== *)
(** * Names and their paths *)

Lemma split_dot_nonempty s : split_dot s <> [].
Proof.
  destruct s as [|c r]; simpl; [discriminate|].
  destruct (Ascii.eqb c "."); [discriminate|].
  destruct (split_dot r); discriminate.
Qed.

Lemma concat_split_dot s : String.concat "." (split_dot s) = s.
Proof.
  induction s as [|c r IH]; simpl; [reflexivity|].
  destruct (Ascii.eqb c ".") eqn:E.
  - apply Ascii.eqb_eq in E. subst c.
    destruct (split_dot r) as [|h t] eqn:S; [now destruct (split_dot_nonempty r)|].
    simpl in *. now rewrite IH.
  - destruct (split_dot r) as [|h t] eqn:S; [now destruct (split_dot_nonempty r)|].
    destruct t; simpl in *; now rewrite IH.
Qed.

Lemma length_split_dot s : length (split_dot s) = S (dots s).
Proof.
  induction s as [|c r IH]; simpl; [reflexivity|].
  destruct (Ascii.eqb c "."); simpl; [now rewrite IH|].
  destruct (split_dot r); simpl in *; congruence.
Qed.

Lemma split_dot_no_dot s seg : In seg (split_dot s) -> dots seg = 0.
Proof.
  revert seg. induction s as [|c r IH]; simpl; intros seg H.
  - destruct H as [<-|[]]. reflexivity.
  - destruct (Ascii.eqb c ".") eqn:E.
    + destruct H as [<-|H]; [reflexivity | now apply IH].
    + destruct (split_dot r) as [|h t]; simpl in H.
      * destruct H as [<-|[]]. simpl. now rewrite E.
      * destruct H as [<-|H].
        -- simpl. rewrite E. apply IH. now left.
        -- apply IH. now right.
Qed.

(** X1.  [analyzeNamePath] cuts a name at its dots and loses nothing: the
    values of the parts, joined by dots, are the name again; there is one
    part more than the name has dots (so a path is never empty), and no
    part has a dot in it. *)
Theorem analyzeNamePath_round_trip :
  forall name,
    String.concat "." (map NamePathPart.value (analyzeNamePath name)) = name
    /\ length (analyzeNamePath name) = S (dots name)
    /\ (forall part,
          In part (analyzeNamePath name) -> dots (NamePathPart.value part) = 0).
Proof.
  intros name. unfold analyzeNamePath. rewrite map_map. simpl.
  rewrite map_id, length_map. repeat split.
  - apply concat_split_dot.
  - apply length_split_dot.
  - intros part H. apply in_map_iff in H. destruct H as (seg & <- & H).
    simpl. now apply split_dot_no_dot with (s := name).
Qed.

Lemma dropWhiteSpace_last l c :
  isStrWhiteSpaceChar c = false ->
  dropWhiteSpace (l ++ [c]) = dropWhiteSpace l ++ [c].
Proof.
  intros H. induction l as [|x l IH]; simpl.
  - now rewrite H.
  - destruct (isStrWhiteSpaceChar x); [exact IH | reflexivity].
Qed.

Lemma trim_head c r :
  isStrWhiteSpaceChar c = false ->
  exists r', trim (c :: r) = c :: r'.
Proof.
  intros H. unfold trim. simpl dropWhiteSpace at 2. rewrite H.
  simpl rev at 2. rewrite dropWhiteSpace_last by exact H.
  rewrite rev_app_distr. simpl. eauto.
Qed.

Lemma digit_not_space c : isDecimalDigit c = true -> isStrWhiteSpaceChar c = false.
Proof.
  unfold isDecimalDigit, isStrWhiteSpaceChar. intros H.
  apply andb_true_iff in H. destruct H as [H1 H2].
  apply N.leb_le in H1. apply N.leb_le in H2.
  repeat (apply orb_false_iff; split).
  - apply andb_false_iff. right. apply N.leb_gt. lia.
  - apply N.eqb_neq. lia.
  - apply N.eqb_neq. lia.
Qed.

Lemma trim_digits l :
  forallb isDecimalDigit l = true -> trim l = l.
Proof.
  intros H. unfold trim.
  assert (D : forall l, forallb isDecimalDigit l = true -> dropWhiteSpace l = l).
  { intros [|c r] Hl; simpl; [reflexivity|].
    simpl in Hl. apply andb_true_iff in Hl. destruct Hl as [Hc _].
    now rewrite (digit_not_space c Hc). }
  rewrite (D l H). rewrite D; [apply rev_involutive|].
  rewrite forallb_forall in *. intros x Hx. apply H. now apply in_rev.
Qed.

Lemma spanDigits_digits l :
  forallb isDecimalDigit l = true ->
  exists ds, spanDigits 10 l = (ds, []) /\ length ds = length l.
Proof.
  induction l as [|c r IH]; simpl; intros H.
  - exists []. auto.
  - apply andb_true_iff in H. destruct H as [Hc Hr].
    destruct (IH Hr) as [ds [E L]]. rewrite E.
    assert (Hd : exists d, digitIn 10 c = Some d).
    { unfold isDecimalDigit in Hc. apply andb_true_iff in Hc. destruct Hc as [H1 H2].
      apply N.leb_le in H1. apply N.leb_le in H2.
      unfold digitIn.
      replace ((48 <=? Z.of_N (code c))%Z && (Z.of_N (code c) <=? 57)%Z) with true.
      - replace (Z.of_N (code c) - 48 <? 10)%Z with true; [eauto|].
        symmetry. apply Z.ltb_lt. lia.
      - symmetry. apply andb_true_iff. split; apply Z.leb_le; lia. }
    destruct Hd as [d Hd]. rewrite Hd. exists (d :: ds). simpl. now rewrite L.
Qed.

Lemma classifyDecimal_number m e : classifyDecimal m e <> IsNaN.
Proof.
  unfold classifyDecimal.
  destruct (m =? 0)%Z; [discriminate|].
  destruct (0 <=? e)%Z; [discriminate|].
  destruct (m * 2 ^ 1075 <=? 10 ^ (- e))%Z; discriminate.
Qed.

Lemma parseUnsignedDecimal_digits c r :
  forallb isDecimalDigit (c :: r) = true ->
  parseUnsignedDecimal (c :: r) <> IsNaN.
Proof.
  intros H. unfold parseUnsignedDecimal.
  destruct (list_eq_dec ascii_dec (c :: r) (list_ascii_of_string "Infinity")) as [E|_].
  - discriminate.
  - destruct (spanDigits_digits (c :: r) H) as [ds [E L]]. rewrite E.
    rewrite app_nil_r. destruct ds as [|d ds]; [discriminate L|].
    simpl. apply classifyDecimal_number.
Qed.

Lemma isNaN_Number_digits s :
  forallb isDecimalDigit (list_ascii_of_string s) = true ->
  isNaN_Number s = false.
Proof.
  intros H. unfold isNaN_Number, StringToNumber. rewrite (trim_digits _ H).
  destruct (list_ascii_of_string s) as [|c r]; [reflexivity|].
  assert (P := parseUnsignedDecimal_digits c r H).
  assert (Hc : isDecimalDigit c = true)
    by (simpl in H; now apply andb_true_iff in H).
  destruct r as [|p r].
  - destruct c as [[] [] [] [] [] [] [] []]; try discriminate Hc;
      (destruct (parseUnsignedDecimal _); [now destruct P | reflexivity | reflexivity]).
  - assert (Hp : isDecimalDigit p = true).
    { simpl in H. apply andb_true_iff in H. destruct H as [_ H].
      now apply andb_true_iff in H. }
    assert (R : radixOfPrefix p = None).
    { destruct p as [[] [] [] [] [] [] [] []]; try discriminate Hp; reflexivity. }
    destruct c as [[] [] [] [] [] [] [] []]; try discriminate Hc;
      try rewrite R;
      (destruct (parseUnsignedDecimal _); [now destruct P | reflexivity | reflexivity]).
Qed.

Lemma isNaN_Number_name c r :
  leadsNoNumber c = true -> isNaN_Number (String c r) = true.
Proof.
  intros H. unfold isNaN_Number, StringToNumber.
  assert (W : isStrWhiteSpaceChar c = false).
  { destruct (isStrWhiteSpaceChar c) eqn:W; [|reflexivity].
    unfold leadsNoNumber in H. rewrite W in H. discriminate H. }
  destruct (trim_head c (list_ascii_of_string r) W) as [r' E].
  simpl list_ascii_of_string. rewrite E. clear E W.
  assert (P : parseUnsignedDecimal (c :: r') = IsNaN).
  { unfold parseUnsignedDecimal.
    destruct (list_eq_dec ascii_dec (c :: r') (list_ascii_of_string "Infinity")) as [E|_].
    - injection E as E _. subst c. discriminate H.
    - destruct c as [[] [] [] [] [] [] [] []]; try discriminate H; reflexivity. }
  destruct c as [[] [] [] [] [] [] [] []]; try discriminate H;
    try (rewrite P; reflexivity).
Qed.

(** X2.  The flag [arrayIndex] of a part of a path: a part written in
    decimal digits only, the empty part among them, is taken for an array
    index; a part that begins with a code unit no numeric literal begins
    with (a letter other than [I], an underscore, ...) is not. *)
Theorem analyzeNamePath_index_flag :
  forall name part,
    In part (analyzeNamePath name) ->
    (forallb isDecimalDigit (list_ascii_of_string (NamePathPart.value part)) = true ->
     NamePathPart.arrayIndex part = true)
    /\ (forall c r,
          NamePathPart.value part = String c r ->
          leadsNoNumber c = true ->
          NamePathPart.arrayIndex part = false).
Proof.
  intros name part H. unfold analyzeNamePath in H.
  apply in_map_iff in H. destruct H as (seg & <- & _). simpl. split.
  - intros D. now rewrite isNaN_Number_digits.
  - intros c r -> L. now rewrite isNaN_Number_name.
Qed.

Lemma analyzeNamePath_index_flag_witness :
  NamePathPart.arrayIndex (partOf "12") = true
  /\ NamePathPart.arrayIndex (partOf "items") = false.
Proof.
  destruct (analyzeNamePath_index_flag "items.12" (partOf "12")) as [D _];
    [simpl; auto|].
  destruct (analyzeNamePath_index_flag "items.12" (partOf "items")) as [_ L];
    [simpl; auto|].
  exact (conj (D eq_refl) (L "i"%char "tems" eq_refl eq_refl)).
Defined.

(* ================================================================== *)
(** * The projection of a form of flat names *)

Lemma split_dot_flat k : dots k = 0 -> split_dot k = [k].
Proof.
  induction k as [|c r IH]; simpl; [reflexivity|].
  destruct (Ascii.eqb c "."); [discriminate|].
  intros H. now rewrite (IH H).
Qed.

Lemma analyzeNamePath_flat k : dots k = 0 -> analyzeNamePath k = [partOf k].
Proof. intros H. unfold analyzeNamePath. now rewrite (split_dot_flat k H). Qed.

Lemma walk_flat props k v :
  Props.has "hasOwnProperty" props = false ->
  (k =? "__proto__") = false ->
  exists props',
    Tree.createObjectFromPath (Tree.Obj props) [partOf k] v = Ok (Tree.Obj props')
    /\ forall k', Props.get k' props'
                  = if k =? k' then Some (Tree.Member v) else Props.get k' props.
Proof.
  intros Hown Hproto.
  rewrite walk_eq. unfold Tree.hasOwn. simpl. rewrite Hown. simpl.
  destruct (Props.get k props) eqn:Hk; simpl; rewrite Hproto; simpl;
    rewrite ?Hproto; simpl.
  - eexists. split; [reflexivity|].
    intros k'. destruct (String.eqb_spec k k') as [<-|N].
    + apply PropsFacts.get_set_same.
    + now apply PropsFacts.get_set_other.
  - eexists. split; [reflexivity|].
    intros k'. destruct (String.eqb_spec k k') as [<-|N].
    + apply PropsFacts.get_set_same.
    + rewrite PropsFacts.get_set_other by exact N.
      now apply PropsFacts.get_set_other.
Qed.

Lemma projectInto_flat memberKey d :
  NoDup (Props.keys d) ->
  (forall k f, In (k, f) d -> flatName k = true /\ path f = analyzeNamePath k) ->
  forall props,
    Props.has "hasOwnProperty" props = false ->
    exists props',
      projectInto (Tree.Obj props) memberKey d = Ok (Tree.Obj props')
      /\ forall k, Props.get k props'
                   = match Props.get k d with
                     | Some f => Some (Tree.Member (member memberKey f))
                     | None => Props.get k props
                     end.
Proof.
  induction d as [|[key field] rest IH]; intros Hnd Hflat props Hown.
  - exists props. split; [reflexivity|]. reflexivity.
  - simpl in Hnd. inversion Hnd as [|? ? Hnotin Hnd']; subst.
    destruct (Hflat key field (or_introl eq_refl)) as [Hname Hpath].
    unfold flatName in Hname.
    apply andb_true_iff in Hname. destruct Hname as [Hname Hhop].
    apply andb_true_iff in Hname. destruct Hname as [Hdots Hproto].
    apply Nat.eqb_eq in Hdots. apply negb_true_iff in Hproto, Hhop.
    destruct (walk_flat props key (member memberKey field) Hown Hproto)
      as (props1 & Hstep & Hget1).
    assert (Hown1 : Props.has "hasOwnProperty" props1 = false).
    { unfold Props.has in *. rewrite Hget1. rewrite Hhop. exact Hown. }
    destruct (IH Hnd' (fun k f H => Hflat k f (or_intror H)) props1 Hown1)
      as (props' & Hrest & Hget').
    exists props'. split.
    + simpl. rewrite Hpath, (analyzeNamePath_flat key Hdots), Hstep. exact Hrest.
    + intros k. rewrite Hget'. simpl.
      destruct (String.eqb_spec key k) as [<-|N].
      * destruct (Props.get key rest) eqn:G.
        -- exfalso. apply Hnotin. apply PropsFacts.get_in_keys. now rewrite G.
        -- rewrite Hget1. now rewrite String.eqb_refl.
      * destruct (Props.get k rest); [reflexivity|].
        rewrite Hget1. apply String.eqb_neq in N. now rewrite N.
Qed.

(** A store of names without a dot projects, whatever its fields hold. *)
Lemma flat_store_projects d :
  NoDup (Props.keys d) ->
  (forall k f, In (k, f) d -> flatName k = true /\ path f = analyzeNamePath k) ->
  projects d.
Proof.
  intros Hnd Hflat. unfold projects, memosRun, extractFieldsMember.
  destruct (@projectInto_flat MValue d Hnd Hflat [] eq_refl) as (p1 & -> & _).
  destruct (@projectInto_flat MTouched d Hnd Hflat [] eq_refl) as (p2 & -> & _).
  destruct (@projectInto_flat MErrors d Hnd Hflat [] eq_refl) as (p3 & -> & _).
  reflexivity.
Qed.

Lemma get_toValue k props :
  Props.get k (map (fun kv => (fst kv, Tree.toValue (snd kv))) props)
  = match Props.get k props with
    | Some c => Some (Tree.toValue c)
    | None => None
    end.
Proof.
  induction props as [|[k' c] r IH]; simpl; [reflexivity|].
  destruct (k' =? k); [reflexivity | exact IH].
Qed.

Lemma in_get {V} k (v : V) l :
  NoDup (Props.keys l) -> In (k, v) l -> Props.get k l = Some v.
Proof.
  induction l as [|[k' v'] r IH]; simpl; intros Hnd H; [contradiction|].
  inversion Hnd as [|? ? Hnotin Hnd']; subst.
  destruct H as [H|H].
  - injection H as -> ->. now rewrite String.eqb_refl.
  - destruct (String.eqb_spec k' k) as [->|N]; [|now apply IH].
    exfalso. apply Hnotin. apply in_map_iff. now exists (k, v).
Qed.

(** X3.  A form whose names have no dot (and are neither [__proto__] nor
    [hasOwnProperty]) always projects: [extractFieldsMember(memberKey)]
    returns an object that has, under every name of the store and under no
    other key, the member of that field. *)
Theorem flat_form_projects :
  forall memberKey d,
    NoDup (Props.keys d) ->
    (forall k f, In (k, f) d -> flatName k = true /\ path f = analyzeNamePath k) ->
    exists props,
      extractFieldsMember memberKey d = Ok (VObj props)
      /\ (forall k, Props.get k props = memberOf memberKey (Props.get k d))
      /\ (forall k f, In (k, f) d ->
                      getProp (VObj props) k = Ok (member memberKey f)).
Proof.
  intros memberKey d Hnd Hflat.
  destruct (@projectInto_flat memberKey d Hnd Hflat [] eq_refl)
    as (props & Hrun & Hget).
  exists (map (fun kv => (fst kv, Tree.toValue (snd kv))) props).
  split; [unfold extractFieldsMember; now rewrite Hrun|]. split.
  - intros k. rewrite get_toValue, Hget. now destruct (Props.get k d).
  - intros k f Hin. simpl.
    destruct (Hflat k f Hin) as [Hname _]. unfold flatName in Hname.
    apply andb_true_iff in Hname. destruct Hname as [Hname _].
    apply andb_true_iff in Hname. destruct Hname as [_ Hproto].
    apply negb_true_iff in Hproto.
    unfold reachesProto. rewrite Hproto. simpl.
    now rewrite get_toValue, Hget, (in_get k f d Hnd Hin).
Qed.

Lemma flat_form_projects_witness :
  exists props,
    extractFieldsMember MValue dataEmailAndName = Ok (VObj props)
    /\ (forall k, Props.get k props
                  = memberOf MValue (Props.get k dataEmailAndName))
    /\ (forall k f, In (k, f) dataEmailAndName ->
                    getProp (VObj props) k = Ok (member MValue f)).
Proof.
  apply flat_form_projects.
  - repeat constructor; simpl; intuition discriminate.
  - intros k f [H|[H|[]]]; injection H as <- <-; split; reflexivity.
Defined.

(** X4.  Writing a value along a path into an object touches one key of
    that object only, the one of the first part of the path: what the
    object holds under every other key stays as it was. *)
Theorem createObjectFromPath_frame :
  forall props part rest v last',
    createObjectFromPath (VObj props) (part :: rest) v = Ok last' ->
    exists props',
      last' = VObj props'
      /\ forall k, k <> NamePathPart.value part ->
                   Props.get k props' = Props.get k props.
Proof.
  intros props part rest v last' H.
  destruct (createObjectFromPath_cons _ _ _ _ H) as (own & last1 & Hown & H1 & Hrest).
  assert (L1 : exists props1,
             last1 = VObj props1
             /\ forall k, k <> NamePathPart.value part ->
                          Props.get k props1 = Props.get k props).
  { destruct own.
    - injection H1 as <-. eauto.
    - simpl in H1.
      destruct (reachesProto (NamePathPart.value part) props); [discriminate|].
      injection H1 as <-. eexists. split; [reflexivity|].
      intros k N. apply PropsFacts.get_set_other. congruence. }
  destruct L1 as (props1 & -> & Hget1).
  assert (L2 : forall x, setProp (VObj props1) (NamePathPart.value part) x = Ok last' ->
                         exists props', last' = VObj props'
                           /\ forall k, k <> NamePathPart.value part ->
                                        Props.get k props' = Props.get k props).
  { intros x Hx. simpl in Hx.
    destruct (reachesProto (NamePathPart.value part) props1); [discriminate|].
    injection Hx as <-. eexists. split; [reflexivity|].
    intros k N. rewrite PropsFacts.get_set_other by congruence. now apply Hget1. }
  destruct rest as [|next rest'].
  - exact (L2 _ Hrest).
  - destruct Hrest as (child & child' & _ & _ & Hset). exact (L2 _ Hset).
Qed.

Lemma createObjectFromPath_frame_witness :
  exists props',
    VObj [("a", VNum 1); ("b", VObj [("c", VNum 2)])] = VObj props'
    /\ forall k, k <> "b" -> Props.get k props' = Props.get k [("a", VNum 1)].
Proof.
  exact (@createObjectFromPath_frame [("a", VNum 1)] (partOf "b") [partOf "c"]
           (VNum 2) _ eq_refl).
Defined.

(* ================================================================== *)
(** * The registry on registered names *)

Lemma replace_replace {V} k (v1 v2 : V) l :
  Props.replace k v2 (Props.replace k v1 l) = Props.replace k v2 l.
Proof.
  induction l as [|[k' v'] r IH]; simpl; [reflexivity|].
  destruct (k' =? k) eqn:E; simpl; rewrite E; [reflexivity | now rewrite IH].
Qed.

Lemma get_updated F d key k :
  Props.get k (updated F d key)
  = match Props.get k d with
    | Some f => Some (if key =? k then F f else f)
    | None => None
    end.
Proof.
  unfold updated. destruct (String.eqb_spec key k) as [<-|N].
  - destruct (Props.get key d) as [f|] eqn:G.
    + rewrite PropsFacts.get_replace_same. now rewrite G.
    + now rewrite G.
  - destruct (Props.get key d) as [f|] eqn:G.
    + rewrite PropsFacts.get_replace_other by exact N. now destruct (Props.get k d).
    + now destruct (Props.get k d).
Qed.

Lemma keys_updated F d key : Props.keys (updated F d key) = Props.keys d.
Proof.
  unfold updated. destruct (Props.get key d); [apply PropsFacts.keys_replace | reflexivity].
Qed.

Lemma keys_fold_updated F names d :
  Props.keys (fold_left (updated F) names d) = Props.keys d.
Proof.
  revert d. induction names as [|key rest IH]; intros d; simpl; [reflexivity|].
  rewrite IH. apply keys_updated.
Qed.

Lemma get_fold_updated F names d k :
  (forall f, F (F f) = F f) ->
  Props.get k (fold_left (updated F) names d)
  = match Props.get k d with
    | Some f => Some (if isIn k names then F f else f)
    | None => None
    end.
Proof.
  intros Hidem. revert d. induction names as [|key rest IH]; intros d; simpl.
  - now destruct (Props.get k d).
  - rewrite IH, get_updated. destruct (Props.get k d) as [f|]; [|reflexivity].
    rewrite (String.eqb_sym k key).
    destruct (key =? k); simpl.
    + rewrite Hidem. now destruct (isIn k rest).
    + reflexivity.
Qed.

Lemma assignField_updated name F w :
  Props.get name (data w) <> None ->
  assignField name F w
  = Ok (tt, {| data := updated F (data w) name; effects := effects w |}).
Proof.
  intros H. unfold updated.
  destruct (Props.get name (data w)) as [f|] eqn:G; [|congruence].
  now apply assignField_found.
Qed.

Lemma clearErrorsOf_run names :
  forall w,
    (forall k, In k names -> Props.get k (data w) <> None) ->
    clearErrorsOf names w
    = Ok (tt, {| data := fold_left (updated (withErrors [])) names (data w);
                 effects := effects w |}).
Proof.
  induction names as [|key rest IH]; intros w H; simpl.
  - unfold ret. now rewrite world_eta.
  - unfold bind. rewrite assignField_updated by (apply H; now left).
    rewrite IH; [reflexivity|].
    intros k Hk. simpl. rewrite get_updated.
    specialize (H k (or_intror Hk)). now destruct (Props.get k (data w)).
Qed.

Lemma setField_run w name field v updateElementValue :
  Props.get name (data w) = Some field ->
  setField name v updateElementValue w
  = Ok (tt, {| data := Props.replace name (withTouched true (withValue v field)) (data w);
               effects := effects w
                          ++ if updateElementValue then writeOf field v else [] |}).
Proof.
  intros H. unfold setField. unfold bind at 1, getData at 1. rewrite H.
  unfold bind at 1. rewrite (assignField_found _ _ _ H).
  destruct updateElementValue.
  - unfold bind.
    rewrite fieldOrThrow_found with (field := withTouched true (withValue v field))
      by (simpl; rewrite PropsFacts.get_replace_same; now rewrite H).
    unfold writeOf. simpl. destruct (ref field); run_step; [reflexivity|].
    now rewrite app_nil_r.
  - unfold ret. simpl. now rewrite app_nil_r.
Qed.

Lemma touch_run w name field :
  Props.get name (data w) = Some field ->
  touch name w
  = Ok (tt, {| data := Props.replace name (withTouched true field) (data w);
               effects := effects w |}).
Proof.
  intros H. unfold touch. unfold bind, getData. rewrite H.
  now rewrite (assignField_found _ _ _ H).
Qed.

Lemma setFieldRef_run w name field el :
  Props.get name (data w) = Some field ->
  setFieldRef name el w
  = Ok (tt, {| data := Props.replace name (withRef (Some el) field) (data w);
               effects := effects w |}).
Proof.
  intros H. unfold setFieldRef. unfold bind, getData. rewrite H.
  now rewrite (assignField_found _ _ _ H).
Qed.

Lemma addError_run w name field error focus :
  Props.get name (data w) = Some field ->
  addError name error focus w
  = Ok (tt, {| data := Props.replace name (withErrors (errors field ++ [error]) field) (data w);
               effects := effects w ++ if focus then focusOf field else [] |}).
Proof.
  intros H. unfold addError. unfold bind at 1, getData at 1. rewrite H.
  unfold bind at 1. rewrite (assignField_found _ _ _ H).
  unfold bind.
  rewrite fieldOrThrow_found
    with (field := withErrors (errors field ++ [error]) field)
    by (simpl; rewrite PropsFacts.get_replace_same; now rewrite H).
  unfold focusOf. simpl. destruct (ref field); destruct focus; run_step;
    try reflexivity; now rewrite app_nil_r.
Qed.

Lemma get_replace_found {V} k (v v0 : V) l :
  Props.get k l = Some v0 -> Props.get k (Props.replace k v l) = Some v.
Proof. intros H. rewrite PropsFacts.get_replace_same. now rewrite H. Qed.

(** X5.  On a registered name [setField] stores the value and marks the
    field touched; the errors, the validators, the bound element and the
    path of the record stay, as do every other record and the order of the
    names.  The value is written to the bound element when there is one and
    [updateElementValue] is set, and never otherwise. *)
Theorem setField_registered :
  forall w name field v updateElementValue,
    Props.get name (data w) = Some field ->
    exists w',
      setField name v updateElementValue w = Ok (tt, w')
      /\ Props.get name (data w') = Some (withTouched true (withValue v field))
      /\ (forall k, k <> name -> Props.get k (data w') = Props.get k (data w))
      /\ Props.keys (data w') = Props.keys (data w)
      /\ effects w' = effects w
                      ++ if updateElementValue then writeOf field v else [].
Proof.
  intros w name field v u H. eexists. split; [exact (@setField_run w name field v u H)|].
  simpl. repeat split.
  - now apply get_replace_found with (v0 := field).
  - intros k N. apply PropsFacts.get_replace_other. congruence.
  - apply PropsFacts.keys_replace.
Qed.

Lemma setField_registered_witness :
  exists w',
    setField "x" (VStr "typed") true storeXY = Ok (tt, w')
    /\ Props.get "x" (data w')
       = Some (withTouched true
                 (withValue (VStr "typed")
                    (newField "x" (Some inputX) (VStr "") [alwaysA])))
    /\ (forall k, k <> "x" -> Props.get k (data w') = Props.get k (data storeXY))
    /\ Props.keys (data w') = Props.keys (data storeXY)
    /\ effects w' = [WriteValue 1 (VStr "typed")].
Proof.
  exact (@setField_registered storeXY "x" _ (VStr "typed") true eq_refl).
Defined.

(** X6.  On a registered name [touch] sets [touched] and changes nothing
    else: the other members of the record, the other records, the order of
    the names and the elements stay.  A second [touch] changes nothing at
    all. *)
Theorem touch_registered :
  forall w name field,
    Props.get name (data w) = Some field ->
    exists w',
      touch name w = Ok (tt, w')
      /\ Props.get name (data w') = Some (withTouched true field)
      /\ (forall k, k <> name -> Props.get k (data w') = Props.get k (data w))
      /\ Props.keys (data w') = Props.keys (data w)
      /\ effects w' = effects w
      /\ touch name w' = Ok (tt, w').
Proof.
  intros w name field H. eexists. split; [exact (@touch_run w name field H)|].
  simpl. repeat split.
  - now apply get_replace_found with (v0 := field).
  - intros k N. apply PropsFacts.get_replace_other. congruence.
  - apply PropsFacts.keys_replace.
  - rewrite touch_run with (field := withTouched true field)
      by (simpl; now apply get_replace_found with (v0 := field)).
    simpl. now rewrite replace_replace.
Qed.

Lemma touch_registered_witness :
  exists w',
    touch "x" storeX = Ok (tt, w')
    /\ Props.get "x" (data w') = Some (withTouched true fieldX)
    /\ (forall k, k <> "x" -> Props.get k (data w') = Props.get k (data storeX))
    /\ Props.keys (data w') = Props.keys (data storeX)
    /\ effects w' = effects storeX
    /\ touch "x" w' = Ok (tt, w').
Proof.
  exact (@touch_registered storeX "x" fieldX eq_refl).
Defined.

(** X7.  On a registered name [addError] puts the message after the errors
    the field has, leaves the other records alone, asks for focus on the
    bound element when [focus] is set and there is one, and leaves a form
    that is not valid. *)
Theorem addError_registered :
  forall w name field error focus,
    Props.get name (data w) = Some field ->
    exists w',
      addError name error focus w = Ok (tt, w')
      /\ Props.get name (data w')
         = Some (withErrors (errors field ++ [error]) field)
      /\ (forall k, k <> name -> Props.get k (data w') = Props.get k (data w))
      /\ effects w' = effects w ++ (if focus then focusOf field else [])
      /\ isFormValid (data w') = false.
Proof.
  intros w name field error focus H. eexists. split; [exact (@addError_run w name field error focus H)|].
  simpl.
  assert (G : Props.get name
                (Props.replace name (withErrors (errors field ++ [error]) field) (data w))
              = Some (withErrors (errors field ++ [error]) field))
    by now apply get_replace_found with (v0 := field).
  repeat split.
  - exact G.
  - intros k N. apply PropsFacts.get_replace_other. congruence.
  - destruct (isFormValid _) eqn:V; [|reflexivity].
    rewrite isFormValid_forall in V.
    specialize (V _ _ (PropsFacts.get_in _ _ G)).
    unfold fieldInvalid in V. simpl in V. rewrite length_app in V. simpl in V.
    rewrite Nat.add_comm in V. discriminate V.
Qed.

Lemma addError_registered_witness :
  exists w',
    addError "x" "taken" true storeXY = Ok (tt, w')
    /\ Props.get "x" (data w')
       = Some (withErrors ["taken"] (newField "x" (Some inputX) (VStr "") [alwaysA]))
    /\ (forall k, k <> "x" -> Props.get k (data w') = Props.get k (data storeXY))
    /\ effects w' = [Focus 1]
    /\ isFormValid (data w') = false.
Proof.
  exact (@addError_registered storeXY "x" _ "taken" true eq_refl).
Defined.

(** X8.  [setFieldRef] on a registered name binds the element and changes
    nothing else; a [setField] that follows writes its value to that
    element, whatever was bound before. *)
Theorem setFieldRef_then_setField :
  forall w name field el v,
    Props.get name (data w) = Some field ->
    exists w1 w2,
      setFieldRef name el w = Ok (tt, w1)
      /\ Props.get name (data w1) = Some (withRef (Some el) field)
      /\ (forall k, k <> name -> Props.get k (data w1) = Props.get k (data w))
      /\ effects w1 = effects w
      /\ setField name v true w1 = Ok (tt, w2)
      /\ effects w2 = effects w ++ [WriteValue (Element.id el) v].
Proof.
  intros w name field el v H.
  assert (G : Props.get name (Props.replace name (withRef (Some el) field) (data w))
              = Some (withRef (Some el) field))
    by now apply get_replace_found with (v0 := field).
  eexists. eexists. split; [exact (@setFieldRef_run w name field el H)|].
  split; [exact G|]. split.
  { intros k N. apply PropsFacts.get_replace_other. congruence. }
  split; [reflexivity|]. split.
  - apply setField_run. exact G.
  - reflexivity.
Qed.

Lemma setFieldRef_then_setField_witness :
  exists w1 w2,
    setFieldRef "x" inputY storeXY = Ok (tt, w1)
    /\ Props.get "x" (data w1)
       = Some (withRef (Some inputY) (newField "x" (Some inputX) (VStr "") [alwaysA]))
    /\ (forall k, k <> "x" -> Props.get k (data w1) = Props.get k (data storeXY))
    /\ effects w1 = effects storeXY
    /\ setField "x" (VStr "v") true w1 = Ok (tt, w2)
    /\ effects w2 = [WriteValue 2 (VStr "v")].
Proof.
  exact (@setFieldRef_then_setField storeXY "x" _ inputY (VStr "v") eq_refl).
Defined.

(** X9.  [removeField] always returns: the record of the name is gone, the
    other records and the elements stay, a second removal changes nothing,
    and [setField] and [touch] on the removed name do nothing. *)
Theorem removeField_removes_one :
  forall w name,
    exists w',
      removeField name w = Ok (tt, w')
      /\ Props.get name (data w') = None
      /\ (forall k, k <> name -> Props.get k (data w') = Props.get k (data w))
      /\ effects w' = effects w
      /\ removeField name w' = Ok (tt, w')
      /\ (forall v updateElementValue,
            setField name v updateElementValue w' = Ok (tt, w'))
      /\ touch name w' = Ok (tt, w').
Proof.
  intros w name. eexists. split; [reflexivity|]. simpl.
  assert (G : Props.get name (Props.delete name (data w)) = None)
    by apply PropsFacts.get_delete_same.
  repeat split.
  - exact G.
  - intros k N. apply PropsFacts.get_delete_other. congruence.
  - unfold removeField, bind, getData, setData. simpl.
    now rewrite (PropsFacts.delete_absent _ _ G).
  - intros v u. unfold setField, bind, getData, ret. simpl. now rewrite G.
  - unfold touch, bind, getData, ret. simpl. now rewrite G.
Qed.

Lemma delete_insertIndex {V} n k (v : V) l :
  Props.get k l = None -> Props.delete k (Props.insertIndex n k v l) = l.
Proof.
  induction l as [|[k' v'] r IH]; simpl; intros H.
  - now rewrite String.eqb_refl.
  - destruct (k' =? k) eqn:E; [discriminate|].
    destruct (Props.indexBelow n k'); simpl.
    + rewrite E. now rewrite IH.
    + rewrite String.eqb_refl, E. now rewrite PropsFacts.delete_absent.
Qed.

Lemma delete_set {V} k (v : V) l :
  Props.get k l = None -> Props.delete k (Props.set k v l) = l.
Proof.
  intros H. unfold Props.set, Props.has. rewrite H.
  destruct (asArrayIndex k); [now apply delete_insertIndex|].
  induction l as [|[k' v'] r IH]; simpl in *.
  - now rewrite String.eqb_refl.
  - destruct (k' =? k); [discriminate|]. now rewrite IH.
Qed.

(** X10.  Registering a name that is not in the store (and that no object
    inherits) and removing it again leaves the store as it was, whichever
    place the name took among the keys, when the memos run on the store in
    between: the later drafts' [addField] leaves the elements alone as
    well, and after that of [src/index.tsx] the records are the same. *)
Theorem addField_then_removeField :
  forall iv w name vs defaultValue element,
    Props.get name (data w) = None ->
    (inherited name = false ->
     projects (Props.set name (newField name element defaultValue vs) (data w)) ->
     (addField name vs defaultValue element ;; removeField name) w = Ok (tt, w))
    /\ (forall v,
          resolved iv name defaultValue element v ->
          projects (Props.set name (newField name element v vs) (data w)) ->
          exists w',
            (Index.addField iv name vs defaultValue element ;; removeField name) w
            = Ok (tt, w')
            /\ data w' = data w).
Proof.
  intros iv w name vs dv element H. split.
  - intros Hin Hp.
    assert (Hk : kept (data w) name dv = dv) by (unfold kept; now rewrite H).
    pose proof (@addField_result w name vs dv element (fun _ => Hin)) as R.
    rewrite Hk, H in R. unfold bind at 1. rewrite (R Hp).
    unfold removeField, bind, getData, setData, pushed. simpl.
    rewrite delete_set by exact H. rewrite app_nil_r. now rewrite world_eta.
  - intros v Hv Hp.
    destruct (@index_addField_result iv w name vs dv element v Hv Hp)
      as (w1 & Hrun & Hdata).
    unfold bind at 1. rewrite Hrun.
    unfold removeField, bind, getData, setData. simpl.
    eexists. split; [reflexivity|]. simpl.
    rewrite Hdata. now apply delete_set.
Qed.

Lemma addField_then_removeField_witness :
  (addField "ghost" [] (VStr "") (Some inputX) ;; removeField "ghost") storeXY
  = Ok (tt, storeXY)
  /\ exists w',
      (Index.addField None "ghost" [] (VStr "") (Some inputX) ;; removeField "ghost")
        storeXY = Ok (tt, w')
      /\ data w' = data storeXY.
Proof.
  destruct (@addField_then_removeField None storeXY "ghost" [] (VStr "")
              (Some inputX) eq_refl) as [Hlater Hindex].
  split.
  - exact (Hlater eq_refl eq_refl).
  - apply (Hindex (VStr "")); [|reflexivity].
    apply (@FromElement None "ghost" (VStr "") inputX); [exact I | discriminate].
Defined.

Lemma get_set {V} k k' (v : V) l :
  Props.get k' (Props.set k v l) = if k =? k' then Some v else Props.get k' l.
Proof.
  destruct (String.eqb_spec k k') as [<-|N].
  - apply PropsFacts.get_set_same.
  - now apply PropsFacts.get_set_other.
Qed.

(** X11.  [addField] of the later drafts, where it returns (the name is
    registered or is one no object inherits, and the memos run on the new
    store), changes no record but that of its name.  The names of the store
    afterwards are those it had and the new one.  A name that was
    registered keeps its place in the order of the names, and the value its
    record had is written to the element passed, if one is passed; a new
    name leaves the elements alone. *)
Theorem addField_frame :
  forall w name vs defaultValue element,
    (Props.get name (data w) = None -> inherited name = false) ->
    projects (Props.set name
                (newField name element (kept (data w) name defaultValue) vs)
                (data w)) ->
    exists w',
      addField name vs defaultValue element w = Ok (tt, w')
      /\ (forall k, k <> name -> Props.get k (data w') = Props.get k (data w))
      /\ (forall k, In k (Props.keys (data w'))
                    <-> k = name \/ In k (Props.keys (data w)))
      /\ (forall old,
            Props.get name (data w) = Some old ->
            Props.keys (data w') = Props.keys (data w)
            /\ effects w' = effects w
                            ++ match element with
                               | Some el => [WriteValue (Element.id el) (value old)]
                               | None => []
                               end)
      /\ (Props.get name (data w) = None -> effects w' = effects w).
Proof.
  intros w name vs dv element Hname Hp.
  assert (K : forall f k,
             In k (Props.keys (Props.set name f (data w)))
             <-> k = name \/ In k (Props.keys (data w))).
  { intros f k. rewrite !PropsFacts.get_in_keys, get_set.
    destruct (String.eqb_spec name k) as [->|N].
    - split; [auto | discriminate].
    - split; [auto | intros [E|H]; [congruence | exact H]]. }
  assert (F : forall f k, k <> name ->
             Props.get k (Props.set name f (data w)) = Props.get k (data w))
    by (intros f k N; apply PropsFacts.get_set_other; congruence).
  rewrite (@addField_result w name vs dv element Hname Hp).
  eexists. split; [reflexivity|]. simpl.
  split; [apply F|]. split; [apply K|]. split.
  - intros old E. rewrite E. split; [|reflexivity].
    apply PropsFacts.keys_set_present. unfold Props.has. now rewrite E.
  - intros E. rewrite E. apply app_nil_r.
Qed.

Lemma addField_frame_witness :
  exists w',
    addField "x" [] (VStr "d") (Some inputY) storeXY = Ok (tt, w')
    /\ (forall k, k <> "x" -> Props.get k (data w') = Props.get k (data storeXY))
    /\ Props.keys (data w') = ["x"; "y"]
    /\ effects w' = [WriteValue 2 (VStr "")].
Proof.
  destruct (@addField_frame storeXY "x" [] (VStr "d") (Some inputY)
              ltac:(discriminate) eq_refl)
    as (w' & Hrun & Hframe & _ & Hold & _).
  destruct (Hold _ eq_refl) as [Hkeys Heff].
  exists w'. exact (conj Hrun (conj Hframe (conj Hkeys Heff))).
Defined.

(** X12.  [clearErrors] without a name, with the empty string or with the
    empty list never throws: it empties the errors of every field and
    leaves the values, the touched flags, the validators, the bound
    elements and the order of the names as they were. *)
Theorem clearErrors_whole_form :
  forall w,
    exists w',
      clearErrors NoName w = Ok (tt, w')
      /\ clearErrors (One "") w = Ok (tt, w')
      /\ clearErrors (Many []) w = Ok (tt, w')
      /\ (forall k, Props.get k (data w')
                    = match Props.get k (data w) with
                      | Some field => Some (withErrors [] field)
                      | None => None
                      end)
      /\ Props.keys (data w') = Props.keys (data w)
      /\ effects w' = effects w.
Proof.
  intros w.
  assert (R : (d <- getData ;; clearErrorsOf (Props.keys d)) w
              = Ok (tt, {| data := fold_left (updated (withErrors []))
                                             (Props.keys (data w)) (data w);
                           effects := effects w |})).
  { unfold bind, getData. apply clearErrorsOf_run.
    intros k Hk. now apply PropsFacts.get_in_keys. }
  eexists. split; [exact R|]. split; [exact R|]. split; [exact R|].
  simpl. repeat split.
  - intros k. rewrite get_fold_updated by reflexivity.
    destruct (Props.get k (data w)) as [f|] eqn:G; [|reflexivity].
    replace (isIn k (Props.keys (data w))) with true; [reflexivity|].
    symmetry. unfold isIn. apply existsb_exists. exists k.
    split; [|apply String.eqb_refl].
    apply PropsFacts.get_in_keys. now rewrite G.
  - apply keys_fold_updated.
Qed.

Lemma clearErrorsOf_missing before name rest :
  forall w,
    Props.get name (data w) = None ->
    inherited name = false ->
    (forall k, In k before -> Props.get k (data w) <> None) ->
    clearErrorsOf (before ++ name :: rest) w = Stop (Thrown TypeError).
Proof.
  induction before as [|key before' IH]; intros w Hname Hin Hbefore; simpl.
  - unfold bind. now rewrite (@assignField_missing name _ w Hname Hin).
  - unfold bind. rewrite assignField_updated by (apply Hbefore; now left).
    apply IH; simpl.
    + rewrite get_updated. now rewrite Hname.
    + exact Hin.
    + intros k Hk. rewrite get_updated.
      specialize (Hbefore k (or_intror Hk)). now destruct (Props.get k (data w)).
Qed.

(** X13.  [clearErrors] has no guard for a name that is not registered: a
    name that is not the empty string and that no object inherits, given
    alone or in a list after names that are registered, makes the call
    throw a [TypeError]. *)
Theorem clearErrors_unregistered_throws :
  forall w name,
    Props.get name (data w) = None ->
    inherited name = false ->
    (name <> "" -> clearErrors (One name) w = Stop (Thrown TypeError))
    /\ (forall before rest,
          (forall k, In k before -> Props.get k (data w) <> None) ->
          clearErrors (Many (before ++ name :: rest)) w = Stop (Thrown TypeError)).
Proof.
  intros w name H Hin. split.
  - intros N. simpl. apply String.eqb_neq in N. rewrite N.
    now apply assignField_missing.
  - intros before rest Hb.
    assert (T := @clearErrorsOf_missing before name rest w H Hin Hb).
    destruct before; exact T.
Qed.

Lemma clearErrors_unregistered_throws_witness :
  clearErrors (One "ghost") storeXY = Stop (Thrown TypeError)
  /\ clearErrors (Many ["x"; "ghost"; "y"]) storeXY = Stop (Thrown TypeError).
Proof.
  destruct (@clearErrors_unregistered_throws storeXY "ghost" eq_refl eq_refl)
    as [Halone Hlist].
  split.
  - apply Halone. discriminate.
  - apply (Hlist ["x"] ["y"]). intros k [<-|[]]. discriminate.
Defined.

(* ================================================================== *)
(** * What a validation leaves behind *)

Lemma validate_batch_run fuel w name names vals focusOnError :
  batchOf (data w) name = Some names ->
  forallb (known (data w)) names = true ->
  extractFieldsMember MValue (data w) = Ok vals ->
  validate (S (S fuel)) name focusOnError w
  = Ok (forallb (passes (data w) vals) names,
        {| data := fold_left (validated vals) names (data w);
           effects := effects w
                      ++ batchFocus (data w) vals names focusOnError |}).
Proof.
  intros Hbatch Hknown Hvals.
  rewrite validate_S. cbv zeta. unfold batchOf in Hbatch.
  destruct (nameIsEmpty name) eqn:E.
  - injection Hbatch as <-. unfold bind, getData, multiple.
    rewrite multipleLoop_run with (vals := vals);
      [reflexivity | exact Hknown | exact Hvals | discriminate].
  - destruct name as [|s|l]; try discriminate. injection Hbatch as <-.
    unfold multiple.
    rewrite multipleLoop_run with (vals := vals);
      [reflexivity | exact Hknown | exact Hvals | discriminate].
Qed.

Lemma fold_validated vals names d :
  fold_left (validated vals) names d
  = fold_left (updated (revalidate vals)) names d.
Proof. revert d. induction names as [|k r IH]; intros d; simpl; [reflexivity | apply IH]. Qed.

Lemma extract_validated_member memberKey vals d key :
  memberKey <> MErrors ->
  extractFieldsMember memberKey (validated vals d key)
  = extractFieldsMember memberKey d.
Proof.
  intros N. unfold validated, extractFieldsMember.
  destruct (Props.get key d) as [f|] eqn:G; [|reflexivity].
  rewrite projectInto_replace with (field := f); [reflexivity | exact G | reflexivity|].
  destruct memberKey; [reflexivity | reflexivity | congruence].
Qed.

Lemma extract_fold_validated memberKey vals names d :
  memberKey <> MErrors ->
  extractFieldsMember memberKey (fold_left (validated vals) names d)
  = extractFieldsMember memberKey d.
Proof.
  intros N. revert d. induction names as [|k r IH]; intros d; simpl; [reflexivity|].
  rewrite IH. now apply extract_validated_member.
Qed.

Lemma passes_fold_validated vals names d k :
  passes (fold_left (validated vals) names d) vals k = passes d vals k.
Proof.
  revert d. induction names as [|key r IH]; intros d; simpl; [reflexivity|].
  rewrite IH. apply passes_validated.
Qed.

Lemma known_fold_validated vals names d k :
  known (fold_left (validated vals) names d) k = known d k.
Proof.
  revert d. induction names as [|key r IH]; intros d; simpl; [reflexivity|].
  rewrite IH. apply known_validated.
Qed.

Lemma get_fold_validated vals names d k :
  Props.get k (fold_left (validated vals) names d)
  = match Props.get k d with
    | Some f => Some (if isIn k names then revalidate vals f else f)
    | None => None
    end.
Proof.
  rewrite fold_validated. apply get_fold_updated. intros f. reflexivity.
Qed.

Lemma keys_fold_validated vals names d :
  Props.keys (fold_left (validated vals) names d) = Props.keys d.
Proof. rewrite fold_validated. apply keys_fold_updated. Qed.

(** X14.  What a batch validation leaves in the store, under the
    conditions of C7: every field keeps its value, its touched flag, its
    validators, its element and its path, and the names keep their order;
    a field of the batch has the messages of its validators as errors and
    every other field the errors it had; the projected values and touched
    flags are the same as before. *)
Theorem validate_batch_fields :
  forall fuel w name names vals focusOnError,
    batchOf (data w) name = Some names ->
    forallb (known (data w)) names = true ->
    extractFieldsMember MValue (data w) = Ok vals ->
    exists r w',
      validate (S (S fuel)) name focusOnError w = Ok (r, w')
      /\ Props.keys (data w') = Props.keys (data w)
      /\ (forall k, Props.get k (data w) = None -> Props.get k (data w') = None)
      /\ (forall k f,
            Props.get k (data w) = Some f ->
            exists f',
              Props.get k (data w') = Some f'
              /\ value f' = value f /\ touched f' = touched f
              /\ validators f' = validators f /\ ref f' = ref f
              /\ path f' = path f
              /\ errors f' = if isIn k names
                             then messages (validators f) (value f) vals
                             else errors f)
      /\ extractFieldsMember MValue (data w') = Ok vals
      /\ extractFieldsMember MTouched (data w')
         = extractFieldsMember MTouched (data w).
Proof.
  intros fuel w name names vals focusOnError Hbatch Hknown Hvals.
  eexists. eexists.
  split; [exact (@validate_batch_run fuel w name names vals focusOnError
                   Hbatch Hknown Hvals)|].
  simpl. split; [apply keys_fold_validated|]. split.
  { intros k G. now rewrite get_fold_validated, G. }
  split.
  { intros k f G. rewrite get_fold_validated, G. eexists. split; [reflexivity|].
    destruct (isIn k names); repeat split; reflexivity. }
  split.
  - rewrite extract_fold_validated by discriminate. exact Hvals.
  - apply extract_fold_validated. discriminate.
Qed.

Lemma validate_batch_fields_witness :
  exists r w',
    validate 2 (Many ["x"]) false storeXY = Ok (r, w')
    /\ Props.keys (data w') = ["x"; "y"]
    /\ (forall k, Props.get k (data storeXY) = None -> Props.get k (data w') = None)
    /\ (forall k f,
          Props.get k (data storeXY) = Some f ->
          exists f',
            Props.get k (data w') = Some f'
            /\ value f' = value f /\ touched f' = touched f
            /\ validators f' = validators f /\ ref f' = ref f
            /\ path f' = path f
            /\ errors f' = if isIn k ["x"]
                           then messages (validators f) (value f)
                                         (VObj [("x", VStr ""); ("y", VStr "")])
                           else errors f)
    /\ extractFieldsMember MValue (data w')
       = Ok (VObj [("x", VStr ""); ("y", VStr "")])
    /\ extractFieldsMember MTouched (data w')
       = extractFieldsMember MTouched (data storeXY).
Proof.
  exact (@validate_batch_fields 0 storeXY (Many ["x"]) ["x"]
           (VObj [("x", VStr ""); ("y", VStr "")]) false eq_refl eq_refl eq_refl).
Defined.

Lemma replace_get {V} k (v : V) l :
  Props.get k l = Some v -> Props.replace k v l = l.
Proof.
  induction l as [|[k' v'] r IH]; simpl; [reflexivity|].
  destruct (k' =? k); intros H.
  - now injection H as ->.
  - now rewrite IH.
Qed.

Lemma fold_validated_fixed vals names :
  forall d,
    (forall k f, In k names -> Props.get k d = Some f -> revalidate vals f = f) ->
    fold_left (validated vals) names d = d.
Proof.
  induction names as [|key rest IH]; intros d H; simpl; [reflexivity|].
  assert (E : validated vals d key = d).
  { unfold validated. destruct (Props.get key d) as [f|] eqn:G; [|reflexivity].
    fold (revalidate vals f). rewrite (H key f (or_introl eq_refl) G).
    now apply replace_get. }
  rewrite E. apply IH. intros k f Hk. apply H. now right.
Qed.

Lemma isIn_spec k names : isIn k names = true <-> In k names.
Proof.
  unfold isIn. rewrite existsb_exists. split.
  - intros (x & Hx & E). apply String.eqb_eq in E. now subst.
  - intros H. exists k. split; [exact H | apply String.eqb_refl].
Qed.

Lemma batchFocus_off d vals names : batchFocus d vals names false = [].
Proof.
  unfold batchFocus. destruct (firstFailing d vals names); [|reflexivity].
  now destruct (Props.get s d).
Qed.

Lemma forallb_passes_fold vals names d l :
  forallb (passes (fold_left (validated vals) names d) vals) l
  = forallb (passes d vals) l.
Proof.
  induction l as [|k r IH]; simpl; [reflexivity|].
  now rewrite IH, passes_fold_validated.
Qed.

Lemma forallb_known_fold vals names d l :
  forallb (known (fold_left (validated vals) names d)) l
  = forallb (known d) l.
Proof.
  induction l as [|k r IH]; simpl; [reflexivity|].
  now rewrite IH, known_fold_validated.
Qed.

Lemma fold_validated_twice vals names d :
  fold_left (validated vals) names (fold_left (validated vals) names d)
  = fold_left (validated vals) names d.
Proof.
  apply fold_validated_fixed. intros k f Hk G.
  rewrite get_fold_validated in G.
  destruct (Props.get k d) as [f0|]; [|discriminate].
  apply isIn_spec in Hk. rewrite Hk in G. injection G as <-. reflexivity.
Qed.

(** X15.  A validation that is run again on the store it left, with no
    focus asked for, returns what it returned and leaves that store as it
    is: for one name as for a batch, under the conditions of C3 and C7,
    and for validators that answer by the value and the values they are
    given, as every validator of this model does. *)
Theorem validate_twice :
  forall fuel w vals,
    extractFieldsMember MValue (data w) = Ok vals ->
    (forall name field,
        name <> "" ->
        Props.get name (data w) = Some field ->
        exists r w1,
          validate (S fuel) (One name) false w = Ok (r, w1)
          /\ validate (S fuel) (One name) false w1 = Ok (r, w1))
    /\ (forall name names,
          batchOf (data w) name = Some names ->
          forallb (known (data w)) names = true ->
          exists r w1,
            validate (S (S fuel)) name false w = Ok (r, w1)
            /\ validate (S (S fuel)) name false w1 = Ok (r, w1)).
Proof.
  intros fuel w vals Hvals. split.
  - intros name field Hne Hget.
    rewrite (@validate_One_run fuel w name field vals false Hne Hget Hvals).
    eexists. eexists. split; [reflexivity|].
    rewrite andb_false_r, app_nil_r.
    set (msgs := messages (validators field) (value field) vals).
    rewrite (@validate_One_run fuel _ name (withErrors msgs field) vals false Hne).
    + simpl. fold msgs. rewrite andb_false_r, app_nil_r.
      now rewrite replace_replace.
    + simpl. now apply get_replace_found with (v0 := field).
    + simpl. unfold extractFieldsMember.
      rewrite projectInto_replace with (field := field);
        [exact Hvals | exact Hget | reflexivity | reflexivity].
  - intros name names Hbatch Hknown.
    rewrite (@validate_batch_run fuel w name names vals false Hbatch Hknown Hvals).
    eexists. eexists. split; [reflexivity|].
    rewrite batchFocus_off, app_nil_r.
    rewrite (@validate_batch_run fuel _ name names vals false).
    + simpl. rewrite batchFocus_off, app_nil_r.
      now rewrite forallb_passes_fold, fold_validated_twice.
    + simpl. unfold batchOf in *. now rewrite keys_fold_validated.
    + simpl. now rewrite forallb_known_fold.
    + simpl. rewrite extract_fold_validated by discriminate. exact Hvals.
Qed.

Lemma validate_twice_witness :
  (exists r w1,
      validate 1 (One "x") false storeXY = Ok (r, w1)
      /\ validate 1 (One "x") false w1 = Ok (r, w1))
  /\ (exists r w1,
        validate 2 NoName false storeXY = Ok (r, w1)
        /\ validate 2 NoName false w1 = Ok (r, w1)).
Proof.
  destruct (@validate_twice 0 storeXY (VObj [("x", VStr ""); ("y", VStr "")]) eq_refl)
    as [Hone Hbatch].
  split.
  - apply (Hone "x" (newField "x" (Some inputX) (VStr "") [alwaysA]));
      [discriminate | reflexivity].
  - apply (Hbatch NoName ["x"; "y"]); reflexivity.
Defined.

Lemma noneOf_nil errs : noneOf errs = true <-> errs = [].
Proof. destruct errs; simpl; split; congruence. Qed.

(** X16.  Validating the whole form and [isFormValid] agree, in a store
    whose names are registered once, none of them empty, and whose values
    project: the call returns [true] exactly when it leaves no error in any
    field; when it returns [false] the form is not valid; when it returns
    [true] the form is valid exactly when every field that has validators
    is touched. *)
Theorem validate_form_and_isFormValid :
  forall fuel w vals focusOnError,
    NoDup (Props.keys (data w)) ->
    forallb (known (data w)) (Props.keys (data w)) = true ->
    extractFieldsMember MValue (data w) = Ok vals ->
    exists r w',
      validate (S (S fuel)) NoName focusOnError w = Ok (r, w')
      /\ (r = true <-> forall k f, In (k, f) (data w') -> errors f = [])
      /\ (r = false -> isFormValid (data w') = false)
      /\ (r = true ->
          (isFormValid (data w') = true
           <-> forall k f, In (k, f) (data w') ->
                           validators f <> [] -> touched f = true)).
Proof.
  intros fuel w vals focusOnError Hnd Hknown Hvals.
  rewrite (@validate_batch_run fuel w NoName (Props.keys (data w)) vals focusOnError
             eq_refl Hknown Hvals).
  eexists. eexists. split; [reflexivity|]. simpl.
  set (names := Props.keys (data w)).
  set (d' := fold_left (validated vals) names (data w)).
  assert (Hnd' : NoDup (Props.keys d'))
    by (unfold d'; now rewrite keys_fold_validated).
  assert (Hget : forall k f,
             Props.get k (data w) = Some f ->
             Props.get k d' = Some (revalidate vals f)).
  { intros k f G. unfold d'. rewrite get_fold_validated, G.
    replace (isIn k names) with true; [reflexivity|].
    symmetry. apply isIn_spec. apply PropsFacts.get_in_keys. now rewrite G. }
  assert (Hin : forall k f',
             In (k, f') d' ->
             exists f, Props.get k (data w) = Some f /\ f' = revalidate vals f).
  { intros k f' H. apply (in_get _ _ _ Hnd') in H.
    destruct (Props.get k (data w)) as [f|] eqn:G.
    - exists f. split; [reflexivity|]. rewrite (Hget k f G) in H. congruence.
    - unfold d' in H. rewrite get_fold_validated, G in H. discriminate. }
  assert (Hiff : forallb (passes (data w) vals) names = true
                 <-> forall k f, In (k, f) d' -> errors f = []).
  { rewrite forallb_forall. split.
    - intros H k f' Hk. destruct (Hin k f' Hk) as (f & G & ->).
      assert (Hp : passes (data w) vals k = true).
      { apply H. apply PropsFacts.get_in_keys. now rewrite G. }
      unfold passes in Hp. rewrite G in Hp. now apply noneOf_nil in Hp.
    - intros H k Hk. apply PropsFacts.get_in_keys in Hk.
      destruct (Props.get k (data w)) as [f|] eqn:G; [|congruence].
      unfold passes. rewrite G. apply noneOf_nil.
      exact (H k _ (PropsFacts.get_in _ _ (Hget k f G))). }
  split; [exact Hiff|]. split.
  - intros R. destruct (isFormValid d') eqn:V; [|reflexivity].
    rewrite isFormValid_forall in V.
    assert (E : forallb (passes (data w) vals) names = true).
    { apply Hiff. intros k f Hk. specialize (V k f Hk).
      destruct (errors f) eqn:Ee; [reflexivity|].
      unfold fieldInvalid in V. now rewrite Ee in V. }
    congruence.
  - intros R. rewrite isFormValid_forall. rewrite Hiff in R. split.
    + intros V k f Hk Hvs. specialize (V k f Hk).
      destruct (touched f) eqn:T; [reflexivity|].
      exfalso. apply not_true_iff_false in V. apply V.
      apply fieldInvalid_iff. right. now split.
    + intros T k f Hk. apply not_true_iff_false. intros I.
      apply fieldInvalid_iff in I. destruct I as [I|[I1 I2]].
      * apply I. exact (R k f Hk).
      * rewrite (T k f Hk I1) in I2. discriminate.
Qed.

Lemma validate_form_and_isFormValid_witness :
  exists r w',
    validate 2 NoName true storeXY = Ok (r, w')
    /\ (r = true <-> forall k f, In (k, f) (data w') -> errors f = [])
    /\ (r = false -> isFormValid (data w') = false)
    /\ (r = true ->
        (isFormValid (data w') = true
         <-> forall k f, In (k, f) (data w') ->
                         validators f <> [] -> touched f = true)).
Proof.
  apply (@validate_form_and_isFormValid 0 storeXY
           (VObj [("x", VStr ""); ("y", VStr "")]) true).
  - repeat constructor; simpl; intuition discriminate.
  - reflexivity.
  - reflexivity.
Defined.

Lemma multipleLoop_unregistered fuel vals focusOnError name rest before :
  forall w,
    name <> "" ->
    Props.get name (data w) = None ->
    inherited name = false ->
    forallb (known (data w)) before = true ->
    forallb (passes (data w) vals) before = true ->
    extractFieldsMember MValue (data w) = Ok vals ->
    multipleLoop (fun key => validate (S fuel) (One key) false) focusOnError
                 (before ++ name :: rest) true false w
    = Stop (Thrown TypeError).
Proof.
  induction before as [|key before' IH];
    intros w Hne Hname Hin Hknown Hpass Hvals.
  - simpl. unfold bind at 1.
    rewrite (@validate_One_missing fuel w name false Hne Hname Hin).
    cbn [negb andb]. unfold bind.
    now rewrite (fieldOrThrow_missing _ _ Hname Hin).
  - simpl in Hknown, Hpass.
    apply andb_true_iff in Hknown. destruct Hknown as [Hkey Hknown].
    apply andb_true_iff in Hpass. destruct Hpass as [Hp Hpass].
    simpl app. simpl multipleLoop. unfold bind at 1.
    rewrite (@validate_One_validated fuel w key vals Hkey Hvals).
    rewrite Hp. cbn [negb andb].
    apply IH; simpl.
    + exact Hne.
    + rewrite get_validated. now rewrite Hname.
    + exact Hin.
    + now rewrite forallb_known_validated.
    + now rewrite forallb_passes_validated.
    + now rewrite extract_validated.
Qed.

(** X17.  The loop of [validate] over a list of names has no guard for a
    name that is not registered: when the names before it are registered
    and pass, an unregistered name that no object inherits counts as the
    first failure and the look for its element throws a [TypeError]. *)
Theorem validate_list_unregistered_throws :
  forall fuel w before name rest vals focusOnError,
    name <> "" ->
    Props.get name (data w) = None ->
    inherited name = false ->
    forallb (known (data w)) before = true ->
    forallb (passes (data w) vals) before = true ->
    extractFieldsMember MValue (data w) = Ok vals ->
    validate (S (S fuel)) (Many (before ++ name :: rest)) focusOnError w
    = Stop (Thrown TypeError).
Proof.
  intros fuel w before name rest vals focusOnError Hne Hname Hin Hknown Hpass
         Hvals.
  rewrite validate_S. cbv zeta.
  replace (nameIsEmpty (Many (before ++ name :: rest))) with false
    by (now destruct before).
  unfold multiple. now apply multipleLoop_unregistered with (vals := vals).
Qed.

Lemma validate_list_unregistered_throws_witness :
  validate 2 (Many ["email"; "ghost"; "name"]) true
           {| data := dataEmailAndName; effects := [] |}
  = Stop (Thrown TypeError).
Proof.
  apply (@validate_list_unregistered_throws 0
           {| data := dataEmailAndName; effects := [] |}
           ["email"] "ghost" ["name"]
           (VObj [("email", VStr "a@x.com"); ("name", VStr "Ada")]) true);
    [discriminate | reflexivity | reflexivity | reflexivity | reflexivity
     | reflexivity].
Defined.

(** X18.  [handleSubmit], in a store whose names are registered and not
    empty and whose values project: every field is validated, and the
    callback is called exactly when every field passes, with the projected
    values; when a field fails the callback is not called and focus is
    asked for on the element of the first field that fails. *)
Theorem handleSubmit_calls_back :
  forall fuel w vals,
    forallb (known (data w)) (Props.keys (data w)) = true ->
    extractFieldsMember MValue (data w) = Ok vals ->
    handleSubmit (S (S fuel)) w
    = Ok (if forallb (passes (data w) vals) (Props.keys (data w))
          then Some vals else None,
          {| data := fold_left (validated vals) (Props.keys (data w)) (data w);
             effects := effects w
                        ++ batchFocus (data w) vals (Props.keys (data w)) true |}).
Proof.
  intros fuel w vals Hknown Hvals. unfold handleSubmit. unfold bind at 1.
  rewrite (@validate_batch_run fuel w NoName (Props.keys (data w)) vals true
             eq_refl Hknown Hvals).
  destruct (forallb (passes (data w) vals) (Props.keys (data w))); [|reflexivity].
  unfold bind, getData, lift, ret. simpl.
  rewrite extract_fold_validated by discriminate. now rewrite Hvals.
Qed.

Lemma handleSubmit_calls_back_witness :
  handleSubmit 2 {| data := dataEmailAndName; effects := [] |}
  = Ok (Some (VObj [("email", VStr "a@x.com"); ("name", VStr "Ada")]),
        {| data := dataEmailAndName; effects := [] |})
  /\ handleSubmit 2 storeXY
     = Ok (None,
           {| data := [("x", withErrors ["A"]
                               (newField "x" (Some inputX) (VStr "") [alwaysA]));
                       ("y", withErrors ["B"]
                               (newField "y" (Some inputY) (VStr "") [alwaysB]))];
              effects := [Focus 1] |}).
Proof.
  split.
  - exact (@handleSubmit_calls_back 0 {| data := dataEmailAndName; effects := [] |}
             (VObj [("email", VStr "a@x.com"); ("name", VStr "Ada")])
             eq_refl eq_refl).
  - exact (@handleSubmit_calls_back 0 storeXY
             (VObj [("x", VStr ""); ("y", VStr "")]) eq_refl eq_refl).
Defined.

(* ================================================================== *)
(** * Controllers *)

Lemma unawaited_run {A} (m : M A) w a w' :
  m w = Ok (a, w') -> unawaited m w = Ok (tt, w').
Proof. intros H. unfold unawaited. now rewrite H. Qed.

Lemma change_run fuel w name field newValue vals updateRefValue :
  name <> "" ->
  Props.get name (data w) = Some field ->
  extractFieldsMember MValue
    (Props.replace name (withTouched true (withValue newValue field)) (data w))
  = Ok vals ->
  Controller.change name (S fuel) newValue true updateRefValue w
  = Ok (tt, {| data := Props.replace name
                         (withErrors (messages (validators field) newValue vals)
                            (withTouched true (withValue newValue field)))
                         (data w);
               effects := effects w
                          ++ if updateRefValue then writeOf field newValue else [] |}).
Proof.
  intros Hne Hget Hvals. unfold Controller.change. unfold bind.
  rewrite (@setField_run w name field newValue updateRefValue Hget).
  erewrite unawaited_run;
    [|apply validate_One_run with (field := withTouched true (withValue newValue field))
                                  (vals := vals);
      [exact Hne | simpl; now apply get_replace_found with (v0 := field) | exact Hvals]].
  simpl. now rewrite andb_false_r, app_nil_r, replace_replace.
Qed.

(** X19.  [change] of a controller whose field is registered under a name
    that is not empty, in a store whose values project once the value is
    set, and once the validation it starts has come to its end: the value
    is stored and the field touched, and the validators have run on the
    value just set, so that [errors()] holds their messages for it and
    [invalid()] tells whether there is one; [value()] reads the value
    back, [""] in the place of [null] and [undefined]; no other record
    changes, and the element is written as [setField] writes it. *)
Theorem change_validates_new_value :
  forall fuel w name field newValue vals updateRefValue,
    name <> "" ->
    Props.get name (data w) = Some field ->
    extractFieldsMember MValue
      (Props.replace name (withTouched true (withValue newValue field)) (data w))
    = Ok vals ->
    exists w',
      Controller.change name (S fuel) newValue true updateRefValue w = Ok (tt, w')
      /\ Controller.value name (data w') = orEmptyString newValue
      /\ Controller.touched name (data w') = true
      /\ Controller.errors name (data w')
         = messages (validators field) newValue vals
      /\ Controller.invalid name (data w')
         = negb (noneOf (messages (validators field) newValue vals))
      /\ (forall k, k <> name -> Props.get k (data w') = Props.get k (data w))
      /\ effects w' = effects w
                      ++ if updateRefValue then writeOf field newValue else [].
Proof.
  intros fuel w name field newValue vals u Hne Hget Hvals.
  eexists. split; [exact (@change_run fuel w name field newValue vals u Hne Hget Hvals)|].
  simpl.
  unfold Controller.value, Controller.touched, Controller.invalid, Controller.errors.
  rewrite (get_replace_found name _ _ Hget). simpl.
  split; [now destruct newValue|]. split; [reflexivity|]. split; [reflexivity|].
  split; [now destruct (messages (validators field) newValue vals)|].
  split; [|reflexivity].
  intros k N. apply PropsFacts.get_replace_other. congruence.
Qed.

Lemma change_validates_new_value_witness :
  exists w',
    Controller.change "x" 1 (VStr "typed") true true storeXY = Ok (tt, w')
    /\ Controller.value "x" (data w') = VStr "typed"
    /\ Controller.touched "x" (data w') = true
    /\ Controller.errors "x" (data w') = ["A"]
    /\ Controller.invalid "x" (data w') = true
    /\ (forall k, k <> "x" -> Props.get k (data w') = Props.get k (data storeXY))
    /\ effects w' = [WriteValue 1 (VStr "typed")].
Proof.
  exact (@change_validates_new_value 0 storeXY "x" _ (VStr "typed")
           (VObj [("x", VStr "typed"); ("y", VStr "")]) true
           ltac:(discriminate) eq_refl eq_refl).
Defined.



(* ================================================================== *)
(** * Array controllers *)

Lemma filterNot_past index i elems :
  index < i ->
  ArrayController.filterNot index i (map Some elems) = map Some elems.
Proof.
  revert i. induction elems as [|x r IH]; intros i H; simpl; [reflexivity|].
  replace (i =? index)%nat with false by (symmetry; apply Nat.eqb_neq; lia).
  rewrite IH by lia. reflexivity.
Qed.

Lemma filterNot_dense index elems :
  forall i,
    i <= index ->
    ArrayController.filterNot index i (map Some elems)
    = map Some (without (index - i) elems).
Proof.
  unfold without.
  induction elems as [|x r IH]; intros i H; simpl.
  - now rewrite firstn_nil.
  - destruct (Nat.eqb_spec i index) as [->|N].
    + rewrite Nat.sub_diag. simpl. apply filterNot_past. lia.
    + rewrite IH by lia.
      replace (index - i) with (S (index - S i)) by lia. reflexivity.
Qed.

Lemma mapAt_past index newItem i elems :
  index < i ->
  ArrayController.mapAt index newItem i (map Some elems) = map Some elems.
Proof.
  revert i. induction elems as [|x r IH]; intros i H; simpl; [reflexivity|].
  replace (i =? index)%nat with false by (symmetry; apply Nat.eqb_neq; lia).
  rewrite IH by lia. reflexivity.
Qed.

Lemma mapAt_dense index newItem elems :
  forall i,
    i <= index ->
    ArrayController.mapAt index newItem i (map Some elems)
    = map Some (withItem (index - i) newItem elems).
Proof.
  unfold withItem.
  induction elems as [|x r IH]; intros i H; simpl.
  - reflexivity.
  - destruct (Nat.eqb_spec i index) as [->|N].
    + rewrite Nat.sub_diag. simpl. rewrite mapAt_past by lia. reflexivity.
    + rewrite IH by lia.
      replace (index - i) with (S (index - S i)) by lia.
      change (S (index - S i) <? S (length r))%nat
        with (index - S i <? length r)%nat.
      now destruct (index - S i <? length r)%nat.
Qed.

Lemma nth_error_setNth {A} n (x hole : A) l i :
  nth_error (setNth n x hole l) i
  = if (i =? n)%nat then Some x
    else if (i <? length l)%nat then nth_error l i
    else if (i <? n)%nat then Some hole
    else None.
Proof.
  revert l i. induction n as [|n IH]; intros l i.
  - destruct l as [|y r]; destruct i as [|i]; simpl; try reflexivity.
    + now destruct i.
    + destruct (Nat.ltb_spec (S i) (S (length r))) as [L|L]; [reflexivity|].
      apply nth_error_None. lia.
  - destruct l as [|y r]; destruct i as [|i]; simpl setNth; simpl nth_error;
      simpl length; try reflexivity; rewrite IH; simpl length;
      destruct (Nat.eqb_spec i n), (Nat.eqb_spec (S i) (S n));
      try lia; try reflexivity;
      destruct (Nat.ltb_spec i (length r)), (Nat.ltb_spec (S i) (S (length r)));
      try lia; try reflexivity;
      destruct (Nat.ltb_spec i n), (Nat.ltb_spec (S i) (S n));
      try lia; reflexivity.
Qed.

Lemma length_setNth {A} n (x hole : A) l :
  length (setNth n x hole l) = Nat.max (S n) (length l).
Proof.
  revert l. induction n as [|n IH]; intros [|y r]; simpl length;
    rewrite ?IH; simpl length; lia.
Qed.

Lemma items_registered name d field elems named :
  Props.get name d = Some field ->
  value field = VArr elems named ->
  ArrayController.items name d = VArr elems named.
Proof.
  intros G V. unfold ArrayController.items, Controller.value. now rewrite G, V.
Qed.

Lemma change_array fuel w name field elems' vals :
  name <> "" ->
  Props.get name (data w) = Some field ->
  extractFieldsMember MValue
    (Props.replace name (withTouched true (withValue (VArr elems' []) field)) (data w))
  = Ok vals ->
  exists w',
    Controller.change name (S fuel) (VArr elems' []) true true w = Ok (tt, w')
    /\ ArrayController.items name (data w') = VArr elems' []
    /\ Controller.touched name (data w') = true
    /\ Controller.errors name (data w')
       = messages (validators field) (VArr elems' []) vals
    /\ (forall k, k <> name -> Props.get k (data w') = Props.get k (data w)).
Proof.
  intros Hne Hget Hvals. eexists.
  split; [exact (@change_run fuel w name field (VArr elems' []) vals true Hne Hget Hvals)|].
  simpl.
  unfold ArrayController.items, Controller.value, Controller.touched, Controller.errors.
  rewrite (get_replace_found name _ _ Hget). simpl.
  repeat split. intros k N. apply PropsFacts.get_replace_other. congruence.
Qed.

(** X21.  [add(item)] of an array controller whose field is registered
    (its name not empty) and holds an array, in a store whose values
    project once the item is added, the validation that [change] starts
    having come to its end: the field then holds a new array, the
    items of the old one in their order followed by [item], one longer
    than the old one and without holes (a hole of the old array reads
    [undefined]); the field is touched and its errors are the messages of
    its validators for the new array; no other record changes. *)
Theorem add_appends :
  forall fuel w name field elems named item vals,
    name <> "" ->
    Props.get name (data w) = Some field ->
    value field = VArr elems named ->
    extractFieldsMember MValue
      (Props.replace name
         (withTouched true (withValue (arrayOf (dense elems ++ [item])) field))
         (data w))
    = Ok vals ->
    exists w',
      ArrayController.add name (S fuel) item w = Ok (tt, w')
      /\ ArrayController.items name (data w') = arrayOf (dense elems ++ [item])
      /\ length (dense elems ++ [item]) = S (length elems)
      /\ (forall l, elems = map Some l -> dense elems = l)
      /\ Controller.touched name (data w') = true
      /\ Controller.errors name (data w')
         = messages (validators field) (arrayOf (dense elems ++ [item])) vals
      /\ (forall k, k <> name -> Props.get k (data w') = Props.get k (data w)).
Proof.
  intros fuel w name field elems named item vals Hne Hget Hval Hvals.
  destruct (@change_array fuel w name field (map Some (dense elems ++ [item])) vals
              Hne Hget Hvals) as (w' & Hrun & Hitems & Htouched & Herrors & Hframe).
  exists w'. split.
  { unfold ArrayController.add, bind, getData, lift.
    rewrite (items_registered name _ Hget Hval). simpl. exact Hrun. }
  split; [exact Hitems|]. split.
  { rewrite length_app. unfold dense. rewrite length_map. simpl. lia. }
  split.
  { intros l ->. unfold dense. rewrite map_map. apply map_id. }
  auto.
Qed.

Lemma add_appends_witness :
  exists w',
    ArrayController.add "tags" 1 (VStr "d") storeTags = Ok (tt, w')
    /\ ArrayController.items "tags" (data w')
       = arrayOf [VStr "a"; VStr "b"; VStr "c"; VStr "d"]
    /\ Controller.errors "tags" (data w') = [].
Proof.
  destruct (@add_appends 0 storeTags "tags" fieldTags _ _ (VStr "d")
              (VObj [("tags", arrayOf [VStr "a"; VStr "b"; VStr "c"; VStr "d"])])
              ltac:(discriminate) eq_refl eq_refl eq_refl)
    as (w' & Hrun & Hitems & _ & _ & _ & Herrors & _).
  exists w'. exact (conj Hrun (conj Hitems Herrors)).
Defined.

Lemma length_without index (l : list Value) :
  length (without index l)
  = if (index <? length l)%nat then length l - 1 else length l.
Proof.
  unfold without. rewrite length_app, length_firstn, length_skipn.
  destruct (Nat.ltb_spec index (length l)); lia.
Qed.

Lemma without_past index (l : list Value) :
  length l <= index -> without index l = l.
Proof.
  intros H. unfold without. rewrite firstn_all2 by exact H.
  rewrite skipn_all2 by lia. apply app_nil_r.
Qed.

(** X22.  [remove(index)] of an array controller whose field is registered
    (its name not empty) and holds an array without holes that has no
    property [filter] of its own, in a store whose values project once the
    item is removed: the field then holds a new array, the old items
    without the one at [index], in their order; it is one shorter when
    [index] is a position of the array, and has the same items when it is
    not.  The field is touched and revalidated; no other record changes. *)
Theorem remove_drops_one :
  forall fuel w name field l named index vals,
    name <> "" ->
    Props.get name (data w) = Some field ->
    value field = VArr (map Some l) named ->
    Props.has "filter" named = false ->
    extractFieldsMember MValue
      (Props.replace name
         (withTouched true (withValue (arrayOf (without index l)) field))
         (data w))
    = Ok vals ->
    exists w',
      ArrayController.remove name (S fuel) index w = Ok (tt, w')
      /\ ArrayController.items name (data w') = arrayOf (without index l)
      /\ (index < length l -> length (without index l) = length l - 1)
      /\ (length l <= index -> without index l = l)
      /\ Controller.touched name (data w') = true
      /\ Controller.errors name (data w')
         = messages (validators field) (arrayOf (without index l)) vals
      /\ (forall k, k <> name -> Props.get k (data w') = Props.get k (data w)).
Proof.
  intros fuel w name field l named index vals Hne Hget Hval Hown Hvals.
  destruct (@change_array fuel w name field (map Some (without index l)) vals
              Hne Hget Hvals) as (w' & Hrun & Hitems & Htouched & Herrors & Hframe).
  exists w'. split.
  { unfold ArrayController.remove, bind, getData, lift.
    rewrite (items_registered name _ Hget Hval). simpl. rewrite Hown.
    rewrite filterNot_dense by lia. rewrite Nat.sub_0_r. exact Hrun. }
  split; [exact Hitems|]. split.
  { intros H. rewrite length_without.
    now replace (index <? length l)%nat with true by (symmetry; now apply Nat.ltb_lt). }
  split; [apply without_past|]. auto.
Qed.

Lemma remove_drops_one_witness :
  exists w',
    ArrayController.remove "tags" 1 1 storeTags = Ok (tt, w')
    /\ ArrayController.items "tags" (data w') = arrayOf [VStr "a"; VStr "c"]
    /\ Controller.errors "tags" (data w') = [].
Proof.
  destruct (@remove_drops_one 0 storeTags "tags" fieldTags _ _ 1
              (VObj [("tags", arrayOf [VStr "a"; VStr "c"])])
              ltac:(discriminate) eq_refl eq_refl eq_refl eq_refl)
    as (w' & Hrun & Hitems & _ & _ & _ & Herrors & _).
  exists w'. exact (conj Hrun (conj Hitems Herrors)).
Defined.

Lemma length_withItem index newItem (l : list Value) :
  length (withItem index newItem l) = length l.
Proof.
  unfold withItem. destruct (Nat.ltb_spec index (length l)); [|reflexivity].
  rewrite length_app, length_firstn. cbn [length]. rewrite length_skipn. lia.
Qed.

Lemma nth_error_withItem index newItem (l : list Value) i :
  nth_error (withItem index newItem l) i
  = if (i =? index)%nat && (index <? length l)%nat then Some newItem
    else nth_error l i.
Proof.
  unfold withItem. destruct (Nat.ltb_spec index (length l)) as [L|L].
  - rewrite andb_true_r. destruct (Nat.eqb_spec i index) as [->|N].
    + rewrite nth_error_app2 by (rewrite length_firstn; lia).
      rewrite length_firstn. replace (index - Nat.min index (length l)) with 0 by lia.
      reflexivity.
    + destruct (Nat.ltb_spec i index) as [I|I].
      * rewrite nth_error_app1 by (rewrite length_firstn; lia).
        rewrite nth_error_firstn.
        now replace (i <? index)%nat with true by (symmetry; now apply Nat.ltb_lt).
      * rewrite nth_error_app2 by (rewrite length_firstn; lia).
        rewrite length_firstn.
        replace (i - Nat.min index (length l)) with (S (i - S index)) by lia.
        cbn [nth_error]. rewrite nth_error_skipn. f_equal. lia.
  - now rewrite andb_false_r.
Qed.

(** X23.  [set(index, newItem)] of an array controller whose field is
    registered (its name not empty) and holds an array without holes that
    has no property [map] of its own, in a store whose values project once
    the item is set: the field then holds a new array of the same length,
    with [newItem] at [index] and the old item at every other position;
    an [index] that is no position of the array changes no item.  The
    field is touched and revalidated; no other record changes. *)
Theorem set_replaces_one :
  forall fuel w name field l named index newItem vals,
    name <> "" ->
    Props.get name (data w) = Some field ->
    value field = VArr (map Some l) named ->
    Props.has "map" named = false ->
    extractFieldsMember MValue
      (Props.replace name
         (withTouched true (withValue (arrayOf (withItem index newItem l)) field))
         (data w))
    = Ok vals ->
    exists w',
      ArrayController.set name (S fuel) index newItem w = Ok (tt, w')
      /\ ArrayController.items name (data w') = arrayOf (withItem index newItem l)
      /\ length (withItem index newItem l) = length l
      /\ (forall i, nth_error (withItem index newItem l) i
                    = if (i =? index)%nat && (index <? length l)%nat
                      then Some newItem else nth_error l i)
      /\ Controller.touched name (data w') = true
      /\ Controller.errors name (data w')
         = messages (validators field) (arrayOf (withItem index newItem l)) vals
      /\ (forall k, k <> name -> Props.get k (data w') = Props.get k (data w)).
Proof.
  intros fuel w name field l named index newItem vals Hne Hget Hval Hown Hvals.
  destruct (@change_array fuel w name field (map Some (withItem index newItem l)) vals
              Hne Hget Hvals) as (w' & Hrun & Hitems & Htouched & Herrors & Hframe).
  exists w'. split.
  { unfold ArrayController.set, bind, getData, lift.
    rewrite (items_registered name _ Hget Hval). simpl. rewrite Hown.
    rewrite mapAt_dense by lia. rewrite Nat.sub_0_r. exact Hrun. }
  split; [exact Hitems|]. split; [apply length_withItem|].
  split; [apply nth_error_withItem|]. auto.
Qed.

Lemma set_replaces_one_witness :
  exists w',
    ArrayController.set "tags" 1 1 (VStr "x") storeTags = Ok (tt, w')
    /\ ArrayController.items "tags" (data w')
       = arrayOf [VStr "a"; VStr "x"; VStr "c"]
    /\ Controller.errors "tags" (data w') = [].
Proof.
  destruct (@set_replaces_one 0 storeTags "tags" fieldTags _ _ 1 (VStr "x")
              (VObj [("tags", arrayOf [VStr "a"; VStr "x"; VStr "c"])])
              ltac:(discriminate) eq_refl eq_refl eq_refl eq_refl)
    as (w' & Hrun & Hitems & _ & _ & _ & Herrors & _).
  exists w'. exact (conj Hrun (conj Hitems Herrors)).
Defined.

Lemma setNth_dense a v (l : list Value) :
  a < length l ->
  setNth a (Some v) None (map Some l) = map Some (withItem a v l).
Proof.
  intros H. apply nth_error_ext. intros i.
  rewrite nth_error_setNth, !nth_error_map, nth_error_withItem, length_map.
  replace (a <? length l)%nat with true by (symmetry; now apply Nat.ltb_lt).
  rewrite andb_true_r.
  destruct (Nat.eqb_spec i a) as [->|N]; [reflexivity|].
  destruct (Nat.ltb_spec i (length l)) as [L|L]; [reflexivity|].
  replace (i <? a)%nat with false by (symmetry; apply Nat.ltb_ge; lia).
  apply nth_error_None in L. now rewrite L.
Qed.

Lemma elementAt_dense (l : list Value) i x :
  nth_error l i = Some x -> ArrayController.elementAt (map Some l) i = x.
Proof.
  intros H. unfold ArrayController.elementAt. now rewrite nth_error_map, H.
Qed.

Lemma nth_error_length {A} (l : list A) i x : nth_error l i = Some x -> i < length l.
Proof. intros H. apply nth_error_Some. congruence. Qed.

Lemma swapItems_dense a b x y (l : list Value) :
  nth_error l a = Some x ->
  nth_error l b = Some y ->
  ArrayController.isIndex a = true ->
  ArrayController.isIndex b = true ->
  ArrayController.swapItems a b (map Some l)
  = Ok (arrayOf (withItem b x (withItem a y l))).
Proof.
  intros Ha Hb Ia Ib. unfold ArrayController.swapItems. rewrite Ia, Ib. simpl.
  rewrite (@elementAt_dense l a x Ha), (@elementAt_dense l b y Hb).
  rewrite setNth_dense by exact (@nth_error_length _ l a x Ha).
  rewrite setNth_dense
    by (rewrite length_withItem; exact (@nth_error_length _ l b y Hb)).
  reflexivity.
Qed.

Lemma nth_error_exchange a b x y (l : list Value) i :
  a < length l -> b < length l ->
  nth_error (withItem b x (withItem a y l)) i
  = if (i =? b)%nat then Some x
    else if (i =? a)%nat then Some y
    else nth_error l i.
Proof.
  intros Ha Hb. rewrite !nth_error_withItem, length_withItem.
  replace (a <? length l)%nat with true by (symmetry; now apply Nat.ltb_lt).
  replace (b <? length l)%nat with true by (symmetry; now apply Nat.ltb_lt).
  now rewrite !andb_true_r.
Qed.

Lemma exchange_back a b x y (l : list Value) :
  nth_error l a = Some x ->
  nth_error l b = Some y ->
  withItem b y (withItem a x (withItem b x (withItem a y l))) = l.
Proof.
  intros Ha Hb.
  assert (La := @nth_error_length _ l a x Ha).
  assert (Lb := @nth_error_length _ l b y Hb).
  apply nth_error_ext. intros i.
  rewrite nth_error_exchange by (rewrite !length_withItem; assumption).
  rewrite nth_error_exchange by assumption.
  destruct (Nat.eqb_spec i b) as [->|Nb]; [now rewrite Hb|].
  destruct (Nat.eqb_spec i a) as [->|Na]; [now rewrite Ha | reflexivity].
Qed.

(** X24.  [swap(a, b)] of an array controller whose field is registered
    (its name not empty) and holds an array without holes that has no
    property [concat] of its own, for two positions of the array, in a
    store whose values project once the items are exchanged: the field
    then holds a new array of the same length in which the items at [a]
    and [b] have changed places and every other item is where it was;
    exchanging them again gives the first array back.  The field is
    touched and revalidated; no other record changes. *)
Theorem swap_exchanges :
  forall fuel w name field l named a b x y vals,
    name <> "" ->
    Props.get name (data w) = Some field ->
    value field = VArr (map Some l) named ->
    Props.has "concat" named = false ->
    nth_error l a = Some x ->
    nth_error l b = Some y ->
    ArrayController.isIndex a = true ->
    ArrayController.isIndex b = true ->
    extractFieldsMember MValue
      (Props.replace name
         (withTouched true
            (withValue (arrayOf (withItem b x (withItem a y l))) field))
         (data w))
    = Ok vals ->
    exists w',
      ArrayController.swap name (S fuel) a b w = Ok (tt, w')
      /\ ArrayController.items name (data w')
         = arrayOf (withItem b x (withItem a y l))
      /\ length (withItem b x (withItem a y l)) = length l
      /\ (forall i, nth_error (withItem b x (withItem a y l)) i
                    = if (i =? b)%nat then Some x
                      else if (i =? a)%nat then Some y
                      else nth_error l i)
      /\ ArrayController.swapItems a b (map Some (withItem b x (withItem a y l)))
         = Ok (arrayOf l)
      /\ Controller.touched name (data w') = true
      /\ Controller.errors name (data w')
         = messages (validators field)
                    (arrayOf (withItem b x (withItem a y l))) vals
      /\ (forall k, k <> name -> Props.get k (data w') = Props.get k (data w)).
Proof.
  intros fuel w name field l named a b x y vals
         Hne Hget Hval Hown Ha Hb Ia Ib Hvals.
  assert (La := @nth_error_length _ l a x Ha).
  assert (Lb := @nth_error_length _ l b y Hb).
  destruct (@change_array fuel w name field
              (map Some (withItem b x (withItem a y l))) vals Hne Hget Hvals)
    as (w' & Hrun & Hitems & Htouched & Herrors & Hframe).
  exists w'. split.
  { unfold ArrayController.swap, bind, getData, lift.
    rewrite (items_registered name _ Hget Hval). simpl. rewrite Hown.
    rewrite (@swapItems_dense a b x y l Ha Hb Ia Ib). exact Hrun. }
  split; [exact Hitems|]. split; [now rewrite !length_withItem|].
  split; [intros i; now apply nth_error_exchange|]. split; [|auto].
  destruct (Nat.eqb_spec a b) as [E|N].
  - subst b. assert (y = x) by congruence. subst y.
    rewrite swapItems_dense with (x := x) (y := x);
      try assumption; try (rewrite nth_error_exchange by assumption;
                           now rewrite Nat.eqb_refl).
    now rewrite (@exchange_back a a x x l Ha Hb).
  - rewrite swapItems_dense with (x := y) (y := x); try assumption.
    + now rewrite (@exchange_back a b x y l Ha Hb).
    + rewrite nth_error_exchange by assumption.
      replace (a =? b)%nat with false by (symmetry; now apply Nat.eqb_neq).
      now rewrite Nat.eqb_refl.
    + rewrite nth_error_exchange by assumption. now rewrite Nat.eqb_refl.
Qed.

Lemma swap_exchanges_witness :
  exists w',
    ArrayController.swap "tags" 1 0 2 storeTags = Ok (tt, w')
    /\ ArrayController.items "tags" (data w')
       = arrayOf [VStr "c"; VStr "b"; VStr "a"]
    /\ ArrayController.swapItems 0 2 (map Some [VStr "c"; VStr "b"; VStr "a"])
       = Ok (arrayOf [VStr "a"; VStr "b"; VStr "c"]).
Proof.
  destruct (@swap_exchanges 0 storeTags "tags" fieldTags _ _ 0 2 (VStr "a") (VStr "c")
              (VObj [("tags", arrayOf [VStr "c"; VStr "b"; VStr "a"])])
              ltac:(discriminate) eq_refl eq_refl eq_refl eq_refl eq_refl
              eq_refl eq_refl eq_refl)
    as (w' & Hrun & Hitems & _ & _ & Hback & _).
  exists w'. exact (conj Hrun (conj Hitems Hback)).
Defined.

Lemma isIndex_below a b :
  b <= a -> ArrayController.isIndex a = true -> ArrayController.isIndex b = true.
Proof.
  unfold ArrayController.isIndex. intros H Ia.
  apply N.ltb_lt in Ia. apply N.ltb_lt. lia.
Qed.

(** X25.  [swap(a, b)] when [b] is a position of the array and [a] lies
    past its end (the array without holes, no property [concat] of its
    own, the field registered under a name that is not empty, the values
    projecting afterwards): the call does not fail.  The new array reaches
    up to [a], where the item that was at [b] now is; [b] holds
    [undefined]; the positions between the old end and [a] are holes, and
    the other items are where they were. *)
Theorem swap_past_the_end :
  forall fuel w name field l named a b y vals,
    name <> "" ->
    Props.get name (data w) = Some field ->
    value field = VArr (map Some l) named ->
    Props.has "concat" named = false ->
    nth_error l b = Some y ->
    length l <= a ->
    ArrayController.isIndex a = true ->
    extractFieldsMember MValue
      (Props.replace name
         (withTouched true (withValue (VArr (grown a b y l) []) field))
         (data w))
    = Ok vals ->
    exists w',
      ArrayController.swap name (S fuel) a b w = Ok (tt, w')
      /\ ArrayController.items name (data w') = VArr (grown a b y l) []
      /\ length (grown a b y l) = S a
      /\ nth_error (grown a b y l) a = Some (Some y)
      /\ nth_error (grown a b y l) b = Some (Some VUndefined)
      /\ (forall i, length l <= i -> i < a -> nth_error (grown a b y l) i = Some None)
      /\ (forall i, i < length l -> i <> b ->
                    nth_error (grown a b y l) i = nth_error (map Some l) i).
Proof.
  intros fuel w name field l named a b y vals Hne Hget Hval Hown Hb La Ia Hvals.
  assert (Lb := @nth_error_length _ l b y Hb).
  destruct (@change_array fuel w name field (grown a b y l) vals Hne Hget Hvals)
    as (w' & Hrun & Hitems & _).
  exists w'. split.
  { unfold ArrayController.swap, bind, getData, lift.
    rewrite (items_registered name _ Hget Hval). simpl. rewrite Hown.
    unfold ArrayController.swapItems.
    rewrite Ia, (@isIndex_below a b) by (lia || assumption). simpl.
    rewrite (@elementAt_dense l b y Hb).
    replace (ArrayController.elementAt (map Some l) a) with VUndefined.
    - exact Hrun.
    - unfold ArrayController.elementAt.
      replace (nth_error (map Some l) a) with (@None (option Value));
        [reflexivity|].
      symmetry. apply nth_error_None. now rewrite length_map. }
  split; [exact Hitems|]. unfold grown. split.
  { rewrite !length_setNth, length_map. lia. }
  split.
  { rewrite !nth_error_setNth.
    replace (a =? b)%nat with false by (symmetry; apply Nat.eqb_neq; lia).
    rewrite length_setNth, length_map.
    replace (a <? Nat.max (S a) (length l))%nat with true
      by (symmetry; apply Nat.ltb_lt; lia).
    now rewrite Nat.eqb_refl. }
  split.
  { rewrite nth_error_setNth. now rewrite Nat.eqb_refl. }
  split.
  - intros i L1 L2. rewrite !nth_error_setNth, length_setNth, !length_map.
    replace (i =? b)%nat with false by (symmetry; apply Nat.eqb_neq; lia).
    replace (i <? Nat.max (S a) (length l))%nat with true
      by (symmetry; apply Nat.ltb_lt; lia).
    replace (i =? a)%nat with false by (symmetry; apply Nat.eqb_neq; lia).
    replace (i <? length l)%nat with false by (symmetry; apply Nat.ltb_ge; lia).
    now replace (i <? a)%nat with true by (symmetry; apply Nat.ltb_lt; lia).
  - intros i L1 L2. rewrite !nth_error_setNth, length_setNth, !length_map.
    replace (i =? b)%nat with false by (symmetry; now apply Nat.eqb_neq).
    replace (i <? Nat.max (S a) (length l))%nat with true
      by (symmetry; apply Nat.ltb_lt; lia).
    replace (i =? a)%nat with false by (symmetry; apply Nat.eqb_neq; lia).
    now replace (i <? length l)%nat with true by (symmetry; now apply Nat.ltb_lt).
Qed.

Lemma swap_past_the_end_witness :
  exists w',
    ArrayController.swap "tags" 1 4 0 storeTags = Ok (tt, w')
    /\ ArrayController.items "tags" (data w')
       = VArr [Some VUndefined; Some (VStr "b"); Some (VStr "c"); None;
               Some (VStr "a")] [].
Proof.
  destruct (@swap_past_the_end 0 storeTags "tags" fieldTags _ _ 4 0 (VStr "a")
              (VObj [("tags", VArr [Some VUndefined; Some (VStr "b");
                                    Some (VStr "c"); None; Some (VStr "a")] [])])
              ltac:(discriminate) eq_refl eq_refl eq_refl eq_refl
              ltac:(simpl; lia) eq_refl eq_refl)
    as (w' & Hrun & Hitems & _).
  exists w'. exact (conj Hrun Hitems).
Defined.

(* ================================================================== *)
(** * Registered inputs *)

(** X26.  [onInput] of a registered input (its name not empty), in a store
    whose values project once the value is set, the validation it starts
    having come to its end: the field takes what the
    event's element holds, [checked] for a checkbox and [value] for any
    other element, and is touched; its errors are the messages of its
    validators for that value.  Nothing is written to an element and no
    focus is asked for; no other record changes. *)
Theorem onInput_takes_the_element_value :
  forall fuel w name target field vals,
    name <> "" ->
    Props.get name (data w) = Some field ->
    extractFieldsMember MValue
      (Props.replace name
         (withTouched true (withValue (FieldRegister.targetValue target) field))
         (data w))
    = Ok vals ->
    exists w',
      FieldRegister.onInput name (S fuel) target w = Ok (tt, w')
      /\ Props.get name (data w')
         = Some (withErrors
                   (messages (validators field) (FieldRegister.targetValue target) vals)
                   (withTouched true
                      (withValue (FieldRegister.targetValue target) field)))
      /\ effects w' = effects w
      /\ (forall k, k <> name -> Props.get k (data w') = Props.get k (data w)).
Proof.
  intros fuel w name target field vals Hne Hget Hvals.
  eexists. split.
  { unfold FieldRegister.onInput. unfold bind.
    rewrite (@setField_run w name field (FieldRegister.targetValue target) false Hget).
    erewrite unawaited_run;
      [reflexivity|].
    apply validate_One_run
      with (field := withTouched true (withValue (FieldRegister.targetValue target) field))
           (vals := vals);
      [exact Hne | simpl; now apply get_replace_found with (v0 := field) | exact Hvals]. }
  simpl. rewrite replace_replace. split.
  { now apply get_replace_found with (v0 := field). }
  split.
  { now rewrite andb_false_r, !app_nil_r. }
  intros k N. apply PropsFacts.get_replace_other. congruence.
Qed.

Lemma onInput_takes_the_element_value_witness :
  exists w',
    FieldRegister.onInput "x" 1 (Element.Build_t 1 "checkbox" "on" true) storeXY
    = Ok (tt, w')
    /\ Props.get "x" (data w')
       = Some (withErrors ["A"]
                 (withTouched true
                    (withValue (VBool true)
                       (newField "x" (Some inputX) (VStr "") [alwaysA]))))
    /\ effects w' = [].
Proof.
  destruct (@onInput_takes_the_element_value 0 storeXY "x"
              (Element.Build_t 1 "checkbox" "on" true) _
              (VObj [("x", VBool true); ("y", VStr "")])
              ltac:(discriminate) eq_refl eq_refl)
    as (w' & Hrun & Hget & Heffects & _).
  exists w'. exact (conj Hrun (conj Hget Heffects)).
Defined.

(* ================================================================== *)
(** * Values set from an object *)

Section ValueInduction.
Variable P : Value -> Prop.
Hypothesis HUndefined : P VUndefined.
Hypothesis HNull : P VNull.
Hypothesis HBool : forall b, P (VBool b).
Hypothesis HNum : forall n, P (VNum n).
Hypothesis HStr : forall s, P (VStr s).
Hypothesis HArr :
  forall elems named,
    Forall (fun e => match e with Some v => P v | None => True end) elems ->
    Forall (fun kv => P (snd kv)) named ->
    P (VArr elems named).
Hypothesis HObj :
  forall props, Forall (fun kv => P (snd kv)) props -> P (VObj props).


End ValueInduction.

Section Calls.
Variable St : Type.
Variable setKey : string -> Value -> St -> St.


End Calls.

Section CallsOf.
Variable St : Type.
Variable setKey : string -> Value -> St -> St.
Variable visit : string -> Value -> St -> St.
Variable visitNote :
  string -> Value -> list (string * Value) -> list (string * Value).
Variable callsOf : string -> Value -> list (string * Value).



End CallsOf.













Example flatten_sample :
  flatten profile
  = [("user.name", VStr "Ada"); ("user.tags.0", VStr "x");
     ("user.tags.2", VStr "z"); ("age", VNum 36)].
Proof. reflexivity. Qed.

Example setValues_sample :
  Seed.setValues profile dataAge
  = [("age", {| path := analyzeNamePath "age"; ref := Some inputX; value := VNum 36;
                touched := true; errors := ["too young"];
                validators := [required "Required"] |});
     ("user.name", newField "user.name" None (VStr "Ada") []);
     ("user.tags.0", newField "user.tags.0" None (VStr "x") []);
     ("user.tags.2", newField "user.tags.2" None (VStr "z") [])].
Proof. reflexivity. Qed.

Lemma get_keys_some {V} k (l : list (string * V)) :
  In k (Props.keys l) <-> exists v, Props.get k l = Some v.
Proof.
  rewrite PropsFacts.get_in_keys. destruct (Props.get k l) as [v|].
  - split; [eauto | discriminate].
  - split; [congruence | intros [v H]; discriminate].
Qed.


Lemma emptyValues_run names :
  forall w,
    (forall k, In k names -> Props.get k (data w) <> None) ->
    Seed.emptyValues names w
    = Ok (tt, {| data := fold_left (updated (withValue (VStr ""))) names (data w);
                 effects := effects w |}).
Proof.
  induction names as [|key rest IH]; intros w H; simpl.
  - unfold ret. now rewrite world_eta.
  - unfold bind. rewrite assignField_updated by (apply H; now left).
    rewrite IH; [reflexivity|].
    intros k Hk. simpl. rewrite get_updated.
    specialize (H k (or_intror Hk)). now destruct (Props.get k (data w)).
Qed.

Lemma isIn_keys {V} k (d : list (string * V)) :
  isIn k (Props.keys d) = match Props.get k d with Some _ => true | None => false end.
Proof.
  destruct (Props.get k d) as [f|] eqn:G.
  - apply isIn_spec. apply PropsFacts.get_in_keys. congruence.
  - apply not_true_iff_false. intros H. apply isIn_spec in H.
    apply PropsFacts.get_in_keys in H. congruence.
Qed.

(** X29.  [reset()] of the last draft when the snapshot is empty: the
    call never fails; every field has [""] as its value and no error
    afterwards, and keeps its touched flag, its validators, its element
    and its place among the names; nothing is written to an element, and
    the form is not dirty. *)
Theorem reset_without_snapshot :
  forall stableHash fuel w,
    exists w',
      Seed.reset fuel [] w = Ok (tt, w')
      /\ (forall k, Props.get k (data w')
                    = match Props.get k (data w) with
                      | Some field => Some (withErrors [] (withValue (VStr "") field))
                      | None => None
                      end)
      /\ Props.keys (data w') = Props.keys (data w)
      /\ effects w' = effects w
      /\ Snapshot.isDirty stableHash (data w') [] = false.
Proof.
  intros stableHash fuel w.
  set (d1 := fold_left (updated (withValue (VStr ""))) (Props.keys (data w)) (data w)).
  set (d2 := fold_left (updated (withErrors [])) (Props.keys d1) d1).
  assert (K1 : Props.keys d1 = Props.keys (data w)) by apply keys_fold_updated.
  assert (K2 : Props.keys d2 = Props.keys (data w))
    by (unfold d2; now rewrite keys_fold_updated).
  assert (G : forall k, Props.get k d2
                        = match Props.get k (data w) with
                          | Some field => Some (withErrors [] (withValue (VStr "") field))
                          | None => None
                          end).
  { intros k. unfold d2. rewrite get_fold_updated by reflexivity.
    rewrite isIn_keys. unfold d1. rewrite get_fold_updated by reflexivity.
    rewrite isIn_keys. now destruct (Props.get k (data w)). }
  exists {| data := d2; effects := effects w |}. split.
  { unfold Seed.reset. simpl. unfold bind at 1, getData at 1. unfold bind at 1.
    rewrite emptyValues_run by (intros k Hk; now apply PropsFacts.get_in_keys).
    fold d1. unfold clearErrors, bind, getData. simpl.
    rewrite clearErrorsOf_run
      by (simpl; intros k Hk; now apply PropsFacts.get_in_keys).
    reflexivity. }
  simpl. split; [exact G|]. split; [exact K2|]. split; [reflexivity|].
  apply not_true_iff_false. intros H. apply isDirty_iff in H.
  destruct H as (key & _ & Hd). unfold Snapshot.isFieldDirty in Hd.
  rewrite G in Hd. now destruct (Props.get key (data w)).
Qed.

Lemma get_restoreOne init d key k :
  Props.get k (restoreOne init d key)
  = match Props.get k d with
    | Some f => Some (if key =? k then restoredField init k f else f)
    | None => None
    end.
Proof.
  unfold restoreOne, restoredField.
  destruct (String.eqb_spec key k) as [<-|N].
  - destruct (Props.get key init) as [v|].
    + rewrite get_updated. now rewrite String.eqb_refl.
    + now destruct (Props.get key d).
  - destruct (Props.get key init) as [v|].
    + rewrite get_updated. apply String.eqb_neq in N. now rewrite N.
    + now destruct (Props.get k d).
Qed.

Lemma keys_restoreOne init d key : Props.keys (restoreOne init d key) = Props.keys d.
Proof.
  unfold restoreOne. destruct (Props.get key init); [apply keys_updated | reflexivity].
Qed.

Lemma get_fold_restoreOne init ks :
  forall d k,
    Props.get k (fold_left (restoreOne init) ks d)
    = match Props.get k d with
      | Some f => Some (if isIn k ks then restoredField init k f else f)
      | None => None
      end.
Proof.
  induction ks as [|key rest IH]; intros d k; simpl.
  - now destruct (Props.get k d).
  - rewrite IH, get_restoreOne. destruct (Props.get k d) as [f|]; [|reflexivity].
    rewrite (String.eqb_sym k key). destruct (key =? k); simpl; [|reflexivity].
    destruct (isIn k rest); [|reflexivity].
    unfold restoredField. now destruct (Props.get k init).
Qed.

Lemma keys_fold_restoreOne init ks :
  forall d, Props.keys (fold_left (restoreOne init) ks d) = Props.keys d.
Proof.
  induction ks as [|key rest IH]; intros d; simpl; [reflexivity|].
  rewrite IH. apply keys_restoreOne.
Qed.

Lemma restore_run init ks :
  forall w,
    (forall key, In key ks ->
                 Props.get key (data w) <> None
                 /\ exists v, Props.get key init = Some v /\ isObject v = false) ->
    Seed.restore init ks w
    = Ok (tt, {| data := fold_left (restoreOne init) ks (data w);
                 effects := effects w |}).
Proof.
  induction ks as [|key rest IH]; intros w H; simpl.
  - unfold ret. now rewrite world_eta.
  - destruct (H key (or_introl eq_refl)) as (Hreg & v & Hv & Hobj).
    unfold bind at 1, getData at 1.
    destruct (Props.get key (data w)) as [f|] eqn:G; [|congruence].
    rewrite Hv.
    assert (Hstep : restoreOne init (data w) key
                    = Props.replace key (withValue v f) (data w)).
    { unfold restoreOne, updated. now rewrite Hv, G. }
    assert (Hnext : Seed.restore init rest
                      {| data := Props.replace key (withValue v f) (data w);
                         effects := effects w |}
                    = Ok (tt, {| data := fold_left (restoreOne init) rest
                                                   (restoreOne init (data w) key);
                                 effects := effects w |})).
    { rewrite IH; [simpl; now rewrite Hstep|].
      intros k Hk. simpl. destruct (H k (or_intror Hk)) as (Hreg' & Hinit').
      split; [|exact Hinit'].
      rewrite <- Hstep, get_restoreOne. now destruct (Props.get k (data w)). }
    destruct v; try discriminate Hobj; unfold bind, setData; simpl; exact Hnext.
Qed.

Lemma known_same d d' k :
  (Props.get k d' = None <-> Props.get k d = None) -> known d' k = known d k.
Proof.
  intros H. unfold known, Props.has.
  destruct (Props.get k d), (Props.get k d'); try reflexivity;
    destruct H as [H1 H2]; (now specialize (H1 eq_refl)) || (now specialize (H2 eq_refl)).
Qed.

(** X30.  [reset()] of the last draft when the snapshot is not empty, its
    keys are registered and none of its values is an object, in a store
    whose names are not empty and whose values project once the snapshot
    is brought back, the validation it starts having come to its end:
    every field of the snapshot has the value of the
    snapshot again and is not dirty; every other field keeps its value;
    every field keeps its touched flag and is validated anew, its errors
    being the messages for the value it now has; the names keep their
    order and nothing is written to an element. *)
Theorem reset_restores_snapshot :
  forall stableHash fuel w initialData vals,
    initialData <> [] ->
    (forall key, In key (Props.keys initialData) -> Props.get key (data w) <> None) ->
    (forall key v, Props.get key initialData = Some v -> isObject v = false) ->
    forallb (known (data w)) (Props.keys (data w)) = true ->
    extractFieldsMember MValue (restored initialData (data w)) = Ok vals ->
    exists w',
      Seed.reset (S (S fuel)) initialData w = Ok (tt, w')
      /\ (forall key field,
            Props.get key (data w) = Some field ->
            Props.get key (data w')
            = Some (revalidate vals (restoredField initialData key field)))
      /\ (forall key initial,
            Props.get key initialData = Some initial ->
            exists field,
              Props.get key (data w') = Some field
              /\ value field = initial
              /\ Snapshot.isFieldDirty stableHash (data w') initialData key = false)
      /\ Props.keys (data w') = Props.keys (data w)
      /\ effects w' = effects w.
Proof.
  intros stableHash fuel w init vals Hne Hreg Hobj Hknown Hvals.
  set (d1 := restored init (data w)) in *.
  assert (K1 : Props.keys d1 = Props.keys (data w)) by apply keys_fold_restoreOne.
  assert (G1 : forall k, Props.get k d1
                         = match Props.get k (data w) with
                           | Some f => Some (restoredField init k f)
                           | None => None
                           end).
  { intros k. unfold d1, restored. rewrite get_fold_restoreOne.
    destruct (Props.get k (data w)) as [f|]; [|reflexivity].
    rewrite isIn_keys. unfold restoredField. now destruct (Props.get k init). }
  assert (Hknown1 : forallb (known d1) (Props.keys d1) = true).
  { rewrite K1. rewrite forallb_forall in *. intros k Hk.
    rewrite <- (Hknown k Hk). apply known_same. rewrite G1.
    now destruct (Props.get k (data w)). }
  set (w1 := {| data := d1; effects := effects w |}).
  assert (Hrestore : Seed.restore init (Props.keys init) w = Ok (tt, w1)).
  { apply restore_run. intros key Hk. split; [now apply Hreg|].
    apply get_keys_some in Hk. destruct Hk as [v Hv]. exists v.
    split; [exact Hv | exact (Hobj key v Hv)]. }
  assert (Hvalidate := @validate_batch_run fuel w1 NoName (Props.keys d1) vals false
                         eq_refl Hknown1 Hvals).
  rewrite batchFocus_off, app_nil_r in Hvalidate. simpl in Hvalidate.
  eexists. split.
  { unfold Seed.reset.
    replace (0 <? length (Props.keys init))%nat with true
      by (destruct init; [congruence | reflexivity]).
    unfold bind. rewrite Hrestore.
    apply unawaited_run with (a := forallb (passes d1 vals) (Props.keys d1)).
    exact Hvalidate. }
  simpl.
  assert (G : forall key field,
             Props.get key (data w) = Some field ->
             Props.get key (fold_left (validated vals) (Props.keys d1) d1)
             = Some (revalidate vals (restoredField init key field))).
  { intros key field Hget. rewrite get_fold_validated, G1, Hget.
    rewrite isIn_keys, G1, Hget. reflexivity. }
  split; [exact G|]. split.
  { intros key initial Hinit.
    assert (Hk : In key (Props.keys init)) by (apply get_keys_some; eauto).
    destruct (Props.get key (data w)) as [field|] eqn:Hget;
      [|now destruct (Hreg key Hk)].
    eexists. split; [exact (G key field Hget)|].
    unfold Snapshot.isFieldDirty. rewrite (G key field Hget), Hinit.
    unfold restoredField. rewrite Hinit. simpl.
    split; [reflexivity | now rewrite String.eqb_refl]. }
  split; [|reflexivity].
  now rewrite keys_fold_validated.
Qed.

Lemma reset_restores_snapshot_witness :
  exists w',
    Seed.reset 2 [("x", VStr "seed")] storeXY = Ok (tt, w')
    /\ Props.get "x" (data w')
       = Some (withErrors ["A"]
                 (withValue (VStr "seed")
                    (newField "x" (Some inputX) (VStr "") [alwaysA])))
    /\ Snapshot.isFieldDirty sampleHash (data w') [("x", VStr "seed")] "x" = false
    /\ effects w' = [].
Proof.
  destruct (@reset_restores_snapshot sampleHash 0 storeXY [("x", VStr "seed")]
              (VObj [("x", VStr "seed"); ("y", VStr "")]))
    as (w' & Hrun & Hget & Hsnap & _ & Heffects).
  - discriminate.
  - intros key [<-|[]]. discriminate.
  - intros key v H. cbn [Props.get] in H.
    destruct ("x" =? key)%string; [|discriminate].
    injection H as <-. reflexivity.
  - reflexivity.
  - reflexivity.
  - exists w'. destruct (Hsnap "x" (VStr "seed") eq_refl) as (f & _ & _ & Hclean).
    exact (conj Hrun (conj (Hget "x" _ eq_refl) (conj Hclean Heffects))).
Defined.

